(** * Tessdata path finder: a shallow embedding of [Path_Finder.py]

    The development follows the Python module top-down:
    - Python strings and the pieces of [posixpath] and [pathlib] the
      finder calls;
    - exceptions and a small state-and-exception monad for one thread of
      control;
    - the world the finder observes (environment, filesystem, clocks, the
      order in which pool futures complete) as a record of oracles;
    - the methods of [TessdataFinder], under their own names;
    - the vocabulary the statements are written in, and a few concrete
      machines;
    - the binary probe and the registry probe in detail, over the
      calls they make of the shell and of the registry;
    - the properties of the specification, one theorem per claim;
    - further properties of the code, numbered X1, X2, ...

    Modelling choices.  Times are rationals.  A thread sees the clock as
    the sequence of values its calls of [time.time()] return.  A pool is
    modelled by what [as_completed] shows of it: the futures that
    complete inside the window, in completion order, and whether one is
    left pending; each task is run on a thread state of its own.  The
    binary probe and the registry lookups are external calls whose
    results are the world's.  Printing under [verbose] is left out; the
    flag is kept in the signatures.  A statement that a failing [print]
    would make false is made of the calls with [verbose=False]. *)

From Stdlib Require Import String Ascii List ZArith QArith Lqa Lia Bool Permutation Sorted.
From stdpp Require Import gmap strings list.
Import ListNotations.

(** ** Python strings (ASCII fragment) *)

Module PyStr.

(** [c.lower()] and [c.isdigit()] on one ASCII character; code points
    above 127 are left alone and are not digits. *)
Definition lower_char (c : ascii) : ascii :=
  let n := nat_of_ascii c in
  if ((65 <=? n) && (n <=? 90))%nat then ascii_of_nat (n + 32) else c.

Definition isdigit (c : ascii) : bool :=
  let n := nat_of_ascii c in ((48 <=? n) && (n <=? 57))%nat.

Fixpoint lower (s : string) : string :=
  match s with
  | EmptyString => EmptyString
  | String c rest => String (lower_char c) (lower rest)
  end.

(** [any(ch.isdigit() for ch in s)] *)
Fixpoint any_digit (s : string) : bool :=
  match s with
  | EmptyString => false
  | String c rest => isdigit c || any_digit rest
  end.

Definition startswith (s pre : string) : bool := String.prefix pre s.

(** [needle in hay] *)
Fixpoint contains (needle hay : string) : bool :=
  String.prefix needle hay ||
  match hay with
  | EmptyString => false
  | String _ rest => contains needle rest
  end.

(** [s.endswith(c)] for a one-character suffix. *)
Fixpoint endswith_char (s : string) (c : ascii) : bool :=
  match s with
  | EmptyString => false
  | String a EmptyString => Ascii.eqb a c
  | String _ rest => endswith_char rest c
  end.

(** [s.split(c)] for a one-character separator: never the empty list. *)
Fixpoint split (c : ascii) (s : string) : list string :=
  match s with
  | EmptyString => [EmptyString]
  | String a rest =>
      if Ascii.eqb a c then EmptyString :: split c rest
      else match split c rest with
           | h :: t => String a h :: t
           | [] => [String a EmptyString]
           end
  end.

(** [sep.join(l)] *)
Definition join (sep : string) (l : list string) : string := String.concat sep l.

(** [s.rfind(c)] as an option: the index of the last occurrence. *)
Fixpoint rfind (c : ascii) (s : string) : option nat :=
  match s with
  | EmptyString => None
  | String a rest =>
      match rfind c rest with
      | Some i => Some (S i)
      | None => if Ascii.eqb a c then Some 0%nat else None
      end
  end.

(** [s[i:]] *)
Fixpoint drop (i : nat) (s : string) : string :=
  match i, s with
  | O, _ => s
  | S i', String _ rest => drop i' rest
  | S _, EmptyString => EmptyString
  end.

(** [c * k] for a one-character string. *)
Fixpoint repeat_char (c : ascii) (k : nat) : string :=
  match k with
  | O => EmptyString
  | S k' => String c (repeat_char c k')
  end.

End PyStr.

(** ** Exceptions and results *)

(** The subclasses of [OSError] the filesystem calls raise. *)
Inductive os_error : Type :=
| PermissionError
| FileNotFoundError
| NotADirectoryError
| OtherOSError.

Inductive exn : Type :=
| OSError (e : os_error)
| FuturesTimeoutError          (* raised by the [as_completed] iterator *)
| ValueError
| RuntimeError
| OtherException (name : string).

(** [isinstance(e, OSError)], the test of
    [except (PermissionError, OSError, FileNotFoundError)] and of
    [except (OSError, PermissionError)]. *)
Definition is_OSError (e : exn) : bool :=
  match e with OSError _ => true | _ => false end.

(** [except Exception]: every exception of the model is one. *)
Definition is_Exception (e : exn) : bool := true.

(** What a filesystem call gives back: a value or an [OSError]. *)
Inductive io (A : Type) : Type :=
| IoOk (a : A)
| IoErr (e : os_error).
Arguments IoOk {A} a.
Arguments IoErr {A} e.

(** Outcome of a computation: a value, a raised exception, or the model's
    recursion allowance used up (never a Python behaviour; the theorems
    show the allowance given is enough). *)
Inductive result (A : Type) : Type :=
| Ok (a : A)
| Raise (e : exn)
| OutOfFuel.
Arguments Ok {A} a.
Arguments Raise {A} e.
Arguments OutOfFuel {A}.

Definition of_io {A} (r : io A) : result A :=
  match r with IoOk a => Ok a | IoErr e => Raise (OSError e) end.

(** ** Paths: [os.path] and [pathlib]

    Python binds [os.path] to [posixpath] or [ntpath] and [Path] to
    [PosixPath] or [WindowsPath] when the interpreter starts.  The finder
    is written against that interface; [PathFlavour] is the interface and
    [posix] the POSIX binding, transcribed from [posixpath.py] and from
    [pathlib]'s POSIX flavour.  Of the Windows binding only
    [ntpath.normpath] is transcribed. *)

(** A [pathlib] path object: the anchor and the parsed parts after it. *)
Record PurePath : Type := mkPath { anchor : string; parts : list string }.

Class PathFlavour : Type := {
  os_path_normpath : string -> string;
  os_path_join : string -> string -> string;
  os_path_isabs : string -> bool;
  Path : string -> PurePath;          (* [Path(s)] *)
  str : PurePath -> string;           (* [str(p)] *)
}.

(** [p.name]: the last part, or the empty string when there is none. *)
Definition path_name (p : PurePath) : string := List.last (parts p) "".

(** The child [iterdir] yields for a directory entry: the entry name is
    appended to the parts as it is. *)
Definition path_child (p : PurePath) (entry : string) : PurePath :=
  mkPath (anchor p) (parts p ++ [entry]).

(** [p.suffix]: [i = name.rfind('.')], and [name[i:]] when
    [0 < i < len(name) - 1], else the empty string. *)
Definition path_suffix (p : PurePath) : string :=
  let name := path_name p in
  match PyStr.rfind "." name with
  | Some i =>
      if ((0 <? i) && (i <? String.length name - 1))%nat then PyStr.drop i name
      else ""
  | None => ""
  end.

Module posixpath.

Definition sep : ascii := "/"%char.

Definition isabs (s : string) : bool := PyStr.startswith s "/".

(** [join(a, b)] with one tail component. *)
Definition join (a b : string) : string :=
  if PyStr.startswith b "/" then b
  else if (a =? "")%string || PyStr.endswith_char a sep then a +:+ b
  else a +:+ "/" +:+ b.

(** POSIX allows one or two initial slashes and treats three or more as
    one. *)
Definition initial_slashes (path : string) : nat :=
  if PyStr.startswith path "/" then
    if PyStr.startswith path "//" && negb (PyStr.startswith path "///")
    then 2%nat else 1%nat
  else 0%nat.

Definition is_nil {A} (l : list A) : bool :=
  match l with [] => true | _ => false end.

(** One turn of the loop over [comps] in [normpath]. *)
Definition normpath_step (slashes : nat) (new_comps : list string) (comp : string)
  : list string :=
  if (comp =? "")%string || (comp =? ".")%string then new_comps
  else if negb (comp =? "..")%string
          || ((slashes =? 0)%nat && is_nil new_comps)
          || (negb (is_nil new_comps) && (List.last new_comps "" =? "..")%string)
  then new_comps ++ [comp]
  else if negb (is_nil new_comps) then removelast new_comps
  else new_comps.

Definition normpath (path : string) : string :=
  if (path =? "")%string then "."
  else
    let slashes := initial_slashes path in
    let comps := fold_left (normpath_step slashes) (PyStr.split sep path) [] in
    let path' := PyStr.repeat_char sep slashes +:+ PyStr.join "/" comps in
    if (path' =? "")%string then "." else path'.

(** [pathlib]'s POSIX parsing: empty and [.] components are dropped,
    [..] is kept. *)
Definition keep_part (comp : string) : bool :=
  negb ((comp =? "")%string || (comp =? ".")%string).

Definition parse (s : string) : PurePath :=
  mkPath (PyStr.repeat_char sep (initial_slashes s))
         (filter keep_part (PyStr.split sep s)).

Definition render (p : PurePath) : string :=
  let s := anchor p +:+ PyStr.join "/" (parts p) in
  if (s =? "")%string then "." else s.

End posixpath.

Definition posix : PathFlavour := {|
  os_path_normpath := posixpath.normpath;
  os_path_join := posixpath.join;
  os_path_isabs := posixpath.isabs;
  Path := posixpath.parse;
  str := posixpath.render;
|}.

(** ** [ntpath.normpath]

    The Windows binding of [os.path.normpath], as [ntpath.py] of
    Python 3.11 defines it. *)

Module ntpath.

Definition sep : ascii := "\"%char.
Definition altsep : ascii := "/"%char.

(** [s.replace(altsep, sep)] *)
Fixpoint replace_altsep (s : string) : string :=
  match s with
  | EmptyString => EmptyString
  | String c rest => String (if Ascii.eqb c altsep then sep else c) (replace_altsep rest)
  end.

(** [s[:n]] *)
Fixpoint take (n : nat) (s : string) : string :=
  match n, s with
  | S n', String c rest => String c (take n' rest)
  | _, _ => EmptyString
  end.

(** [s.find(c)] as an option. *)
Fixpoint find (c : ascii) (s : string) : option nat :=
  match s with
  | EmptyString => None
  | String a rest => if Ascii.eqb a c then Some 0%nat else option_map S (find c rest)
  end.

(** [s.find(c, start)] *)
Definition find_from (c : ascii) (start : nat) (s : string) : option nat :=
  option_map (fun i => (start + i)%nat) (find c (PyStr.drop start s)).

(** [s.upper()] on ASCII letters. *)
Definition upper_char (c : ascii) : ascii :=
  let n := nat_of_ascii c in
  if ((97 <=? n) && (n <=? 122))%nat then ascii_of_nat (n - 32) else c.

Fixpoint upper (s : string) : string :=
  match s with
  | EmptyString => EmptyString
  | String c rest => String (upper_char c) (upper rest)
  end.

(** [s.lstrip(c)] *)
Fixpoint lstrip (c : ascii) (s : string) : string :=
  match s with
  | EmptyString => EmptyString
  | String a rest => if Ascii.eqb a c then lstrip c rest else s
  end.

Definition unc_prefix : string := "\\?\UNC\".

Definition splitdrive (p : string) : string * string :=
  if (2 <=? String.length p)%nat then
    let normp := replace_altsep p in
    if (take 2 normp =? String sep (String sep ""))%string then
      let start := if (upper (take 8 normp) =? unc_prefix)%string then 8%nat else 2%nat in
      match find_from sep start normp with
      | None => (p, "")
      | Some index =>
          match find_from sep (index + 1) normp with
          | None => (p, "")
          | Some index2 => (take index2 p, PyStr.drop index2 p)
          end
      end
    else if (take 1 (PyStr.drop 1 normp) =? ":")%string then (take 2 p, PyStr.drop 2 p)
    else ("", p)
  else ("", p).

(** One turn of the loop over [comps] in [normpath]; [comps] holds the
    components before index [i]. *)
Definition normpath_step (prefix : string) (comps : list string) (comp : string)
  : list string :=
  if (comp =? "")%string || (comp =? ".")%string then comps
  else if (comp =? "..")%string then
    if negb (posixpath.is_nil comps) && negb (List.last comps "" =? "..")%string
    then removelast comps
    else if posixpath.is_nil comps && PyStr.endswith_char prefix sep then comps
    else comps ++ [comp]
  else comps ++ [comp].

Definition normpath (path : string) : string :=
  let path := replace_altsep path in
  let '(prefix, path) := splitdrive path in
  let '(prefix, path) :=
    if PyStr.startswith path (String sep "")
    then (prefix +:+ String sep "", lstrip sep path)
    else (prefix, path) in
  let comps := fold_left (normpath_step prefix) (PyStr.split sep path) [] in
  let comps := if (prefix =? "")%string && posixpath.is_nil comps then ["."] else comps in
  prefix +:+ PyStr.join (String sep "") comps.

End ntpath.

(** ** The finder object, the world, and one thread of control *)

(** The attributes of a [TessdataFinder] ([self.lock] guards
    [found_paths]; the model updates the set in one step). *)
Record TessdataFinder : Type := mkFinder {
  timeout : Q;
  max_workers : Z;
  start_time : option Q;
  found_paths : gset string;
  os_type : string;
}.

(** What an external call that may raise any exception gives back. *)
Inductive outcome (A : Type) : Type :=
| Returns (a : A)
| Raises (e : exn).
Arguments Returns {A} a.
Arguments Raises {A} e.

Definition of_outcome {A} (r : outcome A) : result A :=
  match r with Returns a => Ok a | Raises e => Raise e end.

(** Everything outside the module that a search observes.  Filesystem
    calls are keyed by the path string handed to the operating system.
    Clocks are the successive values [time.time()] returns to one thread;
    the [*_done] fields are the scheduler: which futures of a pool
    complete inside the window given to [as_completed], in completion
    order. *)
Record World : Type := mkWorld {
  platform_system : string;                        (* [platform.system()] *)
  environ : string -> option string;               (* [os.environ.get] *)
  getcwd : io string;                              (* [os.getcwd()] *)
  expanduser : string -> string;
  expandvars : string -> string;
  fs_exists : string -> bool;                      (* [os.path.exists] *)
  fs_is_dir : string -> io bool;                   (* [Path.is_dir] *)
  fs_is_symlink : string -> io bool;               (* [Path.is_symlink] *)
  fs_iterdir : string -> io (list string);         (* entry names *)
  fs_resolve : string -> outcome string;           (* [str(Path.resolve())] *)
  binary_info : outcome (list string);             (* the binary probe *)
  winreg : bool;                                   (* [winreg] imported *)
  registry_info : outcome (list string);           (* the registry lookups *)
  time_main : nat -> Q;                            (* the caller's thread *)
  time_worker : nat -> nat -> Q;                   (* tier-2 task [i] *)
  time_crawl : nat -> nat -> Q;                    (* crawl of root [i] *)
  tier2_done : Q -> list nat;
  crawl_done : Q -> list nat;
}.

(** What a run does to the outside, in order: a probe method entered, a
    directory passing the guard of [_recursive_search], a directory
    listed, a directory recorded.  The log is an observation of the run
    and feeds back into nothing. *)
Inductive event : Type :=
| EvProbe (name : string)
| EvVisit (p : PurePath)
| EvList (p : PurePath)
| EvFound (p : PurePath) (abs_path : string).

(** One thread of control: the finder object it shares, its clock and how
    many readings it has taken, the list [found] that [_recursive_search]
    closes over, and the log. *)
Record state : Type := mkState {
  self : TessdataFinder;
  clock : nat -> Q;
  ticks : nat;
  found : list string;
  events : list event;
}.

Definition set_self (f : TessdataFinder) (st : state) : state :=
  mkState f (clock st) (ticks st) (found st) (events st).
Definition set_ticks (n : nat) (st : state) : state :=
  mkState (self st) (clock st) n (found st) (events st).
Definition set_found (l : list string) (st : state) : state :=
  mkState (self st) (clock st) (ticks st) l (events st).
Definition add_events (l : list event) (st : state) : state :=
  mkState (self st) (clock st) (ticks st) (found st) (events st ++ l).

Definition set_start_time (t : option Q) (f : TessdataFinder) : TessdataFinder :=
  mkFinder (timeout f) (max_workers f) t (found_paths f) (os_type f).
Definition set_found_paths (s : gset string) (f : TessdataFinder) : TessdataFinder :=
  mkFinder (timeout f) (max_workers f) (start_time f) s (os_type f).

(** *** The monad: state passing with exceptions *)

Definition M (A : Type) : Type := state -> result A * state.

Definition ret {A} (a : A) : M A := fun st => (Ok a, st).

Definition bind {A B} (c : M A) (k : A -> M B) : M B :=
  fun st =>
    match c st with
    | (Ok a, st') => k a st'
    | (Raise e, st') => (Raise e, st')
    | (OutOfFuel, st') => (OutOfFuel, st')
    end.

Declare Scope py_scope.
Delimit Scope py_scope with py.
Notation "x <- c ;; k" := (bind c (fun x => k))
  (at level 100, c at next level, right associativity) : py_scope.
Notation "c ;;; k" := (bind c (fun _ => k))
  (at level 100, right associativity) : py_scope.
Open Scope py_scope.

Definition raise {A} (e : exn) : M A := fun st => (Raise e, st).

Definition out_of_fuel {A} : M A := fun st => (OutOfFuel, st).

Definition lift {A} (r : result A) : M A := fun st => (r, st).

Definition get : M state := fun st => (Ok st, st).

Definition modify (f : state -> state) : M unit := fun st => (Ok tt, f st).

Definition log (e : event) : M unit := modify (add_events [e]).

(** [try: c except <catches>: handler].  The state changes made before
    the exception stay. *)
Definition try_except {A} (c : M A) (catches : exn -> bool) (handler : M A) : M A :=
  fun st =>
    match c st with
    | (Raise e, st') => if catches e then handler st' else (Raise e, st')
    | r => r
    end.

(** How the body of a loop ends one turn; [acc] is the value of the
    locals the loop updates. *)
Inductive ctl (B : Type) : Type :=
| Continue (acc : B)
| Break (acc : B).
Arguments Continue {B} acc.
Arguments Break {B} acc.

(** [for x in items: body], where asking the iterator for the element
    after the last one runs [at_end] ([ret tt] for a list; an iterator
    such as [as_completed] may raise there).  [break] does not ask. *)
Fixpoint for_in {A B} (items : list A) (at_end : M unit) (acc : B)
    (body : B -> A -> M (ctl B)) : M B :=
  match items with
  | [] => at_end ;;; ret acc
  | x :: rest =>
      c <- body acc x ;;
      match c with
      | Continue acc' => for_in rest at_end acc' body
      | Break acc' => ret acc'
      end
  end.

(** [time.time()] *)
Definition time_time : M Q :=
  fun st => (Ok (clock st (ticks st)), set_ticks (S (ticks st)) st).

(** *** Thread pools *)

(** A task handed to [executor.submit] runs on a worker thread with its
    own clock; it shares [self].  Its outcome is kept in the future and
    its observations join the log. *)
Definition submit {A} (task : M A) (worker_clock : nat -> Q) : M (result A) :=
  fun st =>
    let '(r, st') := task (mkState (self st) worker_clock 0 [] []) in
    (Ok r, add_events (events st') st).

(** [ThreadPoolExecutor(max_workers=n)] *)
Definition ThreadPoolExecutor (n : Z) : M unit :=
  if (n <=? 0)%Z then raise ValueError else ret tt.

(** [as_completed(futures, timeout=window)]: the futures that complete
    inside the window, in completion order [order], and whether some
    future is still pending when the window closes. *)
Definition as_completed {A} (futures : list A) (order : list nat) : list A * bool :=
  let idx := nodup Nat.eq_dec (filter (fun i => (i <? length futures)%nat) order) in
  (omap (fun i => nth_error futures i) idx, (length idx <? length futures)%nat).

(** The end of an [as_completed] iteration. *)
Definition as_completed_end (pending : bool) : M unit :=
  if pending then raise FuturesTimeoutError else ret tt.

(** [max(1, x)] *)
Definition max1 (x : Q) : Q := if Qle_bool x 1 then 1%Q else x.

(** ** The methods of [TessdataFinder] *)

(** [self.found_paths.update(paths)] *)
Definition update_found_paths (paths : list string) : M unit :=
  modify (fun st =>
    set_self (set_found_paths (found_paths (self st) ∪ list_to_set paths) (self st)) st).

Definition io_call {A} (r : io A) : M A := lift (of_io r).

(** [executor.submit] for each task of a list, in order. *)
Fixpoint submit_each {A} (tasks : list (M A * (nat -> Q))) : M (list (result A)) :=
  match tasks with
  | [] => ret []
  | (task, clk) :: rest =>
      fut <- submit task clk ;;
      futs <- submit_each rest ;;
      ret (fut :: futs)
  end.

(** [enumerate(l)] *)
Definition enumerate {A} (l : list A) : list (nat * A) := combine (seq 0 (length l)) l.

Section Finder.

Context {fl : PathFlavour} (w : World).

(** [TessdataFinder(timeout, max_workers)] *)
Definition TessdataFinder_init (timeout : Q) (max_workers : Z) : TessdataFinder :=
  mkFinder timeout max_workers None ∅ (PyStr.lower (platform_system w)).

(** [os.path.abspath]: [normpath] of the path, joined to the working
    directory when it is relative. *)
Definition abspath (path : string) : M string :=
  if os_path_isabs path then ret (os_path_normpath path)
  else cwd <- io_call (getcwd w) ;; ret (os_path_normpath (os_path_join cwd path)).

(** [os.path.isdir]: false on any error. *)
Definition os_path_isdir (path : string) : bool :=
  match fs_is_dir w path with IoOk b => b | IoErr _ => false end.

(** *** Budget *)

Definition _elapsed : M Q :=
  st <- get ;;
  match start_time (self st) with
  | Some s => if Qeq_bool s 0 then ret 0%Q
              else (now <- time_time ;; ret (now - s)%Q)
  | None => ret 0%Q
  end.

Definition _is_timeout : M bool :=
  e <- _elapsed ;;
  st <- get ;;
  ret (negb (Qle_bool e (timeout (self st)))).

(** *** Validator *)

Definition _is_valid_tessdata_dir (path : string) : M bool :=
  try_except
    (let path_obj := Path path in
     is_dir <- io_call (fs_is_dir w (str path_obj)) ;;
     if negb is_dir then ret false
     else
       names <- io_call (fs_iterdir w (str path_obj)) ;;
       ret (existsb (fun f => (path_suffix f =? ".traineddata")%string)
                    (map (path_child path_obj) names)))
    is_OSError
    (ret false).

(** *** Crawl pruning *)

Definition skip_dirs : gset string :=
  list_to_set
    ["windows"; "system32"; "syswow64"; "$recycle.bin"; "recovery";
     "proc"; "sys"; "dev"; "run"; "tmp"; "var/tmp"; "boot";
     ".git"; ".svn"; "__pycache__"; "node_modules"; ".vscode"].

Definition interesting_keywords : gset string :=
  list_to_set
    ["tesseract"; "ocr"; "program"; "share"; "local"; "opt"; "tools"; "bin"].

Definition _should_search_directory (path : PurePath) : bool :=
  let name := PyStr.lower (path_name path) in
  if bool_decide (name ∈ skip_dirs) then false
  else existsb (fun keyword => PyStr.contains keyword name) (elements interesting_keywords)
       || (String.length name <? 3)%nat.

(** *** Ranking *)

(** [any(token in s for token in tokens)] *)
Definition any_in (tokens : list string) (s : string) : bool :=
  existsb (fun token => PyStr.contains token s) tokens.

Definition priority (path : string) : Z :=
  let path_lower := PyStr.lower path in
  let priority := 0%Z in
  let priority :=
    if any_in ["tessdata_prefix"; "tesseract"] path_lower
    then (priority - 1000)%Z else priority in
  let priority :=
    if any_in ["/usr/share"; "/usr/local/share"; "program files"] path_lower
    then (priority - 100)%Z else priority in
  let priority :=
    if PyStr.any_digit path then (priority - 10)%Z else priority in
  priority.

Definition priority_key (path : string) : Z * string :=
  (priority path, PyStr.lower path).

(** Python's order on the key tuples. *)
Definition key_le (a b : Z * string) : bool :=
  (fst a <? fst b)%Z || ((fst a =? fst b)%Z && String.leb (snd a) (snd b)).

(** [sorted(l, key=key)] is stable; so is insertion from the right. *)
Fixpoint insert_by {A} (key : A -> Z * string) (x : A) (l : list A) : list A :=
  match l with
  | [] => [x]
  | y :: l' => if key_le (key x) (key y) then x :: l else y :: insert_by key x l'
  end.

Definition sorted {A} (l : list A) (key : A -> Z * string) : list A :=
  fold_right (insert_by key) [] l.

(** The loop that removes duplicates: [seen] and [unique_paths]. *)
Definition dedup_step (acc : gset string * list string) (path : string)
  : gset string * list string :=
  let '(seen, unique_paths) := acc in
  let normalized := os_path_normpath path in
  if bool_decide (normalized ∈ seen) then (seen, unique_paths)
  else ({[ normalized ]} ∪ seen, unique_paths ++ [normalized]).

Definition _prioritize_paths (paths : list string) : list string :=
  let '(_, unique_paths) := fold_left dedup_step paths (∅, []) in
  sorted unique_paths priority_key.

(** *** Filesystem crawl *)

(** The closure [_recursive_search] of [_search_directory_tree];
    [max_depth] is the local it reads.  [fuel] bounds the nesting of
    calls and has no counterpart in the source. *)
Fixpoint _recursive_search (fuel : nat) (verbose : bool) (max_depth : nat)
    (current_path : PurePath) (depth : nat) : M unit :=
  match fuel with
  | O => out_of_fuel
  | S fuel' =>
      stop <- (if (max_depth <? depth)%nat then ret true else _is_timeout) ;;
      if stop then ret tt
      else
        log (EvVisit current_path) ;;;
        try_except
          (hit <- (if (path_name current_path =? "tessdata")%string
                   then _is_valid_tessdata_dir (str current_path)
                   else ret false) ;;
           if hit then
             abs_path <- lift (of_outcome (fs_resolve w (str current_path))) ;;
             modify (fun st => set_found (found st ++ [abs_path]) st) ;;;
             log (EvFound current_path abs_path)
           else if _should_search_directory current_path then
             log (EvList current_path) ;;;
             names <- io_call (fs_iterdir w (str current_path)) ;;
             for_in names (ret tt) tt (fun _ name =>
               let child := path_child current_path name in
               is_dir <- io_call (fs_is_dir w (str child)) ;;
               is_link <- (if is_dir then io_call (fs_is_symlink w (str child))
                           else ret false) ;;
               if is_dir && negb is_link then
                 _recursive_search fuel' verbose max_depth child (S depth) ;;;
                 ret (Continue tt)
               else ret (Continue tt))
           else ret tt)
          is_OSError
          (ret tt)
  end.

Definition max_depth_of (f : TessdataFinder) : nat :=
  if (os_type f =? "windows")%string then 4%nat else 5%nat.

Definition _search_directory_tree_fuel (fuel : nat) (root_path : string)
    (verbose : bool) : M (list string) :=
  modify (set_found []) ;;;
  st <- get ;;
  let max_depth := max_depth_of (self st) in
  try_except
    (_recursive_search fuel verbose max_depth (Path root_path) 0)
    is_Exception
    (ret tt) ;;;
  st <- get ;;
  ret (found st).

(** Calls nest at most [max_depth + 2] deep: depths [0] to
    [max_depth + 1], the last one stopped by the guard. *)
Definition _search_directory_tree (root_path : string) (verbose : bool)
  : M (list string) :=
  st <- get ;;
  _search_directory_tree_fuel (max_depth_of (self st) + 2) root_path verbose.

Definition drive_letters : list ascii :=
  list_ascii_of_string "CDEFGHIJKLMNOPQRSTUVWXYZ".

Definition _get_search_roots (f : TessdataFinder) : list string :=
  if (os_type f =? "windows")%string then
    let drives :=
      filter (fun drive => fs_exists w drive)
             (map (fun letter => String letter ":\") drive_letters) in
    let roots :=
      flat_map (fun drive => [os_path_join drive "Program Files";
                              os_path_join drive "Program Files (x86)"])
               (firstn 2 drives) in
    filter (fun r => fs_exists w r) roots
  else ["/usr"; "/usr/local"; "/opt"].

Definition _search_filesystem_smart (verbose : bool) : M (list string) :=
  log (EvProbe "_search_filesystem_smart") ;;;
  expired <- _is_timeout ;;
  if expired then ret []
  else
    st <- get ;;
    let search_roots := _get_search_roots (self st) in
    ThreadPoolExecutor
      (Z.min (Z.of_nat (length search_roots)) (max_workers (self st))) ;;;
    futures <- submit_each
                 (map (fun '(i, root) =>
                         (_search_directory_tree root verbose, time_crawl w i))
                      (enumerate search_roots)) ;;
    e <- _elapsed ;;
    let '(completed, pending) :=
      as_completed futures (crawl_done w (max1 (timeout (self st) - e))) in
    for_in completed (as_completed_end pending) [] (fun paths future =>
      expired <- _is_timeout ;;
      if expired then ret (Break paths)
      else
        try_except
          (found_paths <- lift future ;;
           ret (Continue (paths ++ found_paths)))
          is_Exception
          (ret (Continue paths))).

(** *** Cheap probes *)

Definition env_vars : list string :=
  ["TESSDATA_PREFIX"; "TESSERACT_DATA_PATH"; "TESSERACT_PREFIX"].

Definition _check_environment_vars (verbose : bool) : M (list string) :=
  log (EvProbe "_check_environment_vars") ;;;
  for_in env_vars (ret tt) [] (fun paths var =>
    match environ w var with
    | Some path =>
        if (path =? "")%string then ret (Continue paths)
        else
          let candidates := [path; os_path_join path "tessdata"] in
          paths' <- for_in candidates (ret tt) paths (fun paths candidate =>
                      valid <- _is_valid_tessdata_dir candidate ;;
                      if valid then
                        abs_path <- abspath candidate ;;
                        ret (Break (paths ++ [abs_path]))
                      else ret (Continue paths)) ;;
          ret (Continue paths')
    | None => ret (Continue paths)
    end).

(** The binary probe runs [shutil.which] and a subprocess; what it
    returns or raises is the world's. *)
Definition _check_tesseract_binary_info (verbose : bool) : M (list string) :=
  log (EvProbe "_check_tesseract_binary_info") ;;;
  lift (of_outcome (binary_info w)).

Definition _get_common_tessdata_paths (f : TessdataFinder) : list string :=
  if (os_type f =? "windows")%string then
    ["C:/Program Files/Tesseract-OCR/tessdata";
     "C:/Program Files (x86)/Tesseract-OCR/tessdata";
     "C:/Tesseract-OCR/tessdata";
     "C:/tools/tesseract/tessdata";
     "${LOCALAPPDATA}/Tesseract-OCR/tessdata";
     "${PROGRAMFILES}/Tesseract-OCR/tessdata";
     "${PROGRAMFILES(X86)}/Tesseract-OCR/tessdata";
     "~/AppData/Local/Tesseract-OCR/tessdata";
     "~/tessdata"]
  else if (os_type f =? "darwin")%string then
    ["/usr/local/share/tesseract-ocr/tessdata";
     "/usr/local/share/tessdata";
     "/opt/homebrew/share/tesseract-ocr/tessdata";
     "/usr/share/tesseract-ocr/tessdata";
     "~/.local/share/tesseract/tessdata";
     "~/tessdata"]
  else
    ["/usr/share/tesseract-ocr/tessdata";
     "/usr/share/tessdata";
     "/usr/local/share/tesseract-ocr/tessdata";
     "/usr/local/share/tessdata";
     "/opt/tesseract/share/tessdata";
     "~/.local/share/tesseract/tessdata";
     "~/.tesseract/tessdata";
     "~/tessdata"].

Definition _check_common_locations (verbose : bool) : M (list string) :=
  log (EvProbe "_check_common_locations") ;;;
  st <- get ;;
  for_in (_get_common_tessdata_paths (self st)) (ret tt) [] (fun paths path_template =>
    expired <- _is_timeout ;;
    if expired then ret (Break paths)
    else
      try_except
        (let expanded_path := expandvars w (expanduser w path_template) in
         if os_path_isdir expanded_path then
           valid <- _is_valid_tessdata_dir expanded_path ;;
           if valid then
             abs_path <- abspath expanded_path ;;
             ret (Continue (paths ++ [abs_path]))
           else ret (Continue paths)
         else ret (Continue paths))
        is_Exception
        (ret (Continue paths))).

(** The registry lookups themselves are the world's; the guard is the
    method's. *)
Definition _check_registry_windows (verbose : bool) : M (list string) :=
  log (EvProbe "_check_registry_windows") ;;;
  st <- get ;;
  if negb (winreg w) || negb (os_type (self st) =? "windows")%string then ret []
  else lift (of_outcome (registry_info w)).

Definition _dummy_method (verbose : bool) : M (list string) := ret [].

(** *** The pipeline *)

(** [list(self.found_paths)] is taken in the order of [elements]; Python
    leaves the iteration order of a set open.  The result is sorted by
    key afterwards, so the order matters only between paths with equal
    keys, that is paths equal up to letter case. *)
Definition find_all_tessdata_paths (verbose : bool) : M (list string) :=
  now <- time_time ;;
  modify (fun st =>
    set_self (set_found_paths ∅ (set_start_time (Some now) (self st))) st) ;;;
  st <- get ;;
  let search_methods :=
    [_check_environment_vars;
     _check_tesseract_binary_info;
     _check_common_locations;
     (if (os_type (self st) =? "windows")%string
      then _check_registry_windows else _dummy_method);
     _search_filesystem_smart] in
  for_in (firstn 3 search_methods) (ret tt) tt (fun _ method =>
    expired <- _is_timeout ;;
    if expired then ret (Break tt)
    else
      try_except
        (paths <- method verbose ;;
         update_found_paths paths ;;;
         ret (Continue tt))
        is_Exception
        (ret (Continue tt))) ;;;
  expired <- _is_timeout ;;
  (if negb expired && (3 <? length search_methods)%nat then
     ThreadPoolExecutor (max_workers (self st)) ;;;
     futures <- submit_each
                  (map (fun '(i, method) => (method verbose, time_worker w i))
                       (enumerate (skipn 3 search_methods))) ;;
     e <- _elapsed ;;
     let '(completed, pending) :=
       as_completed futures (tier2_done w (max1 (timeout (self st) - e))) in
     for_in completed (as_completed_end pending) tt (fun _ future =>
       expired <- _is_timeout ;;
       if expired then ret (Break tt)
       else
         try_except
           (paths <- lift future ;;
            update_found_paths paths ;;;
            ret (Continue tt))
           is_Exception
           (ret (Continue tt)))
   else ret tt) ;;;
  st <- get ;;
  ret (_prioritize_paths (elements (found_paths (self st)))).

Definition find_primary_tessdata_path (verbose : bool) : M (option string) :=
  paths <- find_all_tessdata_paths verbose ;;
  ret (match paths with p :: _ => Some p | [] => None end).

(** *** Module-level wrappers *)

(** The state in which the caller's thread enters a method of [f]. *)
Definition enter (f : TessdataFinder) : state := mkState f (time_main w) 0 [] [].

Definition get_tessdata_paths (verbose : bool) (timeout : Q)
  : result (list string) * state :=
  find_all_tessdata_paths verbose (enter (TessdataFinder_init timeout 4)).

Definition get_primary_tessdata_path (verbose : bool) (timeout : Q)
  : result (option string) * state :=
  find_primary_tessdata_path verbose (enter (TessdataFinder_init timeout 4)).

End Finder.

(** * Vocabulary of the specification *)

(** ** Weakest preconditions *)

(** [wp c Q st]: running [c] from [st] ends in an outcome and a state
    that satisfy [Q]. *)
Definition wp {A} (c : M A) (Q : result A -> state -> Prop) (st : state) : Prop :=
  Q (fst (c st)) (snd (c st)).

(** The continuation of [Q] through a [bind]: exceptions and exhaustion
    skip [k]. *)
Definition after {A B} (k : A -> M B) (Q : result B -> state -> Prop)
  : result A -> state -> Prop :=
  fun r st =>
    match r with
    | Ok a => wp (k a) Q st
    | Raise e => Q (Raise e) st
    | OutOfFuel => Q OutOfFuel st
    end.

(** [c] never uses up the recursion allowance. *)
Definition total {A} (c : M A) : Prop := forall st, fst (c st) <> OutOfFuel.

(** [c] returns: it neither raises nor uses up the allowance. *)
Definition returns {A} (c : M A) : Prop := forall st, exists a, fst (c st) = Ok a.

(** ** States and logs *)

(** [st'] is [st] after some clock readings: nothing else differs. *)
Definition same_but_ticks (st st' : state) : Prop :=
  self st' = self st /\ clock st' = clock st /\ found st' = found st /\
  events st' = events st /\ (ticks st <= ticks st')%nat.

(** The entries the crawl appended to [found], read off the log. *)
Definition found_of (l : list event) : list string :=
  omap (fun e => match e with EvFound _ a => Some a | _ => None end) l.

(** [st'] continues [st]: same finder object and clock, the log grown by
    events that satisfy [P], and [found] grown by what the new events
    recorded. *)
Definition extends (P : event -> Prop) (st st' : state) : Prop :=
  self st' = self st /\ clock st' = clock st /\
  exists l, events st' = events st ++ l /\ Forall P l /\
            found st' = found st ++ found_of l.

(** A list of paths all of which were recorded in the log [l]. *)
Definition recorded_in (l : list event) (paths : list string) : Prop :=
  forall a, In a paths -> exists q, In (EvFound q a) l.

(** A future of the crawl pool: it holds a list of recorded paths. *)
Definition crawl_future (r : result (list string)) (l : list event) : Prop :=
  exists paths, r = Ok paths /\ recorded_in l paths.

(** ** Directories below a root *)

(** [reaches p names q]: [q] lies below [p] along the entry names
    [names], and every directory on the way down, [q] excepted, is one
    that [_should_search_directory] accepts. *)
Fixpoint reaches (p : PurePath) (names : list string) (q : PurePath) : Prop :=
  match names with
  | [] => q = p
  | name :: rest =>
      _should_search_directory p = true /\ reaches (path_child p name) rest q
  end.

(** The directory reached from [p] by following the entry names. *)
Definition descend (p : PurePath) (names : list string) : PurePath :=
  fold_left path_child names p.

Definition event_path (e : event) : option PurePath :=
  match e with
  | EvProbe _ => None
  | EvVisit q | EvList q | EvFound q _ => Some q
  end.

(** The event is about a directory at most [bound] levels below [root]. *)
Definition within_depth (root : PurePath) (bound : nat) (e : event) : Prop :=
  exists names, (length names <= bound)%nat /\ event_path e = Some (descend root names).

(** The directory of Scenario 3. *)
Definition weird_tessdata : PurePath := mkPath "/" ["opt"; "weird"; "tessdata"].

(** ** Order and outcomes *)

(** [x] comes before [y] in [l]. *)
Definition before {A} (x y : A) (l : list A) : Prop :=
  exists l1 l2 l3, l = l1 ++ x :: l2 ++ y :: l3.

Definition score_le {A} (key : A -> Z * string) (a b : A) : Prop :=
  (fst (key a) <= fst (key b))%Z.

(** The outcomes of a run of [find_all_tessdata_paths] in the model: a
    list, or one of the two exceptions the model raises outside every
    [try] of the method. *)
Definition public_outcome {A} (f : TessdataFinder) (r : result A) : Prop :=
  match r with
  | Ok _ => True
  | Raise e => e = FuturesTimeoutError \/ (e = ValueError /\ (max_workers f <= 0)%Z)
  | OutOfFuel => False
  end.

(** Every path in the list is a fixed point of [posixpath.normpath]. *)
Definition all_normal (paths : list string) : Prop :=
  Forall (fun p => posixpath.normpath p = p) paths.

Definition normal_result (r : result (list string)) : Prop :=
  match r with Ok paths => all_normal paths | _ => True end.

(** ** What the crawl may log *)

Section Vocabulary.

Context {fl : PathFlavour} (w : World).

(** The directory [path] names exists and lists an entry whose suffix
    is [.traineddata]. *)
Definition holds_traineddata (path : string) : Prop :=
  fs_is_dir w (str (Path path)) = IoOk true /\
  exists names, fs_iterdir w (str (Path path)) = IoOk names /\
    exists name, In name names /\
      path_suffix (path_child (Path path) name) = ".traineddata".

(** What a call of [_recursive_search] on [p] at depth [depth] may add
    to the log. *)
Definition crawl_event (max_depth : nat) (p : PurePath) (depth : nat) (e : event)
  : Prop :=
  exists names q,
    reaches p names q /\ (depth + length names <= max_depth)%nat /\
    match e with
    | EvProbe _ => False
    | EvVisit q' => q' = q
    | EvList q' => q' = q /\ _should_search_directory q = true
    | EvFound q' a =>
        q' = q /\ path_name q = "tessdata" /\
        holds_traineddata (str q) /\ fs_resolve w (str q) = Returns a
    end.

(** The outcomes of a call: it returns, or lets through an exception
    that is not an [OSError]; it runs out of recursion allowance only
    when it was given less than the depth bound asks for. *)
Definition crawl_post (max_depth : nat) (p : PurePath) (depth fuel : nat) (st : state)
    (r : result unit) (st' : state) : Prop :=
  extends (crawl_event max_depth p depth) st st' /\
  match r with
  | Ok _ => True
  | Raise e => is_OSError e = false
  | OutOfFuel => (fuel + depth < max_depth + 2 \/ max_depth + 1 < depth)%nat
  end.

(** The events of the crawl probe of finder [f]. *)
Definition smart_event (f : TessdataFinder) (e : event) : Prop :=
  e = EvProbe "_search_filesystem_smart" \/
  exists root, In root (_get_search_roots w f) /\
               crawl_event (max_depth_of f) (Path root) 0 e.

(** What the crawl probe leaves: the finder object and the clock
    untouched, a log grown by crawl events of the search roots, and, if
    it returns, paths that were all recorded by those events.  It may
    raise ([ValueError] from the pool, the timeout of [as_completed]);
    it never uses up the recursion allowance. *)
Definition smart_post (st : state) (r : result (list string)) (st' : state) : Prop :=
  self st' = self st /\ clock st' = clock st /\
  exists l, events st' = events st ++ l /\ Forall (smart_event (self st)) l /\
    match r with
    | Ok paths => recorded_in l paths
    | Raise _ => True
    | OutOfFuel => False
    end.

(** The list [unique_paths] the loop of [_prioritize_paths] builds. *)
Definition unique_paths_of (paths : list string) : list string :=
  snd (fold_left dedup_step paths (∅, [])).

End Vocabulary.

(** ** Normal forms of [posixpath.normpath] *)

Module posixpath_forms.

Import posixpath.

(** A component with no separator in it: splitting leaves it whole. *)
Definition slash_free (s : string) : Prop := PyStr.split sep s = [s].

(** A component [normpath] keeps. *)
Definition good (c : string) : Prop := c <> "" /\ c <> "." /\ slash_free c.

(** The lists [normpath] can build: [..] only in front, and only when
    the path has no initial slash. *)
Inductive normal (slashes : nat) : list string -> Prop :=
| normal_nil : normal slashes []
| normal_snoc acc c :
    normal slashes acc -> good c ->
    (c = ".." -> slashes = 0%nat /\ (acc = [] \/ List.last acc "" = "..")) ->
    normal slashes (acc ++ [c]).

Definition render_comps (slashes : nat) (comps : list string) : string :=
  let path := PyStr.repeat_char sep slashes +:+ PyStr.join "/" comps in
  if (path =? "")%string then "." else path.

End posixpath_forms.

(** * Concrete machines *)

Module Scenarios.

(** A Linux machine given by its environment, its directories (path to
    entry names), the clock of the caller and of the tier-2 workers, the
    clock of each crawl, and the two schedulers.  Every path that is not
    a listed directory does not exist; nothing is a symbolic link;
    [resolve] finds every path already resolved; no [tesseract] binary
    answers and there is no registry. *)
Definition home_expand (s : string) : string :=
  match s with
  | String "~" rest => "/home/user" +:+ rest
  | _ => s
  end.

Definition machine (env : gmap string string) (dirs : gmap string (list string))
    (time : nat -> Q) (crawl_time : nat -> nat -> Q) (tier2 crawl : list nat)
  : World := {|
  platform_system := "Linux";
  environ := fun var => env !! var;
  getcwd := IoOk "/home/user";
  expanduser := home_expand;
  expandvars := fun s => s;
  fs_exists := fun p => bool_decide (is_Some (dirs !! p));
  fs_is_dir := fun p => IoOk (bool_decide (is_Some (dirs !! p)));
  fs_is_symlink := fun _ => IoOk false;
  fs_iterdir := fun p =>
    match dirs !! p with
    | Some names => IoOk names
    | None => IoErr FileNotFoundError
    end;
  fs_resolve := fun p => Returns p;
  binary_info := Returns [];
  winreg := false;
  registry_info := Returns [];
  time_main := time;
  time_worker := fun _ => time;
  time_crawl := crawl_time;
  tier2_done := fun _ => tier2;
  crawl_done := fun _ => crawl;
|}.

(** A clock that advances a millisecond between two readings. *)
Definition ticking (n : nat) : Q := 1000 + inject_Z (Z.of_nat n) / 1000.

(** A clock with a resolution of 1/64 s, read faster than it advances:
    64 successive readings give the same value. *)
Definition coarse (n : nat) : Q := 1000 + inject_Z (Z.of_nat (n / 64)) / 64.

(** Scenario 1: [TESSDATA_PREFIX=/data/ocr], and [/data/ocr/tessdata]
    holds [eng.traineddata]. *)
Definition prefix_env : gmap string string := {[ "TESSDATA_PREFIX" := "/data/ocr" ]}.

Definition prefix_dirs : gmap string (list string) :=
  list_to_map
    [("/data", ["ocr"]);
     ("/data/ocr", ["tessdata"]);
     ("/data/ocr/tessdata", ["eng.traineddata"])].

(** The same machine with a distribution package installed as well. *)
Definition packaged_dirs : gmap string (list string) :=
  list_to_map
    [("/data", ["ocr"]);
     ("/data/ocr", ["tessdata"]);
     ("/data/ocr/tessdata", ["eng.traineddata"]);
     ("/usr", ["share"]);
     ("/usr/share", ["tessdata"]);
     ("/usr/share/tessdata", ["eng.traineddata"; "osd.traineddata"])].

(** Scenario 3 and its neighbour: [/opt/weird/tessdata] and
    [/opt/tessdata], both with trained data. *)
Definition opt_dirs : gmap string (list string) :=
  list_to_map
    [("/opt", ["weird"; "tessdata"]);
     ("/opt/weird", ["tessdata"]);
     ("/opt/weird/tessdata", ["eng.traineddata"]);
     ("/opt/tessdata", ["eng.traineddata"])].

Definition all_done : list nat := [0; 1; 2]%nat.

Definition scenario1 : World :=
  machine prefix_env prefix_dirs ticking (fun _ => ticking) all_done all_done.
Definition packaged : World :=
  machine prefix_env packaged_dirs ticking (fun _ => ticking) all_done all_done.
Definition scenario3 : World :=
  machine ∅ opt_dirs ticking (fun _ => ticking) all_done all_done.

(** A thread that blocks for thirty seconds after its first clock
    reading. *)
Definition stalled (n : nat) : Q :=
  if (n =? 0)%nat then ticking 5 else 30 + ticking n.

(** The listing of [/opt] blocks for thirty seconds (a stalled mount).
    The crawls of [/usr] and [/usr/local] complete inside the window of
    the inner [as_completed], the crawl of [/opt] does not; so the crawl
    probe is still running when the window of the outer [as_completed]
    closes, and of the two tier-2 futures only the first, the no-op that
    stands for the registry probe off Windows, completes inside it. *)
Definition slow_crawl : World :=
  machine ∅ opt_dirs ticking
    (fun root => if (root =? 2)%nat then stalled else ticking)
    [0%nat] [0%nat; 1%nat].

(** A machine with the environment variable of Scenario 1 and the
    [/opt] tree of Scenario 3, read through the coarse clock. *)
Definition coarse_dirs : gmap string (list string) :=
  list_to_map
    [("/data", ["ocr"]);
     ("/data/ocr", ["tessdata"]);
     ("/data/ocr/tessdata", ["eng.traineddata"]);
     ("/opt", ["weird"; "tessdata"]);
     ("/opt/weird", ["tessdata"]);
     ("/opt/weird/tessdata", ["eng.traineddata"]);
     ("/opt/tessdata", ["eng.traineddata"])].

Definition coarse_clock : World :=
  machine prefix_env coarse_dirs coarse (fun _ => coarse) all_done all_done.

End Scenarios.

(** * Vocabulary of the further properties *)

(** ** Order *)

(** The order [sorted] puts a list in: the keys are in Python's tuple
    order. *)
Definition key_ord {A} (key : A -> Z * string) (a b : A) : Prop :=
  key_le (key a) (key b) = true.


(** ** Names *)

(** [s.isascii()].  On such a string the characters of the model are
    the characters of Python: [String.length] is [len] and [PyStr.lower]
    is [str.lower]. *)
Definition isascii (s : string) : bool :=
  forallb (fun c => (nat_of_ascii c <? 128)%nat) (list_ascii_of_string s).


(** ** Probes *)

Section ProbeVocabulary.

Context {fl : PathFlavour} (w : World).

(** [a] is what [os.path.abspath] returns for [path]. *)
Definition abspath_of (path a : string) : Prop :=
  if os_path_isabs path then a = os_path_normpath path
  else exists cwd, getcwd w = IoOk cwd /\ a = os_path_normpath (os_path_join cwd path).

(** The candidate the environment probe settles on for the variable
    [var]: its value when that is a tessdata directory, else the
    [tessdata] child of the value when that is one. *)
Definition env_candidate (var candidate : string) : Prop :=
  exists value,
    environ w var = Some value /\ value <> "" /\
    ((candidate = value /\ holds_traineddata w value) \/
     (candidate = os_path_join value "tessdata" /\
      ~ holds_traineddata w value /\ holds_traineddata w candidate)).

(** [a] was recorded by the crawl of a search root of [f]: it is the
    resolved path of a directory named [tessdata] that holds trained
    data and lies at most [max_depth] levels below the root, through
    directories the pruning rule accepts. *)
Definition crawl_hit_below (f : TessdataFinder) (root a : string) : Prop :=
  exists names q,
    reaches (Path root) names q /\ (length names <= max_depth_of f)%nat /\
    path_name q = "tessdata" /\ holds_traineddata w (str q) /\
    fs_resolve w (str q) = Returns a.

Definition crawl_hit (f : TessdataFinder) (a : string) : Prop :=
  exists root, In root (_get_search_roots w f) /\ crawl_hit_below f root a.

(** [q] lies below [p] along entry names each of which the listing of
    its parent reported, as a directory that is not a symbolic link; and
    no directory on the way down, [q] excepted, is itself a [tessdata]
    directory with trained data. *)
Fixpoint walks (p : PurePath) (names : list string) (q : PurePath) : Prop :=
  match names with
  | [] => q = p
  | name :: rest =>
      (exists entries, fs_iterdir w (str p) = IoOk entries /\ In name entries) /\
      fs_is_dir w (str (path_child p name)) = IoOk true /\
      fs_is_symlink w (str (path_child p name)) = IoOk false /\
      ~ (path_name p = "tessdata" /\ holds_traineddata w (str p)) /\
      walks (path_child p name) rest q
  end.

(** The event is about a directory the crawl walked to from [p]. *)
Definition walk_event (p : PurePath) (e : event) : Prop :=
  exists names q, event_path e = Some q /\ walks p names q.

(** What the environment probe has done once it has gone through the
    variables [done] and holds [paths]. *)
Definition env_inv (done paths : list string) : Prop :=
  (length paths <= length done)%nat /\
  Forall (fun a => exists var c, In var done /\ env_candidate var c /\ abspath_of c a)
         paths /\
  (forall var c, In var done -> env_candidate var c ->
                 exists a, abspath_of c a /\ In a paths).

Definition env_post (st : state) (r : result (list string)) (st' : state) : Prop :=
  st' = add_events [EvProbe "_check_environment_vars"] st /\
  match r with
  | Ok paths => env_inv env_vars paths
  | Raise e => exists os, e = OSError os /\ getcwd w = IoErr os
  | OutOfFuel => False
  end.

(** The candidates of the common-location probe of finder [f]. *)
Definition common_hit (f : TessdataFinder) (a : string) : Prop :=
  exists template,
    In template (_get_common_tessdata_paths f) /\
    let expanded := expandvars w (expanduser w template) in
    os_path_isdir w expanded = true /\ holds_traineddata w expanded /\
    abspath_of expanded a.

Definition common_post (st : state) (r : result (list string)) (st' : state) : Prop :=
  self st' = self st /\ clock st' = clock st /\ found st' = found st /\
  events st' = events st ++ [EvProbe "_check_common_locations"] /\
  exists paths,
    r = Ok paths /\
    (length paths <= length (_get_common_tessdata_paths (self st)))%nat /\
    Forall (common_hit (self st)) paths.

End ProbeVocabulary.


(** ** The pipeline *)

Section PipelineVocabulary.

Context {fl : PathFlavour} (w : World).

(** Where a raw path of a search of finder [f] can come from: the
    absolute form of a candidate that holds trained data (environment
    and common-location probes), a directory the crawl recorded, or
    what the binary probe or the registry lookups delivered. *)
Definition origin (f : TessdataFinder) (p : string) : Prop :=
  (exists c, holds_traineddata w c /\ abspath_of w c p) \/
  crawl_hit w f p \/
  (exists l, binary_info w = Returns l /\ In p l) \/
  (os_type f = "windows" /\ winreg w = true /\
   exists l, registry_info w = Returns l /\ In p l).

(** What every probe method keeps to: it leaves the finder object and
    the clock alone, and the paths it returns have an origin. *)
Definition probe_post (st : state) (r : result (list string)) (st' : state) : Prop :=
  self st' = self st /\ clock st' = clock st /\
  match r with
  | Ok paths => Forall (origin (self st)) paths
  | Raise _ => True
  | OutOfFuel => False
  end.

Definition good_probe (verbose : bool) (m : bool -> M (list string)) : Prop :=
  forall st, wp (m verbose) (probe_post st) st.

(** The budget of the search entered in state [st] is never used up on
    the caller's thread. *)
Definition budget_holds (st : state) : Prop :=
  (0 <= timeout (self st))%Q /\
  forall n, (clock st n - clock st (ticks st) <= timeout (self st))%Q.

(** What [find_all_tessdata_paths], entered in state [st], leaves
    behind. *)
Definition find_all_post (st : state) (r : result (list string)) (st' : state) : Prop :=
  clock st' = clock st /\
  self st' = set_found_paths (found_paths (self st'))
               (set_start_time (Some (clock st (ticks st))) (self st)) /\
  (forall p, p ∈ found_paths (self st') -> origin (self st) p) /\
  match r with
  | Ok paths => paths = _prioritize_paths (elements (found_paths (self st')))
  | _ => True
  end /\
  (budget_holds st -> (max_workers (self st) <= 0)%Z -> r = Raise ValueError).

End PipelineVocabulary.

Module MoreScenarios.

(** A clock that never gets past one second after its first reading. *)
Definition slowing (n : nat) : Q := 1001 - 1 / inject_Z (Z.of_nat (S n)).

Definition steady : World :=
  Scenarios.machine Scenarios.prefix_env Scenarios.packaged_dirs slowing
    (fun _ => slowing) Scenarios.all_done Scenarios.all_done.

End MoreScenarios.


(** * The binary and registry probes in detail *)

(** ** More of Python's strings and paths *)

Module PyText.

(** [c.isspace()] on one ASCII character: tab to carriage return, the
    four separators [0x1c] to [0x1f], and the space. *)
Definition isspace (c : ascii) : bool :=
  let n := nat_of_ascii c in
  ((9 <=? n) && (n <=? 13) || (28 <=? n) && (n <=? 32))%nat.

(** [s.split()]: the maximal runs of characters that are not
    whitespace. *)
Fixpoint split_whitespace (s : string) : list string :=
  match s with
  | EmptyString => []
  | String c rest =>
      let words := split_whitespace rest in
      if isspace c then words
      else match rest with
           | EmptyString => [String c EmptyString]
           | String c' _ =>
               if isspace c' then String c EmptyString :: words
               else match words with
                    | word :: words' => String c word :: words'
                    | [] => [String c EmptyString]
                    end
           end
  end.

Definition newline : ascii := ascii_of_nat 10.

End PyText.

(** [p.parent]: the path without its last part; a path with no part is
    its own parent. *)
Definition path_parent (p : PurePath) : PurePath :=
  mkPath (anchor p) (removelast (parts p)).

(** [p / s] for a string [s]: the parts of [s] are appended, unless [s]
    is anchored, in which case it replaces [p]. *)
Definition path_join {fl : PathFlavour} (p : PurePath) (s : string) : PurePath :=
  let q := Path s in
  if (anchor q =? "")%string then mkPath (anchor p) (parts p ++ parts q) else q.

(** ** The binary probe *)

(** What the binary probe asks of the machine besides the filesystem
    calls of the world: [shutil.which], [os.path.isfile],
    [os.access(p, os.X_OK)], the separator of [PATH], and the standard
    output of [tesseract --print-parameters] run through
    [subprocess.run] (or the exception that call raises). *)
Record Shell : Type := mkShell {
  which : string -> option string;
  fs_isfile : string -> bool;
  access_x : string -> bool;
  os_pathsep : ascii;
  run_print_parameters : string -> outcome string;
}.

(** [subprocess.TimeoutExpired] *)
Definition TimeoutExpired : exn := OtherException "subprocess.TimeoutExpired".

(** [except (subprocess.TimeoutExpired, FileNotFoundError, OSError)] *)
Definition is_run_failure (e : exn) : bool :=
  match e with
  | OSError _ => true
  | OtherException name => (name =? "subprocess.TimeoutExpired")%string
  | _ => false
  end.

Module Binary.

Section Probe.

Context {fl : PathFlavour} (w : World) (sh : Shell).

Definition binary_names : list string := ["tesseract"; "tesseract.exe"].

Definition _get_common_binary_paths (f : TessdataFinder) : list string :=
  if (os_type f =? "windows")%string then
    ["C:/Program Files/Tesseract-OCR/tesseract.exe";
     "C:/Program Files (x86)/Tesseract-OCR/tesseract.exe";
     "C:/tools/tesseract/tesseract.exe"]
  else
    ["/usr/bin/tesseract";
     "/usr/local/bin/tesseract";
     "/opt/tesseract/bin/tesseract"].

Definition _get_relative_tessdata_paths (f : TessdataFinder) : list string :=
  if (os_type f =? "windows")%string then
    ["tessdata";
     "../tessdata";
     "../../tessdata";
     "../share/tessdata";
     "../share/tesseract-ocr/tessdata"]
  else
    ["../share/tesseract-ocr/tessdata";
     "../share/tesseract/tessdata";
     "../share/tessdata";
     "../../share/tesseract-ocr/tessdata";
     "../../share/tesseract/tessdata";
     "../tessdata";
     "tessdata"].

(** [x in l] *)
Definition mem (x : string) (l : list string) : bool := existsb (String.eqb x) l.

Definition _find_tesseract_binaries (f : TessdataFinder) : list string :=
  let binaries := [] in
  (* Method 1: shutil.which *)
  let binaries :=
    fold_left (fun binaries name =>
                 match which sh name with
                 | Some binary =>
                     if negb (binary =? "")%string && negb (mem binary binaries)
                     then binaries ++ [binary] else binaries
                 | None => binaries
                 end)
              binary_names binaries in
  (* Method 2: the directories of PATH *)
  let path_env := match environ w "PATH" with Some v => v | None => "" end in
  let binaries :=
    fold_left (fun binaries path_dir =>
                 if (path_dir =? "")%string then binaries
                 else
                   fold_left (fun binaries name =>
                                let binary_path := os_path_join path_dir name in
                                if fs_isfile sh binary_path && access_x sh binary_path
                                   && negb (mem binary_path binaries)
                                then binaries ++ [binary_path] else binaries)
                             binary_names binaries)
              (PyStr.split (os_pathsep sh) path_env) binaries in
  (* Method 3: common locations *)
  let binaries :=
    fold_left (fun binaries path =>
                 let expanded := expandvars w (expanduser w path) in
                 if fs_isfile sh expanded && access_x sh expanded
                    && negb (mem expanded binaries)
                 then binaries ++ [expanded] else binaries)
              (_get_common_binary_paths f) binaries in
  binaries.

(** [paths.append(p)].  The list local [paths] of the probe is kept in
    the list slot of the thread state: it is appended to in place, so
    what was appended before an exception is caught stays. *)
Definition paths_append (p : string) : M unit :=
  modify (fun st => set_found (found st ++ [p]) st).

Definition _check_tesseract_binary_info (verbose : bool) : M (list string) :=
  modify (set_found []) ;;;
  st <- get ;;
  let binaries := _find_tesseract_binaries (self st) in
  for_in binaries (ret tt) tt (fun _ binary =>
    expired <- _is_timeout ;;
    if expired then ret (Break tt)
    else
      (* Method 1: ask tesseract *)
      try_except
        (stdout <- lift (of_outcome (run_print_parameters sh binary)) ;;
         for_in (PyStr.split PyText.newline stdout) (ret tt) tt (fun _ line =>
           if PyStr.contains "tessdata" (PyStr.lower line) then
             for_in (PyText.split_whitespace line) (ret tt) tt (fun _ word =>
               if PyStr.contains "tessdata" word && os_path_isdir w word then
                 valid <- _is_valid_tessdata_dir w word ;;
                 if valid then
                   abs_path <- abspath w word ;;
                   paths_append abs_path ;;;
                   ret (Continue tt)
                 else ret (Continue tt)
               else ret (Continue tt)) ;;;
             ret (Continue tt)
           else ret (Continue tt)))
        is_run_failure
        (ret tt) ;;;
      (* Method 2: relative to the binary *)
      try_except
        (resolved <- lift (of_outcome (fs_resolve w (str (path_parent (Path binary))))) ;;
         let bin_dir := Path resolved in
         st <- get ;;
         let relative_paths := _get_relative_tessdata_paths (self st) in
         for_in relative_paths (ret tt) tt (fun _ rel_path =>
           let candidate := path_join bin_dir rel_path in
           is_dir <- io_call (fs_is_dir w (str candidate)) ;;
           valid <- (if is_dir then _is_valid_tessdata_dir w (str candidate)
                     else ret false) ;;
           if is_dir && valid then
             abs_path <- lift (of_outcome (fs_resolve w (str candidate))) ;;
             st <- get ;;
             if negb (mem abs_path (found st)) then
               paths_append abs_path ;;;
               ret (Continue tt)
             else ret (Continue tt)
           else ret (Continue tt)))
        is_Exception
        (ret tt) ;;;
      ret (Continue tt)) ;;;
  st <- get ;;
  ret (found st).

(** A binary the probe may run: a hit of [shutil.which], or an
    executable file in a directory of [PATH] or at a common place. *)
Definition binary_found (f : TessdataFinder) (binary : string) : Prop :=
  (exists name, In name binary_names /\ which sh name = Some binary) \/
  (fs_isfile sh binary = true /\ access_x sh binary = true /\
   ((exists path_dir name,
        path_dir <> "" /\ In name binary_names /\
        In path_dir (PyStr.split (os_pathsep sh)
                       match environ w "PATH" with Some v => v | None => "" end) /\
        binary = os_path_join path_dir name) \/
    (exists path, In path (_get_common_binary_paths f) /\
                  binary = expandvars w (expanduser w path)))).

(** A path the probe may deliver for [binary]: the absolute form of a
    word of the output of the binary that contains [tessdata] and names
    a directory with trained data, or the resolved form of such a
    directory at one of the places relative to the directory of the
    binary. *)
Definition binary_hit (f : TessdataFinder) (binary a : string) : Prop :=
  (exists stdout line word,
      run_print_parameters sh binary = Returns stdout /\
      In line (PyStr.split PyText.newline stdout) /\
      In word (PyText.split_whitespace line) /\
      PyStr.contains "tessdata" word = true /\
      holds_traineddata w word /\
      abspath_of w word a) \/
  (exists resolved rel_path,
      fs_resolve w (str (path_parent (Path binary))) = Returns resolved /\
      In rel_path (_get_relative_tessdata_paths f) /\
      let candidate := path_join (Path resolved) rel_path in
      holds_traineddata w (str candidate) /\
      fs_resolve w (str candidate) = Returns a).

Definition binary_post (st : state) (r : result (list string)) (st' : state) : Prop :=
  self st' = self st /\ clock st' = clock st /\ events st' = events st /\
  match r with
  | Ok paths =>
      Forall (fun a => exists binary,
                  In binary (_find_tesseract_binaries (self st)) /\
                  binary_hit (self st) binary a) paths
  | Raise e =>
      exists binary,
        In binary (_find_tesseract_binaries (self st)) /\
        run_print_parameters sh binary = Raises e /\ is_run_failure e = false
  | OutOfFuel => False
  end.

End Probe.

End Binary.

(** ** A machine with a tesseract package *)

Module ShellScenarios.

Definition installed_dirs : gmap string (list string) :=
  list_to_map
    [("/usr", ["bin"; "share"]);
     ("/usr/bin", ["tesseract"]);
     ("/usr/share", ["tesseract-ocr"]);
     ("/usr/share/tesseract-ocr", ["tessdata"]);
     ("/usr/share/tesseract-ocr/tessdata", ["eng.traineddata"; "osd.traineddata"])].

Definition path_env : gmap string string := {[ "PATH" := "/usr/local/bin:/usr/bin:" ]}.

(** The filesystem answers for a path as for its normal form, and
    [resolve] gives the normal form. *)
Definition installed : World :=
  let base := Scenarios.machine path_env installed_dirs Scenarios.ticking
                (fun _ => Scenarios.ticking) Scenarios.all_done Scenarios.all_done in
  {|
    platform_system := platform_system base;
    environ := environ base;
    getcwd := getcwd base;
    expanduser := expanduser base;
    expandvars := expandvars base;
    fs_exists := fun p => fs_exists base (posixpath.normpath p);
    fs_is_dir := fun p => fs_is_dir base (posixpath.normpath p);
    fs_is_symlink := fs_is_symlink base;
    fs_iterdir := fun p => fs_iterdir base (posixpath.normpath p);
    fs_resolve := fun p => Returns (posixpath.normpath p);
    binary_info := binary_info base;
    winreg := winreg base;
    registry_info := registry_info base;
    time_main := time_main base;
    time_worker := time_worker base;
    time_crawl := time_crawl base;
    tier2_done := tier2_done base;
    crawl_done := crawl_done base;
  |}.

(** The output of the binary: two lines, the second naming the data
    directory. *)
Definition parameters : string :=
  "textord_debug_tabfind 0" +:+ String PyText.newline
    ("tessdata at /usr/share/tesseract-ocr/tessdata" +:+ String PyText.newline "").

Definition shell : Shell := {|
  which := fun name =>
    if (name =? "tesseract")%string then Some "/usr/bin/tesseract" else None;
  fs_isfile := fun p => (p =? "/usr/bin/tesseract")%string;
  access_x := fun p => (p =? "/usr/bin/tesseract")%string;
  os_pathsep := ":"%char;
  run_print_parameters := fun _ => Returns parameters;
|}.

End ShellScenarios.

(** ** The registry probe *)

Inductive hive : Type :=
| HKEY_LOCAL_MACHINE
| HKEY_CURRENT_USER.

(** The data of a registry value as [winreg.QueryValueEx] hands it
    over: a string for [REG_SZ] and [REG_EXPAND_SZ], an object of
    another type ([int], [bytes], a list, [None]) otherwise. *)
Inductive reg_value : Type :=
| RegStr (s : string)
| RegOther.

(** [winreg.OpenKey(hkey, subkey)] followed by
    [winreg.QueryValueEx(key, "InstallPath")]: the data of the value,
    or the exception one of the two calls raises. *)
Record Registry : Type := mkRegistry {
  query_install_path : hive -> string -> outcome reg_value;
}.

(** [TypeError], which [os.path.join] raises for an argument that is
    not a string. *)
Definition TypeError : exn := OtherException "TypeError".

Module Winreg.

Section Probe.

Context {fl : PathFlavour} (w : World) (reg : Registry).

Definition registry_locations : list (hive * string) :=
  [(HKEY_LOCAL_MACHINE, "SOFTWARE\Tesseract-OCR");
   (HKEY_LOCAL_MACHINE, "SOFTWARE\WOW6432Node\Tesseract-OCR");
   (HKEY_CURRENT_USER, "SOFTWARE\Tesseract-OCR")].

Definition _check_registry_windows (verbose : bool) : M (list string) :=
  st <- get ;;
  if negb (winreg w) || negb (os_type (self st) =? "windows")%string then ret []
  else
    for_in registry_locations (ret tt) [] (fun paths '(hkey, subkey) =>
      try_except
        (install_path <- lift (of_outcome (query_install_path reg hkey subkey)) ;;
         tessdata_path <- match install_path with
                          | RegStr install_path => ret (os_path_join install_path "tessdata")
                          | RegOther => raise TypeError
                          end ;;
         valid <- _is_valid_tessdata_dir w tessdata_path ;;
         if valid then
           abs_path <- abspath w tessdata_path ;;
           ret (Continue (paths ++ [abs_path]))
         else ret (Continue paths))
        is_OSError
        (ret (Continue paths))).

(** The path the probe owes for a registry location: the absolute form
    of the [tessdata] child of its [InstallPath] string, when that
    child holds trained data. *)
Definition location_hit (location : hive * string) (a : string) : Prop :=
  exists install_path,
    query_install_path reg (fst location) (snd location) = Returns (RegStr install_path) /\
    holds_traineddata w (os_path_join install_path "tessdata") /\
    abspath_of w (os_path_join install_path "tessdata") a.

Definition registry_hit (a : string) : Prop :=
  exists location, In location registry_locations /\ location_hit location a.

(** The lookup of a location lets the exception [e] through: one of its
    two calls raises [e] and [e] is no [OSError], or the value is no
    string and [os.path.join] raises [TypeError]. *)
Definition escapes (location : hive * string) (e : exn) : Prop :=
  (query_install_path reg (fst location) (snd location) = Raises e /\
   is_OSError e = false) \/
  (query_install_path reg (fst location) (snd location) = Returns RegOther /\
   e = TypeError).

(** What the probe, entered in state [st], leaves behind. *)
Definition registry_post (st : state) (r : result (list string)) (st' : state) : Prop :=
  st' = st /\
  match r with
  | Ok paths =>
      if winreg w && (os_type (self st) =? "windows")%string then
        (length paths <= 3)%nat /\
        (forall a, In a paths <-> registry_hit a) /\
        (forall location e, In location registry_locations -> ~ escapes location e)
      else paths = []
  | Raise e =>
      winreg w = true /\ os_type (self st) = "windows" /\
      exists done location rest,
        registry_locations = done ++ location :: rest /\
        escapes location e /\
        (forall location' e', In location' done -> ~ escapes location' e')
  | OutOfFuel => False
  end.

End Probe.

End Winreg.


(** ** Postconditions *)

(** A postcondition of the usual shape: [I] of the state when the
    computation returns, [E] of the exception and the state when it
    raises; the recursion allowance is not used up. *)
Definition outcome_post {A} (I : state -> Prop) (E : exn -> state -> Prop)
  : result A -> state -> Prop :=
  fun r st =>
    match r with
    | Ok _ => I st
    | Raise e => E e st
    | OutOfFuel => False
    end.


(** ** A filesystem that raises nothing *)

(** A filesystem on which [is_dir], [is_symlink] and [resolve] raise
    nothing. *)
Definition quiet (w : World) : Prop :=
  (forall p e, fs_is_dir w p <> IoErr e) /\
  (forall p e, fs_is_symlink w p <> IoErr e) /\
  (forall p e, fs_resolve w p <> Raises e).

(** The budget of the thread in state [st] is never used up: no reading
    of its clock is more than the timeout after the start instant. *)
Definition never_expires (st : state) : Prop :=
  (0 <= timeout (self st))%Q /\
  forall s n, start_time (self st) = Some s ->
              (clock st n - s <= timeout (self st))%Q.


Section CompleteVocabulary.

Context {fl : PathFlavour} (w : World).

(** [a] is what the environment probe owes: the absolute form of the
    candidate of one of its variables. *)
Definition env_target (a : string) : Prop :=
  exists var c, In var env_vars /\ env_candidate w var c /\ abspath_of w c a.

(** [a] is what the common-location probe of finder [f] owes when its
    budget lasts. *)
Definition common_target (f : TessdataFinder) (a : string) : Prop :=
  exists template,
    In template (_get_common_tessdata_paths f) /\
    let expanded := expandvars w (expanduser w template) in
    os_path_isdir w expanded = true /\ holds_traineddata w expanded /\
    abspath_of w expanded a.

(** A probe that delivers [a] whenever it is run on a thread whose
    budget is never used up, by a finder of the platform of [f]. *)
Definition delivers (verbose : bool) (f : TessdataFinder) (a : string)
    (m : bool -> M (list string)) : Prop :=
  forall st, never_expires st -> os_type (self st) = os_type f ->
    exists paths, fst (m verbose st) = Ok paths /\ In a paths.

End CompleteVocabulary.


(** * Theorems *)

(** ** The model on small inputs *)

Example normpath_dotdot : posixpath.normpath "/usr//share/./x/../tessdata/" = "/usr/share/tessdata".
Proof. reflexivity. Qed.

Example normpath_two_slashes : posixpath.normpath "//a/../../b" = "//b".
Proof. reflexivity. Qed.

Example normpath_relative : posixpath.normpath "../a/../../b/." = "../../b".
Proof. reflexivity. Qed.

Example normpath_empty : posixpath.normpath "a/.." = ".".
Proof. reflexivity. Qed.

Example parse_usr : posixpath.parse "/usr" = mkPath "/" ["usr"].
Proof. reflexivity. Qed.

Example suffix_eng : path_suffix (posixpath.parse "/d/eng.traineddata") = ".traineddata".
Proof. reflexivity. Qed.

Example suffix_hidden : path_suffix (posixpath.parse "/d/.traineddata") = "".
Proof. reflexivity. Qed.

Example scenario3_valid st :
  fst (_is_valid_tessdata_dir (fl := posix) Scenarios.scenario3 "/opt/weird/tessdata" st)
  = Ok true.
Proof. vm_compute. reflexivity. Qed.

Example scenario3_found :
  fst (get_tessdata_paths (fl := posix) Scenarios.scenario3 false 10) = Ok ["/opt/tessdata"].
Proof. vm_compute. reflexivity. Qed.

Example scenario1_found :
  fst (get_tessdata_paths (fl := posix) Scenarios.scenario1 false 10)
  = Ok ["/data/ocr/tessdata"].
Proof. vm_compute. reflexivity. Qed.

Example prioritize_example :
  _prioritize_paths (fl := posix)
    ["/opt/x/tessdata"; "/usr/share/tessdata"; "/opt/x//tessdata/";
     "/usr/share/tesseract-ocr/4.00/tessdata"]
  = ["/usr/share/tesseract-ocr/4.00/tessdata"; "/usr/share/tessdata"; "/opt/x/tessdata"].
Proof. vm_compute. reflexivity. Qed.

Example should_search_usr : _should_search_directory (posixpath.parse "/usr") = false.
Proof. vm_compute. reflexivity. Qed.

Example should_search_opt : _should_search_directory (posixpath.parse "/opt") = true.
Proof. vm_compute. reflexivity. Qed.

(** * Reasoning about runs *)

Lemma wp_ret {A} (a : A) Q st : Q (Ok a) st -> wp (ret a) Q st.
Proof. exact (fun H => H). Qed.

Lemma wp_raise {A} e (Q : result A -> state -> Prop) st : Q (Raise e) st -> wp (raise e) Q st.
Proof. exact (fun H => H). Qed.

Lemma wp_lift {A} (r : result A) Q st : Q r st -> wp (lift r) Q st.
Proof. exact (fun H => H). Qed.

Lemma wp_get Q st : Q (Ok st) st -> wp get Q st.
Proof. exact (fun H => H). Qed.

Lemma wp_modify f Q st : Q (Ok tt) (f st) -> wp (modify f) Q st.
Proof. exact (fun H => H). Qed.

Lemma wp_log e Q st : Q (Ok tt) (add_events [e] st) -> wp (log e) Q st.
Proof. exact (fun H => H). Qed.

Lemma wp_time_time Q st :
  Q (Ok (clock st (ticks st))) (set_ticks (S (ticks st)) st) -> wp time_time Q st.
Proof. exact (fun H => H). Qed.

Lemma wp_bind {A B} (c : M A) (k : A -> M B) Q st :
  wp c (after k Q) st -> wp (bind c k) Q st.
Proof.
  unfold wp, after, bind. destruct (c st) as [[a | e |] st']; simpl; auto.
Qed.

Lemma wp_mono {A} (c : M A) (Q Q' : result A -> state -> Prop) st :
  (forall r st', Q r st' -> Q' r st') -> wp c Q st -> wp c Q' st.
Proof. unfold wp. auto. Qed.

Lemma wp_try_except {A} (c h : M A) (catches : exn -> bool) Q st :
  wp c (fun r st' =>
          match r with
          | Raise e => if catches e then wp h Q st' else Q (Raise e) st'
          | _ => Q r st'
          end) st ->
  wp (try_except c catches h) Q st.
Proof.
  unfold wp, try_except. destruct (c st) as [[a | e |] st']; simpl; auto.
  destruct (catches e); auto.
Qed.

(** The loop rule: [I rest acc] holds before the turn for the first
    element of [rest]. *)
Lemma wp_for_in {A B} (items : list A) at_end (body : B -> A -> M (ctl B))
    (I : list A -> B -> state -> Prop) Q acc st :
  (forall x rest acc st, I (x :: rest) acc st ->
     wp (body acc x)
        (fun r st' =>
           match r with
           | Ok (Continue acc') => I rest acc' st'
           | Ok (Break acc') => Q (Ok acc') st'
           | Raise e => Q (Raise e) st'
           | OutOfFuel => Q OutOfFuel st'
           end) st) ->
  (forall acc st, I [] acc st -> wp (at_end ;;; ret acc) Q st) ->
  I items acc st ->
  wp (for_in items at_end acc body) Q st.
Proof.
  intros Hbody Hend. revert acc st.
  induction items as [| x rest IH]; intros acc st HI; simpl.
  - apply Hend, HI.
  - apply wp_bind. eapply wp_mono; [| apply Hbody, HI].
    intros [[acc' | acc'] | e |] st' H; simpl; auto.
Qed.

(** ** The validator *)

Section ValidatorFacts.

Context {fl : PathFlavour} (w : World).

Lemma is_valid_run path st :
  exists b, _is_valid_tessdata_dir w path st = (Ok b, st) /\
            (b = true <-> holds_traineddata w path).
Proof.
  unfold _is_valid_tessdata_dir, holds_traineddata, try_except, bind, io_call, lift, ret.
  destruct (fs_is_dir w (str (Path path))) as [[|] | e] eqn:Hd; simpl.
  - destruct (fs_iterdir w (str (Path path))) as [names | e] eqn:Hl; simpl.
    + eexists. split; [reflexivity |].
      rewrite existsb_exists. split.
      * intros (f & Hin & Hs). apply in_map_iff in Hin as (name & <- & Hin).
        apply String.eqb_eq in Hs. split; [reflexivity |].
        exists names. split; [reflexivity |]. exists name. auto.
      * intros (_ & names' & Heq & name & Hin & Hs).
        injection Heq as <-. exists (path_child (Path path) name).
        split; [apply in_map, Hin | apply String.eqb_eq, Hs].
    + exists false. split; [reflexivity |].
      split; [discriminate |]. intros (_ & names & Heq & _). discriminate.
  - exists false. split; [reflexivity |].
    split; [discriminate |]. intros (Heq & _). discriminate.
  - exists false. split; [reflexivity |].
    split; [discriminate |]. intros (Heq & _). discriminate.
Qed.

Lemma wp_is_valid path Q st :
  (forall b, (b = true <-> holds_traineddata w path) -> Q (Ok b) st) ->
  wp (_is_valid_tessdata_dir w path) Q st.
Proof.
  intros H. unfold wp. destruct (is_valid_run path st) as (b & -> & Hb).
  apply H, Hb.
Qed.

End ValidatorFacts.

(** C3. For every path string, whichever way the filesystem answers,
    [_is_valid_tessdata_dir] returns a boolean, raises nothing and leaves
    the caller's state as it was; the boolean is [True] exactly when the
    path names an existing directory whose listing holds an entry with
    suffix [.traineddata].  An [OSError] from [is_dir] or from the listing
    gives [False]. *)
Theorem is_valid_tessdata_dir_iff :
  forall (fl : PathFlavour) (w : World) (path : string) (st : state),
    exists b : bool,
      _is_valid_tessdata_dir w path st = (Ok b, st) /\
      (b = true <-> holds_traineddata w path) /\
      (forall e, fs_is_dir w (str (Path path)) = IoErr e -> b = false) /\
      (forall e, fs_iterdir w (str (Path path)) = IoErr e -> b = false).
Proof.
  intros fl w path st.
  destruct (is_valid_run w path st) as (b & Hrun & Hb).
  exists b. split; [exact Hrun |]. split; [exact Hb |].
  split; intros e He; destruct b; try reflexivity;
    destruct (proj1 Hb eq_refl) as (Hd & names & Hl & _); congruence.
Qed.

(** ** Budget checks *)

Section BudgetFacts.

Lemma elapsed_run st :
  exists e st', _elapsed st = (Ok e, st') /\ same_but_ticks st st'.
Proof.
  unfold _elapsed, bind, get, time_time, ret, same_but_ticks.
  destruct (start_time (self st)) as [s |]; simpl.
  - destruct (Qeq_bool s 0); simpl; eexists _, _; (split; [reflexivity |]);
      simpl; repeat split; lia.
  - eexists _, _. split; [reflexivity |]. repeat split; lia.
Qed.

Lemma wp_elapsed Q st :
  (forall e st', same_but_ticks st st' -> Q (Ok e) st') -> wp _elapsed Q st.
Proof.
  intros H. unfold wp. destruct (elapsed_run st) as (e & st' & -> & Hs).
  apply H, Hs.
Qed.

Lemma wp_is_timeout Q st :
  (forall b st', same_but_ticks st st' -> Q (Ok b) st') -> wp _is_timeout Q st.
Proof.
  intros H. unfold _is_timeout. apply wp_bind, wp_elapsed.
  intros e st' Hs. simpl. apply wp_bind, wp_get. simpl. apply wp_ret, H, Hs.
Qed.

(** The value of a budget check once the start instant is set: the
    reading taken, less the start, against the timeout. *)
Lemma is_timeout_started st s :
  start_time (self st) = Some s -> Qeq_bool s 0 = false ->
  _is_timeout st =
    (Ok (negb (Qle_bool (clock st (ticks st) - s) (timeout (self st)))),
     set_ticks (S (ticks st)) st).
Proof.
  intros Hs Hz. unfold _is_timeout, _elapsed, bind, get, time_time, ret.
  simpl. rewrite Hs, Hz. reflexivity.
Qed.

(** Before any search has started ([start_time] unset or zero) the
    elapsed time reads as [0]. *)
Lemma is_timeout_unstarted st :
  match start_time (self st) with Some s => Qeq_bool s 0 = true | None => True end ->
  _is_timeout st = (Ok (negb (Qle_bool 0 (timeout (self st)))), st).
Proof.
  intros H. unfold _is_timeout, _elapsed, bind, get, time_time, ret. simpl.
  destruct (start_time (self st)) as [s |]; [rewrite H |]; reflexivity.
Qed.

End BudgetFacts.

(** ** The crawl *)

Lemma found_of_app l1 l2 : found_of (l1 ++ l2) = found_of l1 ++ found_of l2.
Proof. unfold found_of. apply omap_app. Qed.

Lemma extends_refl P st : extends P st st.
Proof.
  repeat split. exists []. rewrite !app_nil_r. auto.
Qed.

Lemma extends_trans P st1 st2 st3 :
  extends P st1 st2 -> extends P st2 st3 -> extends P st1 st3.
Proof.
  intros (Hs1 & Hc1 & l1 & He1 & Hp1 & Hf1) (Hs2 & Hc2 & l2 & He2 & Hp2 & Hf2).
  split; [congruence |]. split; [congruence |].
  exists (l1 ++ l2). rewrite He2, He1, Hf2, Hf1, found_of_app, <- !app_assoc.
  repeat split. apply Forall_app; auto.
Qed.

Lemma extends_weaken (P P' : event -> Prop) st st' :
  (forall e, P e -> P' e) -> extends P st st' -> extends P' st st'.
Proof.
  intros HP (Hs & Hc & l & He & Hp & Hf). repeat split; auto.
  exists l. repeat split; auto. eapply Forall_impl; eauto.
Qed.

Lemma extends_ticks P st st' : same_but_ticks st st' -> extends P st st'.
Proof.
  intros (Hs & Hc & Hf & He & _). repeat split; auto.
  exists []. rewrite !app_nil_r. auto.
Qed.

Lemma extends_log P e st :
  P e -> match e with EvFound _ _ => False | _ => True end ->
  extends P st (add_events [e] st).
Proof.
  intros HP Hne. repeat split. exists [e]. simpl. repeat split; auto.
  destruct e; simpl; try contradiction; now rewrite app_nil_r.
Qed.

Lemma extends_record P p a st :
  P (EvFound p a) ->
  extends P st (add_events [EvFound p a] (set_found (found st ++ [a]) st)).
Proof.
  intros HP. repeat split. exists [EvFound p a]. simpl. auto.
Qed.

Section CrawlFacts.

Context {fl : PathFlavour} (w : World) (verbose : bool) (max_depth : nat).

Lemma reaches_parts p names q :
  reaches p names q -> anchor q = anchor p /\ parts q = parts p ++ names.
Proof.
  revert p. induction names as [| name rest IH]; intros p H; simpl in H.
  - subst. now rewrite app_nil_r.
  - destruct H as [_ H]. apply IH in H as [Ha Hp]. simpl in *.
    rewrite <- app_assoc in Hp. auto.
Qed.

Lemma crawl_event_child p depth name e :
  _should_search_directory p = true ->
  crawl_event w max_depth (path_child p name) (S depth) e -> crawl_event w max_depth p depth e.
Proof.
  intros Hs (names & q & Hr & Hd & He).
  exists (name :: names), q. simpl. repeat split; auto. lia.
Qed.

(** A call stopped by its guard: nothing but clock readings. *)
Lemma recursive_search_guard fuel p depth st :
  (max_depth < depth)%nat ->
  _recursive_search w (S fuel) verbose max_depth p depth st = (Ok tt, st).
Proof.
  intros H. simpl. unfold bind.
  apply Nat.ltb_lt in H. rewrite H. reflexivity.
Qed.

Lemma recursive_search_spec fuel :
  forall p depth st,
    wp (_recursive_search w fuel verbose max_depth p depth)
       (crawl_post w max_depth p depth fuel st) st.
Proof.
  induction fuel as [| fuel IH]; intros p depth st.
  - split; [apply extends_refl | simpl; lia].
  - cbn [_recursive_search]. apply wp_bind.
    assert (Hstop : forall st1, same_but_ticks st st1 ->
              wp (ret tt) (crawl_post w max_depth p depth (S fuel) st) st1).
    { intros st1 H1. split; [apply extends_ticks, H1 | exact I]. }
    destruct (max_depth <? depth)%nat eqn:Hdepth.
    { apply wp_ret. simpl. apply Hstop. repeat split; auto. }
    apply Nat.ltb_ge in Hdepth.
    apply wp_is_timeout. intros expired st1 H1. simpl.
    destruct expired; [apply Hstop, H1 |].
    apply wp_bind, wp_log. simpl.
    assert (Hvisit : extends (crawl_event w max_depth p depth) st (add_events [EvVisit p] st1)).
    { eapply extends_trans; [apply extends_ticks, H1 |].
      apply extends_log; [| exact I].
      exists [], p. simpl. repeat split; auto. lia. }
    clear H1. revert Hvisit. generalize (add_events [EvVisit p] st1).
    clear st1. intros st1 H1.
    apply wp_try_except.
    (* what the [try] body owes: its own outcome, [OSError]s caught *)
    set (Q := fun (r : result unit) (st' : state) =>
                match r with
                | Raise e => if is_OSError e
                             then wp (ret tt) (crawl_post w max_depth p depth (S fuel) st) st'
                             else crawl_post w max_depth p depth (S fuel) st (Raise e) st'
                | _ => crawl_post w max_depth p depth (S fuel) st r st'
                end).
    assert (HQ : forall r st', extends (crawl_event w max_depth p depth) st st' ->
                   match r with
                   | OutOfFuel => False
                   | _ => True
                   end -> Q r st').
    { intros [[] | e |] st' He Hr; unfold Q; try contradiction.
      - split; [exact He | exact I].
      - destruct (is_OSError e) eqn:Hos; split; auto; exact I. }
    (* the branch that lists the directory *)
    assert (Hlist : forall st2, extends (crawl_event w max_depth p depth) st st2 ->
              wp (if _should_search_directory p
                  then
                    log (EvList p) ;;;
                    names <- io_call (fs_iterdir w (str p)) ;;
                    for_in names (ret tt) tt (fun _ name =>
                      let child := path_child p name in
                      is_dir <- io_call (fs_is_dir w (str child)) ;;
                      is_link <- (if is_dir
                                  then io_call (fs_is_symlink w (str child))
                                  else ret false) ;;
                      if is_dir && negb is_link then
                        _recursive_search w fuel verbose max_depth child (S depth) ;;;
                        ret (Continue tt)
                      else ret (Continue tt))
                  else ret tt) Q st2).
    { intros st2 H2. destruct (_should_search_directory p) eqn:Hsearch;
        [| apply wp_ret, HQ; auto].
      apply wp_bind, wp_log. simpl.
      assert (H3 : extends (crawl_event w max_depth p depth) st (add_events [EvList p] st2)).
      { eapply extends_trans; [exact H2 |]. apply extends_log; [| exact I].
        exists [], p. simpl. repeat split; auto. lia. }
      revert H3. generalize (add_events [EvList p] st2). clear st2 H2.
      intros st2 H2.
      apply wp_bind, wp_lift.
      destruct (fs_iterdir w (str p)) as [names | e]; simpl;
        [| apply (HQ (Raise (OSError e))); auto].
      apply wp_for_in with
        (I := fun _ _ st' => extends (crawl_event w max_depth p depth) st st'); [| | exact H2].
      - intros name rest [] st3 H3.
        apply wp_bind, wp_lift.
        destruct (fs_is_dir w (str (path_child p name))) as [is_dir | e]; simpl;
          [| apply (HQ (Raise (OSError e))); auto].
        apply wp_bind.
        destruct is_dir; simpl.
        + apply wp_lift.
          destruct (fs_is_symlink w (str (path_child p name))) as [is_link | e];
            simpl; [| apply (HQ (Raise (OSError e))); auto].
          destruct is_link; simpl; [apply wp_ret; exact H3 |].
          apply wp_bind. eapply wp_mono; [| apply IH].
          intros r st4 [H4 Hr].
          assert (H4' : extends (crawl_event w max_depth p depth) st st4).
          { eapply extends_trans; [exact H3 |].
            eapply extends_weaken; [| exact H4].
            intros e. apply crawl_event_child, Hsearch. }
          destruct r as [[] | e |]; simpl.
          * apply wp_ret. exact H4'.
          * unfold Q. rewrite Hr. split; auto.
          * unfold Q. split; [exact H4' | lia].
        + apply wp_ret. simpl. apply wp_ret. exact H3.
      - intros [] st3 H3. apply wp_bind, wp_ret. simpl. apply wp_ret.
        apply (HQ (Ok tt)); auto. }
    apply wp_bind.
    destruct (path_name p =? "tessdata")%string eqn:Hname.
    + apply wp_is_valid. intros hit Hhit. simpl.
      destruct hit; [| apply Hlist, H1].
      apply wp_bind, wp_lift.
      destruct (fs_resolve w (str p)) as [abs_path | e] eqn:Hres; simpl;
        [| apply (HQ (Raise e)); auto].
      apply wp_bind, wp_modify. simpl. apply wp_log.
      apply (HQ (Ok tt)); auto.
      eapply extends_trans; [exact H1 |]. apply extends_record.
      exists [], p. simpl. repeat split; try tauto; try lia.
      * apply String.eqb_eq, Hname.
      * apply Hhit. reflexivity.
      * apply Hhit. reflexivity.
    + apply wp_ret. simpl. apply Hlist, H1.
Qed.

End CrawlFacts.

(** ** Computations that agree state by state *)

Lemma bind_ext {A B} (c c' : M A) (k k' : A -> M B) st :
  c st = c' st -> (forall a st', k a st' = k' a st') -> bind c k st = bind c' k' st.
Proof.
  intros Hc Hk. unfold bind. rewrite Hc.
  destruct (c' st) as [[a | e |] st']; auto.
Qed.

Lemma try_except_ext {A} (c c' : M A) catches h st :
  c st = c' st -> try_except c catches h st = try_except c' catches h st.
Proof. intros Hc. unfold try_except. now rewrite Hc. Qed.

Lemma for_in_ext {A B} (items : list A) at_end (body body' : B -> A -> M (ctl B)) :
  (forall acc x st, body acc x st = body' acc x st) ->
  forall acc st, for_in items at_end acc body st = for_in items at_end acc body' st.
Proof.
  intros Hb. induction items as [| x rest IH]; intros acc st; simpl; [reflexivity |].
  apply bind_ext; [apply Hb |]. intros [acc' | acc'] st'; auto.
Qed.

Section CrawlTotal.

Context {fl : PathFlavour} (w : World) (verbose : bool) (max_depth : nat).

(** Any recursion allowance that covers the depth bound gives the same
    run. *)
Lemma recursive_search_fuel fuel1 :
  forall fuel2 p depth st,
    (max_depth + 2 <= fuel1 + depth)%nat -> (max_depth + 2 <= fuel2 + depth)%nat ->
    (depth <= max_depth + 1)%nat ->
    _recursive_search w fuel1 verbose max_depth p depth st
    = _recursive_search w fuel2 verbose max_depth p depth st.
Proof.
  induction fuel1 as [| fuel1 IH]; intros fuel2 p depth st H1 H2 Hd; [lia |].
  destruct fuel2 as [| fuel2]; [lia |].
  cbn [_recursive_search].
  destruct (max_depth <? depth)%nat eqn:Hguard; [reflexivity |].
  apply Nat.ltb_ge in Hguard.
  apply bind_ext; [reflexivity |]. intros stop st1.
  destruct stop; [reflexivity |].
  apply bind_ext; [reflexivity |]. intros _ st2.
  apply try_except_ext.
  apply bind_ext; [reflexivity |]. intros hit st3.
  destruct hit; [reflexivity |].
  destruct (_should_search_directory p); [| reflexivity].
  apply bind_ext; [reflexivity |]. intros _ st4.
  apply bind_ext; [reflexivity |]. intros names st5.
  apply for_in_ext. intros [] name st6.
  apply bind_ext; [reflexivity |]. intros is_dir st7.
  apply bind_ext; [reflexivity |]. intros is_link st8.
  destruct (is_dir && negb is_link); [| reflexivity].
  apply bind_ext; [| reflexivity].
  apply IH; lia.
Qed.

End CrawlTotal.

Section TreeFacts.

Context {fl : PathFlavour} (w : World) (verbose : bool).

(** What one crawl does, whatever the world: it returns its [found]
    list, and the log it leaves is made of crawl events of the root. *)
Lemma search_directory_tree_fuel_spec fuel root st :
  (max_depth_of (self st) + 2 <= fuel)%nat ->
  exists st',
    _search_directory_tree_fuel w fuel root verbose st = (Ok (found st'), st') /\
    self st' = self st /\ clock st' = clock st /\
    exists l, events st' = events st ++ l /\ found st' = found_of l /\
              Forall (crawl_event w (max_depth_of (self st)) (Path root) 0) l.
Proof.
  intros Hfuel. unfold _search_directory_tree_fuel.
  unfold bind at 1. cbn [modify fst snd].
  unfold bind at 1. cbn [get fst snd self set_found].
  pose proof (recursive_search_spec w verbose (max_depth_of (self st)) fuel
                (Path root) 0 (set_found [] st)) as H.
  unfold wp, crawl_post in H.
  unfold bind at 1, try_except.
  destruct (_recursive_search w fuel verbose (max_depth_of (self st)) (Path root) 0
              (set_found [] st)) as [r st'] eqn:Hrun.
  cbn [fst snd] in H. destruct H as [(Hs & Hc & l & He & Hp & Hf) Hr].
  destruct r as [[] | e |]; cbn [is_Exception ret]; try lia;
    (exists st'; split; [reflexivity |]; repeat split; auto;
     exists l; repeat split; auto).
Qed.

Lemma search_directory_tree_spec root st :
  exists st',
    _search_directory_tree w root verbose st = (Ok (found st'), st') /\
    self st' = self st /\ clock st' = clock st /\
    exists l, events st' = events st ++ l /\ found st' = found_of l /\
              Forall (crawl_event w (max_depth_of (self st)) (Path root) 0) l.
Proof.
  unfold _search_directory_tree. unfold bind at 1. cbn [get].
  apply search_directory_tree_fuel_spec. lia.
Qed.

Lemma search_directory_tree_any_fuel fuel root st :
  (max_depth_of (self st) + 2 <= fuel)%nat ->
  _search_directory_tree_fuel w fuel root verbose st
  = _search_directory_tree w root verbose st.
Proof.
  intros Hfuel.
  unfold _search_directory_tree, _search_directory_tree_fuel, bind, get, modify,
    try_except.
  cbn [fst snd self set_found].
  rewrite (recursive_search_fuel w verbose _ fuel (max_depth_of (self st) + 2)) by lia.
  reflexivity.
Qed.

End TreeFacts.

(** ** Depth of the crawl *)

Lemma reaches_descend p names q : reaches p names q -> q = descend p names.
Proof.
  revert p. induction names as [| name rest IH]; intros p H; simpl in *; [exact H |].
  apply IH, H.
Qed.

Lemma crawl_event_within {fl : PathFlavour} w max_depth root e :
  crawl_event w max_depth root 0 e -> within_depth root max_depth e.
Proof.
  intros (names & q & Hr & Hd & He). exists names. split; [lia |].
  apply reaches_descend in Hr. subst q.
  destruct e as [n | q | q | q a]; simpl in *.
  - contradiction.
  - now subst.
  - destruct He as [-> _]. reflexivity.
  - destruct He as [-> _]. reflexivity.
Qed.

Lemma found_of_In l a : In a (found_of l) -> exists q, In (EvFound q a) l.
Proof.
  unfold found_of. induction l as [| e l IH]; simpl; [contradiction |].
  destruct e as [n | q | q | q a']; simpl; intros H;
    try (destruct (IH H) as [q' Hq]; eauto).
  destruct H as [<- | H]; [eauto |]. destruct (IH H) as [q' Hq]; eauto.
Qed.

(** C8. The crawl of one root returns on every filesystem (a listing is
    a finite list): the recursion allowance [max_depth + 2] is never used
    up and any larger one gives the same run.  The depth bound is 4 on
    Windows and 5 elsewhere.  A call deeper than the bound, or one whose
    budget check reports expiry, returns at once without touching the log
    or [found]; every directory visited, listed or recorded lies at most
    [max_depth] levels below the root, and every recorded path was
    recorded at such a directory. *)
Theorem search_directory_tree_bounded :
  forall (fl : PathFlavour) (w : World) (root : string) (verbose : bool) (st : state),
    let max_depth := max_depth_of (self st) in
    max_depth = (if String.eqb (os_type (self st)) "windows" then 4 else 5)%nat /\
    (exists st' l,
        _search_directory_tree w root verbose st = (Ok (found_of l), st') /\
        (forall fuel, (max_depth + 2 <= fuel)%nat ->
           _search_directory_tree_fuel w fuel root verbose st = (Ok (found_of l), st')) /\
        events st' = events st ++ l /\
        Forall (within_depth (Path root) max_depth) l /\
        (forall a, In a (found_of l) ->
           exists q, In (EvFound q a) l /\
                     within_depth (Path root) max_depth (EvFound q a))) /\
    (forall fuel p depth st1,
        (max_depth < depth)%nat ->
        _recursive_search w (S fuel) verbose max_depth p depth st1 = (Ok tt, st1)) /\
    (forall fuel p depth st1 st2,
        (depth <= max_depth)%nat -> _is_timeout st1 = (Ok true, st2) ->
        _recursive_search w (S fuel) verbose max_depth p depth st1 = (Ok tt, st2)).
Proof.
  intros fl w root verbose st max_depth. split; [reflexivity |]. split; [| split].
  - destruct (search_directory_tree_spec w verbose root st)
      as (st' & Hrun & _ & _ & l & He & Hf & Hp).
    assert (Hw : Forall (within_depth (Path root) max_depth) l).
    { eapply List.Forall_impl; [| exact Hp]. intros e. apply crawl_event_within. }
    exists st', l. rewrite <- Hf. split; [exact Hrun |]. split; [| split; [| split]].
    + intros fuel Hfuel. rewrite search_directory_tree_any_fuel by exact Hfuel.
      exact Hrun.
    + exact He.
    + exact Hw.
    + rewrite Hf. intros a Ha. destruct (found_of_In _ _ Ha) as [q Hq].
      exists q. split; [exact Hq |].
      rewrite List.Forall_forall in Hw. apply Hw, Hq.
  - intros fuel p depth st1 Hd. apply recursive_search_guard, Hd.
  - intros fuel p depth st1 st2 Hd Ht. cbn [_recursive_search]. unfold bind.
    apply Nat.ltb_ge in Hd. rewrite Hd, Ht. reflexivity.
Qed.

(** ** A root the pruning rule rejects *)

(** A crawl whose root is neither a [tessdata] directory nor accepted by
    [_should_search_directory] goes nowhere. *)
Lemma rejected_root_events {fl : PathFlavour} w max_depth root l :
  path_name root <> "tessdata" ->
  _should_search_directory root = false ->
  Forall (crawl_event w max_depth root 0) l ->
  Forall (fun e => e = EvVisit root) l.
Proof.
  intros Hname Hsearch Hl. eapply List.Forall_impl; [| exact Hl].
  intros e (names & q & Hr & _ & He).
  destruct names as [| name rest]; simpl in Hr.
  - subst q. destruct e as [n | q | q | q a]; simpl in He.
    + contradiction.
    + now subst.
    + destruct He as [_ He]. congruence.
    + destruct He as (_ & He & _). contradiction.
  - destruct Hr as [Hr _]. congruence.
Qed.

Lemma found_of_visits root l :
  Forall (fun e => e = EvVisit root) l -> found_of l = [].
Proof.
  induction 1 as [| e l He _ IH]; [reflexivity |]. subst e. exact IH.
Qed.

(** C10. With the POSIX path flavour, for every world, state and verbose
    flag, the crawl of the search root [/usr] returns the empty list.
    The root's name [usr] is not [tessdata], is three characters long and
    contains no allow-list keyword, so [_should_search_directory] rejects
    it; the only thing the crawl can do is pass the guard at [/usr]
    itself: nothing is listed, nothing beneath is visited.  Off Windows
    [/usr] is nevertheless one of the search roots. *)
Theorem usr_root_is_never_crawled :
  forall (w : World) (verbose : bool) (st : state),
    (String.eqb (os_type (self st)) "windows" = false ->
     In "/usr" (_get_search_roots (fl := posix) w (self st))) /\
    path_name (Path (PathFlavour := posix) "/usr") = "usr" /\
    String.length "usr" = 3%nat /\
    (forall keyword, keyword ∈ interesting_keywords ->
       PyStr.contains keyword "usr" = false) /\
    _should_search_directory (Path (PathFlavour := posix) "/usr") = false /\
    exists st' l,
      _search_directory_tree (fl := posix) w "/usr" verbose st = (Ok [], st') /\
      events st' = events st ++ l /\
      Forall (fun e => e = EvVisit (Path (PathFlavour := posix) "/usr")) l.
Proof.
  intros w verbose st. split; [| split; [| split; [| split; [| split]]]].
  - intros Hos. unfold _get_search_roots. rewrite Hos. simpl. auto.
  - reflexivity.
  - reflexivity.
  - intros keyword Hk. unfold interesting_keywords in Hk.
    rewrite elem_of_list_to_set in Hk.
    repeat (apply elem_of_cons in Hk as [-> | Hk]; [reflexivity |]).
    apply elem_of_nil in Hk. contradiction.
  - vm_compute. reflexivity.
  - destruct (search_directory_tree_spec (fl := posix) w verbose "/usr" st)
      as (st' & Hrun & _ & _ & l & He & Hf & Hp).
    apply rejected_root_events in Hp; [| discriminate | vm_compute; reflexivity].
    exists st', l. rewrite Hrun, Hf, (found_of_visits _ _ Hp). auto.
Qed.

(** ** Pools and harvests *)

Lemma add_events_add l1 l2 st : add_events l2 (add_events l1 st) = add_events (l1 ++ l2) st.
Proof. unfold add_events. simpl. now rewrite app_assoc. Qed.

Lemma add_events_nil st : add_events [] st = st.
Proof. destruct st. unfold add_events. simpl. now rewrite app_nil_r. Qed.

Lemma as_completed_In {A} (futures : list A) order x :
  In x (fst (as_completed futures order)) -> In x futures.
Proof.
  unfold as_completed. simpl. rewrite <- !list_elem_of_In.
  rewrite list_elem_of_omap. intros (i & _ & Hi).
  apply list_elem_of_In. eapply nth_error_In, Hi.
Qed.

(** Submitting tasks only grows the log: by the observations of every
    task, each run from a fresh thread state that shares [self].  [P]
    holds of the observations, [G] of each future against them. *)
Lemma submit_each_spec {A} (P : event -> Prop) (G : result A -> list event -> Prop)
    (tasks : list (M A * (nat -> Q))) :
  (forall r l l1 l2, G r l -> G r (l1 ++ l ++ l2)) ->
  forall st,
    Forall (fun tc =>
              let out := fst tc (mkState (self st) (snd tc) 0 [] []) in
              Forall P (events (snd out)) /\ G (fst out) (events (snd out))) tasks ->
    exists futs l,
      submit_each tasks st = (Ok futs, add_events l st) /\
      Forall P l /\ Forall (fun fut => G fut l) futs.
Proof.
  intros HG. induction tasks as [| [task clk] rest IH]; intros st Ht.
  - exists [], []. rewrite add_events_nil. repeat split; constructor.
  - apply Forall_cons in Ht as [[Hp Hg] Hrest]. simpl in Hp, Hg.
    cbn [submit_each]. unfold bind at 1, submit.
    destruct (task (mkState (self st) clk 0 [] [])) as [r st1] eqn:Hrun.
    simpl in Hp, Hg.
    destruct (IH (add_events (events st1) st)) as (futs & l & Hsub & Hpl & Hgl).
    { exact Hrest. }
    exists (r :: futs), (events st1 ++ l).
    unfold bind. rewrite Hsub. unfold ret. rewrite add_events_add.
    split; [reflexivity |]. split; [apply Forall_app; auto |].
    constructor.
    + specialize (HG r (events st1) [] l Hg). exact HG.
    + eapply List.Forall_impl; [| exact Hgl].
      intros fut Hf. specialize (HG fut l (events st1) [] Hf).
      now rewrite app_nil_r in HG.
Qed.

Lemma crawl_future_mono r l l1 l2 : crawl_future r l -> crawl_future r (l1 ++ l ++ l2).
Proof.
  intros (paths & -> & Hrec). exists paths. split; [reflexivity |].
  intros a Ha. destruct (Hrec a Ha) as [q Hq]. exists q.
  apply in_or_app. right. apply in_or_app. now left.
Qed.

Section SmartFacts.

Context {fl : PathFlavour} (w : World) (verbose : bool).

Lemma crawl_tasks_ok f roots0 roots k :
  (forall root, In root roots -> In root roots0) ->
  Forall (fun tc =>
            let out := fst tc (mkState f (snd tc) 0 [] []) in
            Forall (fun e => exists root, In root roots0 /\
                      crawl_event w (max_depth_of f) (Path root) 0 e)
                   (events (snd out)) /\
            crawl_future (fst out) (events (snd out)))
         (map (fun '(i, root) => (_search_directory_tree w root verbose, time_crawl w i))
              (combine (seq k (length roots)) roots)).
Proof.
  revert k. induction roots as [| root rest IH]; intros k Hin; simpl; [constructor |].
  constructor.
  - simpl.
    destruct (search_directory_tree_spec w verbose root
                (mkState f (time_crawl w k) 0 [] []))
      as (st' & Hrun & _ & _ & l & He & Hf & Hp).
    rewrite Hrun. simpl in *. subst l. split.
    + eapply List.Forall_impl; [| exact Hp]. intros e He. exists root. split; auto.
    + exists (found st'). split; [reflexivity |]. rewrite Hf.
      intros a. apply found_of_In.
  - apply IH. intros r Hr. apply Hin. now right.
Qed.

Lemma search_filesystem_smart_spec st :
  wp (_search_filesystem_smart w verbose) (smart_post w st) st.
Proof.
  unfold _search_filesystem_smart.
  apply wp_bind, wp_log. cbn [after].
  assert (Hprobe : smart_event w (self st) (EvProbe "_search_filesystem_smart"))
    by now left.
  apply wp_bind, wp_is_timeout. intros expired st1 (Hs1 & Hc1 & _ & He1 & _).
  simpl in Hs1, Hc1, He1. cbn [after].
  destruct expired.
  { apply wp_ret. repeat split; auto.
    exists [EvProbe "_search_filesystem_smart"]. rewrite He1.
    repeat split; auto. intros a []. }
  apply wp_bind, wp_get. cbn [after]. apply wp_bind. unfold ThreadPoolExecutor.
  destruct (_ <=? 0)%Z.
  { apply wp_raise. cbn [after]. repeat split; auto.
    exists [EvProbe "_search_filesystem_smart"]. rewrite He1. repeat split; auto. }
  apply wp_ret. cbn [after]. apply wp_bind.
  destruct (submit_each_spec
              (fun e => exists root, In root (_get_search_roots w (self st)) /\
                          crawl_event w (max_depth_of (self st)) (Path root) 0 e)
              crawl_future
              (map (fun '(i, root) =>
                      (_search_directory_tree w root verbose, time_crawl w i))
                   (enumerate (_get_search_roots w (self st1))))
              crawl_future_mono st1) as (futs & l & Hsub & Hpl & Hfl).
  { rewrite Hs1. apply crawl_tasks_ok. auto. }
  unfold wp at 1. rewrite Hsub. cbn [fst snd after].
  apply wp_bind, wp_elapsed. intros e st2 (Hs2 & Hc2 & _ & He2 & _).
  simpl in Hs2, Hc2, He2. cbn [after].
  match goal with
  | |- context [as_completed futs ?order] =>
      destruct (as_completed futs order) as [completed pending] eqn:Hac
  end.
  assert (Hcompleted : Forall (fun fut => crawl_future fut l) completed).
  { apply List.Forall_forall. intros fut Hin.
    rewrite List.Forall_forall in Hfl. apply Hfl.
    eapply as_completed_In. rewrite Hac. exact Hin. }
  assert (Hevents : forall st', events st' = events st2 ->
            events st' = events st ++ EvProbe "_search_filesystem_smart" :: l).
  { intros st' ->. rewrite He2, He1. simpl. now rewrite <- app_assoc. }
  assert (Hall : Forall (smart_event w (self st))
                        (EvProbe "_search_filesystem_smart" :: l)).
  { constructor; [exact Hprobe |]. eapply List.Forall_impl; [| exact Hpl].
    intros ev Hev. now right. }
  apply wp_for_in with
    (I := fun rest paths st' =>
            Forall (fun fut => crawl_future fut l) rest /\
            self st' = self st /\ clock st' = clock st /\
            events st' = events st2 /\ recorded_in l paths).
  - intros fut rest paths st3 (Hrest & Hs3 & Hc3 & He3 & Hrec).
    apply Forall_cons in Hrest as [(found_paths & -> & Hfound) Hrest].
    apply wp_bind, wp_is_timeout. intros expired st4 (Hs4 & Hc4 & _ & He4 & _).
    cbn [after].
    assert (Hpost : forall paths', recorded_in l paths' ->
              smart_post w st (Ok paths') st4).
    { intros paths' Hrec'. split; [congruence |]. split; [congruence |].
      exists (EvProbe "_search_filesystem_smart" :: l).
      split; [apply Hevents; congruence |]. split; [exact Hall |].
      intros a Ha. destruct (Hrec' a Ha) as [q Hq]. exists q. now right. }
    destruct expired; [apply wp_ret, Hpost, Hrec |].
    apply wp_try_except, wp_bind, wp_lift. cbn [after]. apply wp_ret.
    repeat split; auto; try congruence.
    intros a Ha. apply in_app_or in Ha as [Ha | Ha]; auto.
  - intros paths st3 (_ & Hs3 & Hc3 & He3 & Hrec).
    apply wp_bind. unfold as_completed_end.
    assert (Hev3 := Hevents st3 He3).
    destruct pending.
    + apply wp_raise. cbn [after]. repeat split; auto. eauto.
    + apply wp_ret. cbn [after]. apply wp_ret. repeat split; auto.
      exists (EvProbe "_search_filesystem_smart" :: l). repeat split; auto.
      intros a Ha. destruct (Hrec a Ha) as [q Hq]. exists q. now right.
  - split; [exact Hcompleted |]. split; [congruence |]. split; [congruence |].
    split; [reflexivity |]. intros a [].
Qed.

End SmartFacts.

(** ** Pruning by name *)

(** [_should_search_directory], spelled out. *)
Lemma should_search_directory_iff (p : PurePath) :
  let name := PyStr.lower (path_name p) in
  _should_search_directory p = true <->
  (name ∉ skip_dirs) /\
  ((exists keyword, keyword ∈ interesting_keywords /\ PyStr.contains keyword name = true)
   \/ (String.length name < 3)%nat).
Proof.
  intros name. unfold _should_search_directory. fold name.
  destruct (bool_decide (name ∈ skip_dirs)) eqn:Hskip.
  - apply bool_decide_eq_true in Hskip. split; [discriminate | tauto].
  - apply bool_decide_eq_false in Hskip.
    rewrite orb_true_iff, existsb_exists, Nat.ltb_lt.
    split.
    + intros [(keyword & Hin & Hc) | Hlen]; (split; [exact Hskip |]);
        [left | right; exact Hlen].
      exists keyword. split; [| exact Hc].
      apply (proj1 (elem_of_elements _ _)), (proj2 (list_elem_of_In _ _)), Hin.
    + intros [_ [(keyword & Hin & Hc) | Hlen]]; [left | right; exact Hlen].
      exists keyword. split; [| exact Hc].
      apply (proj1 (list_elem_of_In _ _)), (proj2 (elem_of_elements _ _)), Hin.
Qed.

Lemma weird_tessdata_unreached root names :
  In root [mkPath "/" ["usr"]; mkPath "/" ["usr"; "local"]; mkPath "/" ["opt"]] ->
  ~ reaches root names weird_tessdata.
Proof.
  intros Hroot Hr. pose proof (reaches_parts _ _ _ Hr) as [_ Hparts].
  simpl in Hroot.
  destruct Hroot as [<- | [<- | [<- | []]]]; simpl in Hparts; try discriminate.
  injection Hparts as <-. cbn [reaches] in Hr.
  destruct Hr as (_ & Hweird & _).
  assert (Hrej : _should_search_directory (path_child (mkPath "/" ["opt"]) "weird") = false)
    by (vm_compute; reflexivity).
  congruence.
Qed.

(** C7. During the crawl a directory is listed, and so its children
    descended into, only when [_should_search_directory] accepts its
    name: the lowercase name is not in the deny-list and it contains an
    allow-list keyword or is shorter than 3 characters; and every
    directory the crawl touches is a search root or lies below one
    through directories that were all accepted.  Consequently, off
    Windows, [/opt/weird/tessdata] is never visited, listed or recorded
    by the crawl probe, whatever it contains: its parent [weird] matches
    no keyword and has 5 characters. *)
Theorem crawl_descends_only_into_accepted :
  (forall (fl : PathFlavour) (w : World) (verbose : bool) (st : state),
      exists r st' l,
        _search_filesystem_smart w verbose st = (r, st') /\
        events st' = events st ++ l /\
        (forall q, In (EvList q) l ->
           let name := PyStr.lower (path_name q) in
           _should_search_directory q = true /\
           (name ∉ skip_dirs) /\
           ((exists keyword,
                keyword ∈ interesting_keywords /\ PyStr.contains keyword name = true)
            \/ (String.length name < 3)%nat)) /\
        (forall e q, In e l -> event_path e = Some q ->
           exists root names,
             In root (_get_search_roots w (self st)) /\
             reaches (Path root) names q)) /\
  (forall (w : World) (verbose : bool) (st : state),
      String.eqb (os_type (self st)) "windows" = false ->
      Path (PathFlavour := posix) "/opt/weird/tessdata" = weird_tessdata /\
      _should_search_directory (mkPath "/" ["opt"; "weird"]) = false /\
      exists r st' l,
        _search_filesystem_smart (fl := posix) w verbose st = (r, st') /\
        events st' = events st ++ l /\
        (forall e, In e l -> event_path e <> Some weird_tessdata) /\
        (forall paths, r = Ok paths ->
           forall a, In a paths ->
             exists q, In (EvFound q a) l /\ q <> weird_tessdata)).
Proof.
  split.
  - intros fl w verbose st.
    pose proof (search_filesystem_smart_spec w verbose st) as H. unfold wp in H.
    destruct (_search_filesystem_smart w verbose st) as [r st'].
    destruct H as (_ & _ & l & He & Hp & _). simpl in He.
    exists r, st', l. split; [reflexivity |]. split; [exact He |].
    rewrite List.Forall_forall in Hp. split.
    + intros q Hq name.
      assert (Hs : _should_search_directory q = true).
      { destruct (Hp _ Hq) as [Hq' | (root & _ & names & q' & _ & _ & -> & Hs)];
          [discriminate | exact Hs]. }
      split; [exact Hs |]. apply should_search_directory_iff, Hs.
    + intros e q Hin Hpath.
      destruct (Hp _ Hin) as [-> | (root & Hroot & names & q' & Hr & _ & He')];
        [discriminate |].
      exists root, names. split; [exact Hroot |].
      destruct e as [n | p | p | p a]; simpl in Hpath, He'; try contradiction.
      * injection Hpath as <-. now subst.
      * injection Hpath as <-. destruct He' as [-> _]. exact Hr.
      * injection Hpath as <-. destruct He' as [-> _]. exact Hr.
  - intros w verbose st Hos. split; [reflexivity |].
    split; [vm_compute; reflexivity |].
    pose proof (search_filesystem_smart_spec (fl := posix) w verbose st) as H.
    unfold wp in H.
    destruct (_search_filesystem_smart w verbose st) as [r st'].
    destruct H as (_ & _ & l & He & Hp & Hr). simpl in He, Hr.
    exists r, st', l. split; [reflexivity |]. split; [exact He |].
    rewrite List.Forall_forall in Hp.
    assert (Hnever : forall e, In e l -> event_path e <> Some weird_tessdata).
    { intros e Hin Hpath.
      destruct (Hp _ Hin) as [-> | (root & Hroot & names & q & Hreach & _ & He')];
        [discriminate |].
      unfold _get_search_roots in Hroot. rewrite Hos in Hroot.
      assert (q = weird_tessdata) as ->.
      { destruct e as [n | p | p | p a]; simpl in Hpath, He'; try contradiction.
        - injection Hpath as <-. now subst.
        - injection Hpath as <-. now destruct He' as [-> _].
        - injection Hpath as <-. now destruct He' as [-> _]. }
      refine (weird_tessdata_unreached (Path root) names _ Hreach).
      cbn [In] in Hroot.
      destruct Hroot as [<- | [<- | [<- | []]]]; vm_compute; auto. }
    split; [exact Hnever |].
    intros paths -> a Ha. destruct (Hr a Ha) as [q Hq]. exists q.
    split; [exact Hq |]. intros ->. apply (Hnever _ Hq). reflexivity.
Qed.

(** ** [posixpath.normpath] is idempotent *)

Module posixpath_facts.

Import posixpath posixpath_forms.

Lemma split_nonempty c s : PyStr.split c s <> [].
Proof.
  destruct s as [| a s]; simpl; [discriminate |].
  destruct (Ascii.eqb a c); [discriminate |].
  destruct (PyStr.split c s); discriminate.
Qed.

Lemma slash_free_cons a s :
  slash_free (String a s) -> Ascii.eqb a sep = false /\ slash_free s.
Proof.
  unfold slash_free. simpl. destruct (Ascii.eqb a sep) eqn:Ha.
  - intros H. injection H as H _. discriminate.
  - destruct (PyStr.split sep s) as [| h t] eqn:Hs.
    + now destruct (split_nonempty sep s).
    + intros H. injection H as -> ->. auto.
Qed.

Lemma split_components c s : Forall (fun h => PyStr.split c h = [h]) (PyStr.split c s).
Proof.
  induction s as [| a s IH]; simpl.
  - constructor; [reflexivity | constructor].
  - destruct (Ascii.eqb a c) eqn:Ha.
    + constructor; [reflexivity | exact IH].
    + destruct (PyStr.split c s) as [| h t]; simpl.
      * constructor; [| constructor]. simpl. now rewrite Ha.
      * apply Forall_cons in IH as [Hh Ht]. constructor; [| exact Ht].
        simpl. now rewrite Ha, Hh.
Qed.

Lemma split_app_sep x y :
  slash_free x -> PyStr.split sep (x +:+ String sep y) = x :: PyStr.split sep y.
Proof.
  induction x as [| a x IH]; intros Hx.
  - change ("" +:+ String sep y) with (String sep y).
    cbn [PyStr.split]. now rewrite Ascii.eqb_refl.
  - apply slash_free_cons in Hx as [Ha Hx].
    change (String a x +:+ String sep y) with (String a (x +:+ String sep y)).
    cbn [PyStr.split]. rewrite Ha, (IH Hx). reflexivity.
Qed.

Lemma split_join comps :
  comps <> [] -> Forall slash_free comps ->
  PyStr.split sep (PyStr.join "/" comps) = comps.
Proof.
  induction comps as [| x rest IH]; intros Hne Hall; [contradiction |].
  apply Forall_cons in Hall as [Hx Hrest].
  destruct rest as [| y rest].
  - exact Hx.
  - change (PyStr.join "/" (x :: y :: rest))
      with (x +:+ String sep (PyStr.join "/" (y :: rest))).
    rewrite (split_app_sep _ _ Hx), IH; [reflexivity | discriminate | exact Hrest].
Qed.

Lemma normal_snoc_inv slashes acc c :
  normal slashes (acc ++ [c]) ->
  normal slashes acc /\ good c /\
  (c = ".." -> slashes = 0%nat /\ (acc = [] \/ List.last acc "" = "..")).
Proof.
  intros H. inversion H as [Hnil | acc' c' Hacc Hgood Hdd Heq].
  - now destruct acc.
  - apply app_inj_tail in Heq as [-> ->]. auto.
Qed.

Lemma normal_good slashes comps : normal slashes comps -> Forall good comps.
Proof.
  induction 1 as [| acc c _ IH Hgood _]; [constructor |].
  apply Forall_app. split; [exact IH | constructor; [exact Hgood | constructor]].
Qed.

Lemma is_nil_true {A} (l : list A) : is_nil l = true <-> l = [].
Proof. destruct l; simpl; split; congruence. Qed.

Lemma is_nil_false {A} (l : list A) : is_nil l = false <-> l <> [].
Proof. destruct l; simpl; split; congruence. Qed.

Lemma step_normal slashes acc comp :
  normal slashes acc -> slash_free comp ->
  normal slashes (normpath_step slashes acc comp).
Proof.
  intros Hacc Hfree. unfold normpath_step.
  destruct (comp =? "")%string eqn:He; [exact Hacc |].
  destruct (comp =? ".")%string eqn:Hd; [exact Hacc |].
  apply String.eqb_neq in He, Hd. cbn [orb].
  destruct (comp =? "..")%string eqn:Hdd; cbn [negb orb].
  - apply String.eqb_eq in Hdd. subst comp.
    destruct ((slashes =? 0)%nat && is_nil acc) eqn:H1; cbn [orb].
    + apply andb_true_iff in H1 as [Hs Hn].
      apply Nat.eqb_eq in Hs. apply is_nil_true in Hn.
      apply normal_snoc; [exact Hacc | split; auto | auto].
    + destruct (is_nil acc) eqn:Hn; cbn [negb andb].
      * exact Hacc.
      * apply is_nil_false in Hn.
        destruct (exists_last Hn) as (acc' & c' & ->).
        rewrite last_last, removelast_last.
        apply normal_snoc_inv in Hacc as (Hacc' & Hgood & Hc').
        destruct (c' =? "..")%string eqn:Hc; [| exact Hacc'].
        apply String.eqb_eq in Hc. subst c'.
        apply normal_snoc; [| split; auto |].
        -- apply normal_snoc; auto.
        -- intros _. split; [apply Hc'; reflexivity |]. right. apply last_last.
  - apply String.eqb_neq in Hdd.
    apply normal_snoc; [exact Hacc | split; auto | contradiction].
Qed.

Lemma fold_normal slashes comps acc :
  normal slashes acc -> Forall slash_free comps ->
  normal slashes (fold_left (normpath_step slashes) comps acc).
Proof.
  revert acc. induction comps as [| c comps IH]; intros acc Hacc Hall; simpl.
  - exact Hacc.
  - apply Forall_cons in Hall as [Hc Hall]. apply IH; [| exact Hall].
    apply step_normal; assumption.
Qed.

(** On a list already in normal form the loop changes nothing. *)
Lemma fold_normal_id slashes comps :
  normal slashes comps -> fold_left (normpath_step slashes) comps [] = comps.
Proof.
  induction 1 as [| acc c _ IH (He & Hd & _) Hdd]; [reflexivity |].
  rewrite fold_left_app, IH. simpl. unfold normpath_step.
  apply String.eqb_neq in He, Hd. rewrite He, Hd. cbn [orb].
  destruct (c =? "..")%string eqn:Hc; cbn [negb orb]; [| reflexivity].
  apply String.eqb_eq in Hc. destruct (Hdd Hc) as [-> [-> | Hlast]].
  - reflexivity.
  - destruct acc as [| a acc]; [reflexivity |].
    cbn [Nat.eqb is_nil andb negb orb]. rewrite Hlast. reflexivity.
Qed.

Lemma fold_skip_empty slashes k comps acc :
  fold_left (normpath_step slashes) (repeat "" k ++ comps) acc
  = fold_left (normpath_step slashes) comps acc.
Proof. induction k as [| k IH]; simpl; [reflexivity | exact IH]. Qed.

Lemma normpath_render path :
  path <> "" ->
  normpath path
  = render_comps (initial_slashes path)
      (fold_left (normpath_step (initial_slashes path)) (PyStr.split sep path) []).
Proof.
  intros Hne. unfold normpath, render_comps.
  apply String.eqb_neq in Hne. now rewrite Hne.
Qed.

Lemma initial_slashes_le path : (initial_slashes path <= 2)%nat.
Proof.
  unfold initial_slashes.
  destruct (PyStr.startswith path "/"); [| lia].
  destruct (_ && _); lia.
Qed.

Lemma prefix_nil s : String.prefix "" s = true.
Proof. now destruct s. Qed.

Lemma prefix_same a p s : String.prefix (String a p) (String a s) = String.prefix p s.
Proof. cbn [String.prefix]. destruct (ascii_dec a a); [reflexivity | contradiction]. Qed.

Lemma prefix_differs a b p s : b <> a -> String.prefix (String a p) (String b s) = false.
Proof.
  intros Hne. cbn [String.prefix].
  destruct (ascii_dec a b) as [E | _]; [| reflexivity]. now destruct Hne.
Qed.

(** A joined list of good components starts with a character that is
    not the separator. *)
Lemma join_head c rest :
  good c -> exists a s, PyStr.join "/" (c :: rest) = String a s /\ Ascii.eqb a sep = false.
Proof.
  intros (He & _ & Hfree). destruct c as [| a c]; [contradiction |].
  apply slash_free_cons in Hfree as [Ha _].
  destruct rest; simpl; eauto.
Qed.

Lemma render_fixed slashes comps :
  (slashes <= 2)%nat -> normal slashes comps ->
  normpath (render_comps slashes comps) = render_comps slashes comps.
Proof.
  intros Hk Hn. destruct comps as [| c rest].
  - destruct slashes as [| [| [| k]]]; [reflexivity .. | lia].
  - pose proof (normal_good _ _ Hn) as Hgood.
    apply Forall_cons in Hgood as [Hc Hrest].
    destruct (join_head c rest Hc) as (a & s & Hj & Ha).
    assert (Hsplit : PyStr.split sep (PyStr.join "/" (c :: rest)) = c :: rest).
    { apply split_join; [discriminate |]. constructor.
      - apply Hc.
      - eapply List.Forall_impl; [| exact Hrest]. intros x Hx. apply Hx. }
    assert (Ha' : a <> sep) by (intros ->; now rewrite Ascii.eqb_refl in Ha).
    assert (Hrender : render_comps slashes (c :: rest)
                      = PyStr.repeat_char sep slashes +:+ String a s).
    { unfold render_comps. rewrite Hj.
      destruct slashes as [| k]; reflexivity. }
    rewrite Hrender at 1. rewrite normpath_render.
    2:{ destruct slashes; discriminate. }
    assert (Hinit : initial_slashes (PyStr.repeat_char sep slashes +:+ String a s)
                    = slashes).
    { unfold initial_slashes, PyStr.startswith.
      destruct slashes as [| [| [| k]]]; [| | | lia];
        cbv beta iota fix delta [PyStr.repeat_char String.append];
        rewrite ?prefix_same, ?prefix_nil, ?(prefix_differs _ _ _ _ Ha');
        reflexivity. }
    assert (Hsp : PyStr.split sep (PyStr.repeat_char sep slashes +:+ String a s)
                  = repeat "" slashes ++ c :: rest).
    { rewrite <- Hsplit, Hj.
      clear. induction slashes as [| k IH]; [reflexivity |].
      cbn [PyStr.repeat_char repeat]. 
      change (String sep (PyStr.repeat_char sep k) +:+ String a s)
        with (String sep (PyStr.repeat_char sep k +:+ String a s)).
      cbn [PyStr.split]. rewrite Ascii.eqb_refl, IH. reflexivity. }
    rewrite Hinit, Hsp, fold_skip_empty, (fold_normal_id _ _ Hn). reflexivity.
Qed.

Theorem normpath_idempotent path : normpath (normpath path) = normpath path.
Proof.
  destruct (String.eqb_spec path "") as [-> | Hne]; [reflexivity |].
  rewrite (normpath_render path Hne).
  apply render_fixed; [apply initial_slashes_le |].
  apply fold_normal; [constructor |].
  apply split_components.
Qed.

End posixpath_facts.

(** ** Deduplication and ranking *)

Section PrioritizeFacts.

Context {fl : PathFlavour}.

Lemma prioritize_paths_unfold paths :
  _prioritize_paths paths = sorted (unique_paths_of paths) priority_key.
Proof.
  unfold _prioritize_paths, unique_paths_of.
  now destruct (fold_left dedup_step paths (∅, [])).
Qed.

(** The loop invariant: [seen] is the set of [unique_paths], which has
    no repetition and holds the normal forms of the paths read so far,
    besides what it held before. *)
Lemma dedup_loop paths :
  forall (seen : gset string) (unique : list string),
    (forall x, x ∈ seen <-> In x unique) -> List.NoDup unique ->
    let unique' := snd (fold_left dedup_step paths (seen, unique)) in
    List.NoDup unique' /\
    (forall x, In x unique' <->
               In x unique \/ exists p, In p paths /\ x = os_path_normpath p).
Proof.
  induction paths as [| p paths IH]; intros seen unique Hseen Hnd; simpl.
  - split; [exact Hnd |]. intros x. split; [auto |].
    intros [H | (p & [] & _)]. exact H.
  - unfold dedup_step at 2.
    destruct (bool_decide (os_path_normpath p ∈ seen)) eqn:Hin.
    + apply bool_decide_eq_true in Hin.
      destruct (IH seen unique Hseen Hnd) as [Hnd' Hiff]. split; [exact Hnd' |].
      intros x. rewrite Hiff. split.
      * intros [H | (q & Hq & ->)]; [now left | right; eauto].
      * intros [H | (q & [<- | Hq] & ->)]; [now left | | right; eauto].
        left. apply Hseen, Hin.
    + apply bool_decide_eq_false in Hin.
      destruct (IH ({[os_path_normpath p]} ∪ seen) (unique ++ [os_path_normpath p]))
        as [Hnd' Hiff].
      * intros x. rewrite elem_of_union, elem_of_singleton, in_app_iff, Hseen.
        simpl. intuition.
      * apply NoDup_ListNoDup, NoDup_app. split; [apply NoDup_ListNoDup, Hnd |].
        split; [| apply NoDup_singleton].
        intros x Hx Hx'. apply list_elem_of_singleton in Hx'. subst x.
        apply Hin, Hseen, list_elem_of_In, Hx.
      * split; [exact Hnd' |]. intros x. rewrite Hiff, in_app_iff. simpl. split.
        -- intros [[H | [<- | []]] | (q & Hq & ->)]; eauto.
        -- intros [H | (q & [<- | Hq] & ->)]; eauto.
Qed.

Lemma unique_paths_spec paths :
  List.NoDup (unique_paths_of paths) /\
  (forall x, In x (unique_paths_of paths) <->
             exists p, In p paths /\ x = os_path_normpath p).
Proof.
  destruct (dedup_loop paths ∅ []) as [Hnd Hiff].
  - intros x. split; [intros H; now apply not_elem_of_empty in H | intros []].
  - constructor.
  - split; [exact Hnd |]. intros x. rewrite Hiff. split; [| eauto].
    intros [[] | H]. exact H.
Qed.

(** *** Sorting *)

Lemma insert_by_perm {A} (key : A -> Z * string) x l :
  Permutation (insert_by key x l) (x :: l).
Proof.
  induction l as [| y l IH]; simpl; [reflexivity |].
  destruct (key_le (key x) (key y)); [reflexivity |].
  rewrite IH. apply perm_swap.
Qed.

Lemma sorted_perm {A} (key : A -> Z * string) l : Permutation (sorted l key) l.
Proof.
  induction l as [| x l IH]; simpl; [reflexivity |].
  unfold sorted in *. simpl. rewrite insert_by_perm. now constructor.
Qed.

(** [key_le] refines the order on the first component, and is total. *)
Lemma key_le_fst a b : key_le a b = true -> (fst a <= fst b)%Z.
Proof. unfold key_le. lia. Qed.

Lemma key_le_false a b : key_le a b = false -> (fst b <= fst a)%Z.
Proof. unfold key_le. destruct (String.leb (snd a) (snd b)); lia. Qed.

Lemma insert_by_sorted {A} (key : A -> Z * string) x l :
  StronglySorted (score_le key) l ->
  StronglySorted (score_le key) (insert_by key x l).
Proof.
  induction 1 as [| y l Hl IH Hy]; simpl.
  - constructor; constructor.
  - destruct (key_le (key x) (key y)) eqn:Hle.
    + apply key_le_fst in Hle. constructor; [constructor; assumption |].
      constructor; [exact Hle |].
      eapply List.Forall_impl; [| exact Hy]. unfold score_le. intros z Hz. lia.
    + apply key_le_false in Hle. constructor; [exact IH |].
      apply (Permutation.Permutation_Forall
               (Permutation_sym (insert_by_perm key x l))).
      constructor; [exact Hle | exact Hy].
Qed.

Lemma sorted_by_score {A} (key : A -> Z * string) l :
  StronglySorted (score_le key) (sorted l key).
Proof.
  induction l as [| x l IH]; [constructor |]. now apply insert_by_sorted.
Qed.

Lemma strongly_sorted_tail {A} (R : A -> A -> Prop) l1 l2 :
  StronglySorted R (l1 ++ l2) -> StronglySorted R l2.
Proof.
  induction l1 as [| x l1 IH]; simpl; [auto |].
  intros H. apply StronglySorted_inv in H as [H _]. auto.
Qed.

(** In a list sorted by score, a strictly smaller score comes first. *)
Lemma sorted_before {A} (key : A -> Z * string) l x y :
  StronglySorted (score_le key) l -> In x l -> In y l ->
  (fst (key x) < fst (key y))%Z -> before x y l.
Proof.
  intros Hs Hx Hy Hlt.
  apply in_split in Hx as (l1 & l' & ->).
  apply in_app_or in Hy as [Hy | [-> | Hy]].
  - apply in_split in Hy as (l1a & l1b & ->).
    rewrite <- app_assoc in Hs. simpl in Hs.
    apply strongly_sorted_tail in Hs.
    apply StronglySorted_inv in Hs as [_ Hall].
    rewrite List.Forall_forall in Hall.
    specialize (Hall x). unfold score_le in Hall.
    assert (In x (l1b ++ x :: l')) by (apply in_or_app; right; now left).
    specialize (Hall H). lia.
  - lia.
  - apply in_split in Hy as (l2 & l3 & ->). exists l1, l2, l3. reflexivity.
Qed.

End PrioritizeFacts.

Lemma prioritize_paths_In {fl : PathFlavour} paths q :
  In q (_prioritize_paths paths) <-> exists p, In p paths /\ q = os_path_normpath p.
Proof.
  rewrite prioritize_paths_unfold.
  rewrite <- (proj2 (unique_paths_spec paths) q).
  split; apply Permutation_in; [| symmetry]; apply sorted_perm.
Qed.

Lemma prioritize_paths_NoDup {fl : PathFlavour} paths :
  List.NoDup (_prioritize_paths paths).
Proof.
  rewrite prioritize_paths_unfold.
  eapply Permutation_NoDup; [symmetry; apply sorted_perm |].
  apply unique_paths_spec.
Qed.

(** [_prioritize_paths] reads nothing of the binding of [os.path] but
    [normpath]. *)
Lemma prioritize_paths_normpath_only (fl fl' : PathFlavour) paths :
  (forall p, @os_path_normpath fl p = @os_path_normpath fl' p) ->
  @_prioritize_paths fl paths = @_prioritize_paths fl' paths.
Proof.
  intros Hn. unfold _prioritize_paths.
  assert (H : forall acc, fold_left (@dedup_step fl) paths acc
                          = fold_left (@dedup_step fl') paths acc).
  { induction paths as [| p paths IH]; intros acc; [reflexivity |].
    simpl. rewrite <- IH. f_equal.
    unfold dedup_step. destruct acc as [seen unique]. now rewrite Hn. }
  now rewrite H.
Qed.




(** C5, amended.  [_prioritize_paths] scores the normal forms of the
    candidates.  Take two candidates [A] and [B] of one raw candidate
    list.  If the lowercased normal form of [A] contains
    [tessdata_prefix] or [tesseract] and the lowercased normal form of
    [B] contains neither, while the system-location test and the digit
    test agree on the two normal forms, then the score of the normal
    form of [A] is 1000 below that of the normal form of [B], and the
    normal form of [A] stands before the normal form of [B] in the
    output of [_prioritize_paths]. *)
Theorem prefix_token_sorts_first :
  forall (fl : PathFlavour) (paths : list string) (A B : string),
    In A paths -> In B paths ->
    any_in ["tessdata_prefix"; "tesseract"] (PyStr.lower (os_path_normpath A)) = true ->
    any_in ["tessdata_prefix"; "tesseract"] (PyStr.lower (os_path_normpath B)) = false ->
    any_in ["/usr/share"; "/usr/local/share"; "program files"]
           (PyStr.lower (os_path_normpath A))
    = any_in ["/usr/share"; "/usr/local/share"; "program files"]
             (PyStr.lower (os_path_normpath B)) ->
    PyStr.any_digit (os_path_normpath A) = PyStr.any_digit (os_path_normpath B) ->
    priority (os_path_normpath A) = (priority (os_path_normpath B) - 1000)%Z /\
    before (os_path_normpath A) (os_path_normpath B) (_prioritize_paths paths).
Proof.
  intros fl paths A B HA HB HtA HtB Hsys Hdig.
  set (A' := os_path_normpath A) in *. set (B' := os_path_normpath B) in *.
  assert (Hscore : priority A' = (priority B' - 1000)%Z).
  { unfold priority. cbv zeta. rewrite HtA, HtB, Hsys, Hdig.
    destruct (any_in ["/usr/share"; "/usr/local/share"; "program files"] (PyStr.lower B')),
      (PyStr.any_digit B'); cbv iota; lia. }
  split; [exact Hscore |].
  rewrite prioritize_paths_unfold.
  apply (sorted_before priority_key).
  - apply sorted_by_score.
  - apply (Permutation_in _ (Permutation_sym (sorted_perm _ _))).
    apply unique_paths_spec. exists A. auto.
  - apply (Permutation_in _ (Permutation_sym (sorted_perm _ _))).
    apply unique_paths_spec. exists B. auto.
  - simpl. lia.
Qed.

Lemma prefix_token_sorts_first_witness :
  priority "/opt/tesseract/tessdata" = (priority "/opt/x/tessdata" - 1000)%Z /\
  before "/opt/tesseract/tessdata" "/opt/x/tessdata"
    (_prioritize_paths (fl := posix) ["/opt/x/tessdata/"; "/opt//tesseract/./tessdata"]).
Proof.
  apply (prefix_token_sorts_first posix
           ["/opt/x/tessdata/"; "/opt//tesseract/./tessdata"]
           "/opt//tesseract/./tessdata" "/opt/x/tessdata/");
    try reflexivity; simpl; auto.
Defined.

(** C5 as stated, of the candidates as they are handed in, fails for a
    candidate that is not in normal form.  The lowercased
    ["/x/tesseract/.."] contains the token and the lowercased ["/a"]
    does not, and neither passes one of the two other tests; but the
    code scores ["/x"], the normal form, whose score is that of ["/a"],
    and ranks it behind ["/a"]. *)
Lemma unnormalized_token_is_lost :
  any_in ["tessdata_prefix"; "tesseract"] (PyStr.lower "/x/tesseract/..") = true /\
  any_in ["tessdata_prefix"; "tesseract"] (PyStr.lower "/a") = false /\
  any_in ["/usr/share"; "/usr/local/share"; "program files"] (PyStr.lower "/x/tesseract/..")
  = any_in ["/usr/share"; "/usr/local/share"; "program files"] (PyStr.lower "/a") /\
  PyStr.any_digit "/x/tesseract/.." = PyStr.any_digit "/a" /\
  posixpath.normpath "/x/tesseract/.." = "/x" /\
  priority "/x" = priority "/a" /\
  _prioritize_paths (fl := posix) ["/x/tesseract/.."; "/a"] = ["/a"; "/x"] /\
  before "/a" "/x" (_prioritize_paths (fl := posix) ["/x/tesseract/.."; "/a"]) /\
  ~ before "/x/tesseract/.." "/a"
      (_prioritize_paths (fl := posix) ["/x/tesseract/.."; "/a"]).
Proof.
  repeat (split; [vm_compute; reflexivity |]).
  split.
  - exists [], [], []. vm_compute. reflexivity.
  - intros (l1 & l2 & l3 & H).
    assert (Hin : In "/x/tesseract/.."
                     (_prioritize_paths (fl := posix) ["/x/tesseract/.."; "/a"])).
    { rewrite H. apply in_or_app. right. now left. }
    vm_compute in Hin. destruct Hin as [Hin | [Hin | []]]; discriminate Hin.
Qed.

(** ** Candidates are emitted in normal form *)

Section NormalCandidates.

Context (w : World) (verbose : bool).

Lemma wp_abspath_normal path (Post : result string -> state -> Prop) st :
  (forall a, posixpath.normpath a = a -> Post (Ok a) st) ->
  (forall e, Post (Raise e) st) ->
  wp (abspath (fl := posix) w path) Post st.
Proof.
  intros Hok Herr. unfold abspath.
  destruct (os_path_isabs path).
  - apply wp_ret, Hok, posixpath_facts.normpath_idempotent.
  - apply wp_bind, wp_lift. destruct (getcwd w) as [cwd | e]; cbn [of_io after].
    + apply wp_ret, Hok, posixpath_facts.normpath_idempotent.
    + apply Herr.
Qed.

Lemma all_normal_snoc paths a :
  all_normal paths -> posixpath.normpath a = a -> all_normal (paths ++ [a]).
Proof. intros Hp Ha. apply Forall_app. split; [exact Hp | repeat constructor; exact Ha]. Qed.

Lemma check_environment_vars_normal st :
  normal_result (fst (_check_environment_vars (fl := posix) w verbose st)).
Proof.
  change (wp (_check_environment_vars (fl := posix) w verbose)
             (fun r _ => normal_result r) st).
  unfold _check_environment_vars. apply wp_bind, wp_log. cbn [after].
  apply wp_for_in with (I := fun _ paths _ => all_normal paths); [| | constructor].
  - intros var rest paths st1 Hp.
    destruct (environ w var) as [path |]; [| apply wp_ret, Hp].
    destruct (path =? "")%string; [apply wp_ret, Hp |].
    apply wp_bind.
    apply wp_for_in with (I := fun _ paths' _ => all_normal paths'); [| | exact Hp].
    + intros candidate rest' paths' st2 Hp'.
      apply wp_bind, wp_is_valid. intros valid _. cbn [after].
      destruct valid; [| apply wp_ret, Hp'].
      apply wp_bind, wp_abspath_normal.
      * intros a Ha. cbn [after]. apply wp_ret. cbn [after]. apply wp_ret.
        apply all_normal_snoc; assumption.
      * intros e. exact I.
    + intros paths' st2 Hp'. apply wp_bind, wp_ret. cbn [after]. apply wp_ret.
      cbn [after]. apply wp_ret. exact Hp'.
  - intros paths st1 Hp. apply wp_bind, wp_ret. cbn [after]. apply wp_ret. exact Hp.
Qed.

Lemma check_common_locations_normal st :
  normal_result (fst (_check_common_locations (fl := posix) w verbose st)).
Proof.
  change (wp (_check_common_locations (fl := posix) w verbose)
             (fun r _ => normal_result r) st).
  unfold _check_common_locations. apply wp_bind, wp_log. cbn [after].
  apply wp_bind, wp_get. cbn [after].
  apply wp_for_in with (I := fun _ paths _ => all_normal paths); [| | constructor].
  - intros template rest paths st1 Hp.
    apply wp_bind, wp_is_timeout. intros expired st2 _. cbn [after].
    destruct expired; [apply wp_ret, Hp |].
    apply wp_try_except.
    destruct (os_path_isdir w _); [| apply wp_ret, Hp].
    apply wp_bind, wp_is_valid. intros valid _. cbn [after].
    destruct valid; [| apply wp_ret, Hp].
    apply wp_bind, wp_abspath_normal.
    + intros a Ha. cbn [after]. apply wp_ret. apply all_normal_snoc; assumption.
    + intros e. cbn [after is_Exception]. apply wp_ret, Hp.
  - intros paths st1 Hp. apply wp_bind, wp_ret. cbn [after]. apply wp_ret. exact Hp.
Qed.

End NormalCandidates.

(** * The pipeline *)

(** ** What the public operations can do *)

Lemma returns_total {A} (c : M A) : returns c -> total c.
Proof. intros H st. destruct (H st) as [a ->]. discriminate. Qed.

Lemma total_ret {A} (a : A) : total (ret a).
Proof. intros st. discriminate. Qed.

Lemma total_raise {A} e : total (@raise A e).
Proof. intros st. discriminate. Qed.

Lemma total_lift {A} (r : result A) : r <> OutOfFuel -> total (lift r).
Proof. intros H st. exact H. Qed.

Lemma total_io_call {A} (r : io A) : total (io_call r).
Proof. apply total_lift. destruct r; discriminate. Qed.

Lemma total_log e : total (log e).
Proof. intros st. discriminate. Qed.

Lemma total_get : total get.
Proof. intros st. discriminate. Qed.

Lemma total_bind {A B} (c : M A) (k : A -> M B) :
  total c -> (forall a, total (k a)) -> total (bind c k).
Proof.
  intros Hc Hk st. unfold bind. specialize (Hc st).
  destruct (c st) as [[a | e |] st']; simpl in *; [apply Hk | discriminate | contradiction].
Qed.

Lemma total_try_except {A} (c h : M A) catches :
  total c -> total h -> total (try_except c catches h).
Proof.
  intros Hc Hh st. unfold try_except. specialize (Hc st).
  destruct (c st) as [[a | e |] st']; simpl in *; try discriminate; [| contradiction].
  destruct (catches e); [apply Hh | discriminate].
Qed.

(** A [try] that catches every exception, around a computation that
    cannot exhaust the allowance, returns. *)
Lemma returns_try_except_all {A} (c h : M A) :
  total c -> returns h -> returns (try_except c is_Exception h).
Proof.
  intros Hc Hh st. unfold try_except. specialize (Hc st).
  destruct (c st) as [[a | e |] st']; simpl in *; [eauto | apply Hh | contradiction].
Qed.

Lemma total_for_in {A B} (items : list A) at_end (body : B -> A -> M (ctl B)) acc :
  total at_end -> Forall (fun x => forall acc, total (body acc x)) items ->
  total (for_in items at_end acc body).
Proof.
  intros Hend Hbody. revert acc.
  induction Hbody as [| x rest Hx _ IH]; intros acc; cbn [for_in].
  - apply total_bind; [exact Hend | intros; apply total_ret].
  - apply total_bind; [apply Hx |]. intros [acc' | acc']; [apply IH | apply total_ret].
Qed.

Lemma total_is_timeout : total _is_timeout.
Proof. intros st. destruct (elapsed_run st) as (e & st' & He & _).
  unfold _is_timeout, bind. rewrite He. discriminate. Qed.

Lemma returns_is_timeout : returns _is_timeout.
Proof.
  intros st. destruct (elapsed_run st) as (e & st' & He & _).
  unfold _is_timeout, bind. rewrite He. simpl. eauto.
Qed.

Lemma Forall_all {A} (P : A -> Prop) l : (forall x, P x) -> Forall P l.
Proof. intros H. induction l; constructor; auto. Qed.

Section PipelineFacts.

Context {fl : PathFlavour} (w : World) (verbose : bool).

Lemma total_is_valid path : total (_is_valid_tessdata_dir w path).
Proof. intros st. destruct (is_valid_run w path st) as (b & -> & _). discriminate. Qed.

Lemma total_abspath path : total (abspath w path).
Proof.
  unfold abspath. destruct (os_path_isabs path); [apply total_ret |].
  apply total_bind; [apply total_io_call | intros; apply total_ret].
Qed.

Lemma total_check_environment_vars : total (_check_environment_vars w verbose).
Proof.
  unfold _check_environment_vars.
  apply total_bind; [apply total_log | intros _].
  apply total_for_in; [apply total_ret |]. apply Forall_all. intros var paths.
  destruct (environ w var) as [path |]; [| apply total_ret].
  destruct (path =? "")%string; [apply total_ret |].
  apply total_bind; [| intros; apply total_ret].
  apply total_for_in; [apply total_ret |]. apply Forall_all. intros candidate paths'.
  apply total_bind; [apply total_is_valid |]. intros [|]; [| apply total_ret].
  apply total_bind; [apply total_abspath | intros; apply total_ret].
Qed.

Lemma total_check_tesseract_binary_info : total (_check_tesseract_binary_info w verbose).
Proof.
  unfold _check_tesseract_binary_info.
  apply total_bind; [apply total_log | intros _].
  apply total_lift. destruct (binary_info w); discriminate.
Qed.

Lemma total_check_common_locations : total (_check_common_locations w verbose).
Proof.
  unfold _check_common_locations.
  apply total_bind; [apply total_log | intros _].
  apply total_bind; [apply total_get | intros st].
  apply total_for_in; [apply total_ret |]. apply Forall_all. intros template paths.
  apply total_bind; [apply total_is_timeout |]. intros [|]; [apply total_ret |].
  apply total_try_except; [| apply total_ret].
  destruct (os_path_isdir w _); [| apply total_ret].
  apply total_bind; [apply total_is_valid |]. intros [|]; [| apply total_ret].
  apply total_bind; [apply total_abspath | intros; apply total_ret].
Qed.

Lemma total_check_registry_windows : total (_check_registry_windows w verbose).
Proof.
  unfold _check_registry_windows.
  apply total_bind; [apply total_log | intros _].
  apply total_bind; [apply total_get | intros st].
  destruct (_ || _); [apply total_ret |].
  apply total_lift. destruct (registry_info w); discriminate.
Qed.

Lemma total_search_filesystem_smart : total (_search_filesystem_smart w verbose).
Proof.
  intros st Hr. pose proof (search_filesystem_smart_spec w verbose st) as H.
  unfold wp in H. rewrite Hr in H. destruct H as (_ & _ & l & _ & _ & []).
Qed.

Lemma find_all_outcomes st :
  public_outcome (self st) (fst (find_all_tessdata_paths w verbose st)).
Proof.
  change (wp (find_all_tessdata_paths w verbose)
             (fun r _ => public_outcome (self st) r) st).
  unfold find_all_tessdata_paths.
  apply wp_bind, wp_time_time. cbn [after].
  apply wp_bind, wp_modify. cbn [after].
  apply wp_bind, wp_get. cbn [after].
  set (st0 := set_self _ _).
  assert (Hmw : max_workers (self st0) = max_workers (self st)) by reflexivity.
  clearbody st0.
  set (tier2 := if (os_type (self st0) =? "windows")%string
                then _check_registry_windows w else _dummy_method).
  assert (Htier2 : total (tier2 verbose)).
  { unfold tier2. destruct (_ =? _)%string;
      [apply total_check_registry_windows | apply total_ret]. }
  clearbody tier2.
  (* tier 1 *)
  apply wp_bind.
  assert (Htier1 : returns
            (for_in (firstn 3 [_check_environment_vars w; _check_tesseract_binary_info w;
                               _check_common_locations w; tier2;
                               _search_filesystem_smart w])
                    (ret tt) tt
                    (fun _ method =>
                       expired <- _is_timeout ;;
                       if expired then ret (Break tt)
                       else try_except
                              (paths <- method verbose ;;
                               update_found_paths paths ;;;
                               ret (Continue tt))
                              is_Exception (ret (Continue tt))))).
  { cbn [firstn].
    assert (Hstep : forall (method : bool -> M (list string)),
               total (method verbose) ->
               returns (expired <- _is_timeout ;;
                        if expired then ret (Break tt)
                        else try_except
                               (paths <- method verbose ;;
                                update_found_paths paths ;;;
                                ret (Continue tt))
                               is_Exception (ret (Continue tt)))).
    { intros method Hm st1. unfold bind at 1.
      destruct (returns_is_timeout st1) as [expired He].
      destruct (_is_timeout st1) as [r st2]. simpl in He. subst r.
      destruct expired; [simpl; eauto |].
      apply returns_try_except_all; [| intros st3; simpl; eauto].
      apply total_bind; [exact Hm | intros paths].
      apply total_bind; [intros st3; discriminate | intros; apply total_ret]. }
    intros st1. cbn [for_in].
    repeat (unfold bind at 1;
            match goal with
            | |- context [(expired <- _is_timeout ;; if expired then _ else
                           try_except (paths <- ?m verbose ;; _) _ _) ?s] =>
                let c := fresh "c" in
                let E := fresh "E" in
                let s' := fresh "st" in
                destruct (Hstep m ltac:(first [apply total_check_environment_vars
                                              | apply total_check_tesseract_binary_info
                                              | apply total_check_common_locations]) s)
                  as [c E];
                destruct ((expired <- _is_timeout ;; if expired then ret (Break tt) else
                           try_except (paths <- m verbose ;; update_found_paths paths ;;;
                                       ret (Continue tt)) is_Exception
                                      (ret (Continue tt))) s) as [? s'];
                simpl in E; subst; destruct c as [[] | []]; [| simpl; eauto]
            end).
    simpl. eauto. }
  unfold wp at 1. destruct (Htier1 st0) as [[] H1].
  destruct (for_in _ _ _ _ st0) as [r1 st1]. simpl in H1. subst r1. cbn [fst snd after].
  (* tier 2 *)
  apply wp_bind. unfold wp at 1.
  destruct (returns_is_timeout st1) as [expired He].
  destruct (_is_timeout st1) as [r2 st2]. simpl in He. subst r2. cbn [fst snd after].
  apply wp_bind.
  assert (Hdone : forall st', wp (st'' <- get ;;
                                  ret (_prioritize_paths (elements (found_paths (self st'')))))
                                 (fun r _ => public_outcome (self st) r) st').
  { intros st'. exact I. }
  destruct (negb expired && _) eqn:Hgo; [| apply wp_ret; cbn [after]; apply Hdone].
  apply wp_bind. unfold ThreadPoolExecutor.
  destruct (max_workers (self st0) <=? 0)%Z eqn:Hw.
  { apply wp_raise. simpl. right. split; [reflexivity |].
    rewrite <- Hmw. apply Z.leb_le, Hw. }
  apply wp_ret. cbn [after]. apply wp_bind. cbn [skipn enumerate length seq combine map].
  destruct (submit_each_spec (fun _ => True)
              (fun (r : result (list string)) _ => r <> OutOfFuel)
              [(tier2 verbose, time_worker w 0); (_search_filesystem_smart w verbose, time_worker w 1)]
              (fun r l l1 l2 H => H) st2) as (futs & l & Hsub & _ & Hfuts).
  { repeat constructor; try (apply Forall_all; auto).
    - apply Htier2.
    - apply total_search_filesystem_smart. }
  unfold wp at 1. rewrite Hsub. cbn [fst snd after].
  apply wp_bind, wp_elapsed. intros e st3 _. cbn [after].
  match goal with
  | |- context [as_completed futs ?order] =>
      destruct (as_completed futs order) as [completed pending] eqn:Hac
  end.
  assert (Hcompleted : Forall (fun fut => fut <> OutOfFuel) completed).
  { apply List.Forall_forall. intros fut Hin.
    rewrite List.Forall_forall in Hfuts. apply Hfuts.
    eapply as_completed_In. rewrite Hac. exact Hin. }
  apply wp_for_in with
    (I := fun rest (_ : unit) (_ : state) => Forall (fun fut => fut <> OutOfFuel) rest);
    [| | exact Hcompleted].
  - intros fut rest [] st4 Hrest. apply Forall_cons in Hrest as [Hfut Hrest].
    apply wp_bind. unfold wp at 1.
    destruct (returns_is_timeout st4) as [expired' He'].
    destruct (_is_timeout st4) as [r5 st5]. simpl in He'. subst r5. cbn [fst snd after].
    destruct expired'; [apply wp_ret; cbn [after]; apply Hdone |].
    apply wp_try_except, wp_bind, wp_lift.
    destruct fut as [paths | e' |]; cbn [after is_Exception]; [| | contradiction].
    + apply wp_bind, wp_modify. cbn [after]. apply wp_ret. exact Hrest.
    + apply wp_ret. exact Hrest.
  - intros [] st4 _. apply wp_bind. unfold as_completed_end.
    destruct pending.
    + apply wp_raise. cbn [after]. now left.
    + apply wp_ret. cbn [after]. apply wp_ret. cbn [after]. apply Hdone.
Qed.

End PipelineFacts.

(** C2. For every configuration, world, verbose flag and state,
    [find_primary_tessdata_path] does what [find_all_tessdata_paths] does
    in that state and, when the latter returns a sequence, returns its
    first element; it returns [None] exactly when that sequence is
    empty.  When [find_all_tessdata_paths] raises, so does
    [find_primary_tessdata_path].  Neither uses up the recursion
    allowance of the model. *)
Theorem find_primary_is_head_of_find_all :
  forall (fl : PathFlavour) (w : World) (verbose : bool) (st : state),
    match find_all_tessdata_paths w verbose st with
    | (Ok paths, st') =>
        find_primary_tessdata_path w verbose st = (Ok (head paths), st') /\
        (find_primary_tessdata_path w verbose st = (Ok None, st') <-> paths = [])
    | (Raise e, st') => find_primary_tessdata_path w verbose st = (Raise e, st')
    | (OutOfFuel, _) => False
    end.
Proof.
  intros fl w verbose st. unfold find_primary_tessdata_path, bind.
  pose proof (find_all_outcomes w verbose st) as Hout.
  destruct (find_all_tessdata_paths w verbose st) as [[paths | e |] st'];
    [| reflexivity | exact Hout].
  unfold ret. destruct paths as [| p paths]; simpl.
  - split; [reflexivity | tauto].
  - split; [reflexivity |]. split; [discriminate | discriminate].
Qed.

(** ** A zero budget *)

Lemma wp_is_timeout_expired (Post : result bool -> state -> Prop) st s :
  start_time (self st) = Some s -> ~ (s == 0)%Q ->
  (timeout (self st) == 0)%Q -> (s < clock st (ticks st))%Q ->
  Post (Ok true) (set_ticks (S (ticks st)) st) ->
  wp _is_timeout Post st.
Proof.
  intros Hs Hz Ht Hlt HQ. unfold wp.
  rewrite (is_timeout_started st s Hs).
  - simpl. destruct (Qle_bool _ _) eqn:Hle; [| exact HQ].
    apply Qle_bool_iff in Hle. lra.
  - destruct (Qeq_bool s 0) eqn:E; [| reflexivity].
    apply Qeq_bool_iff in E. contradiction.
Qed.

Lemma prioritize_paths_nil {fl : PathFlavour} : _prioritize_paths [] = [].
Proof. reflexivity. Qed.

(** C9, amended. With [timeout = 0] a budget check reports expiry as soon
    as the clock reading it takes is strictly later than the start
    instant (the test is [elapsed > timeout]).  Under that condition:
    [find_all_tessdata_paths] enters no probe at all (the tier-1 loop
    stops at its first check and tier 2 is not started), visits no
    directory and returns the empty list; and [_search_filesystem_smart],
    entered after the start instant, returns the empty list without
    submitting a crawl: its only trace is its own entry. *)
Theorem zero_timeout_expires_on_entry :
  forall (fl : PathFlavour) (w : World) (verbose : bool) (st : state),
    (timeout (self st) == 0)%Q ->
    (let t0 := clock st (ticks st) in
     ~ (t0 == 0)%Q ->
     (t0 < clock st (S (ticks st)))%Q -> (t0 < clock st (S (S (ticks st))))%Q ->
     exists st',
       find_all_tessdata_paths w verbose st = (Ok [], st') /\
       events st' = events st) /\
    (forall s,
       start_time (self st) = Some s -> ~ (s == 0)%Q -> (s < clock st (ticks st))%Q ->
       exists st',
         _search_filesystem_smart w verbose st = (Ok [], st') /\
         events st' = events st ++ [EvProbe "_search_filesystem_smart"]).
Proof.
  intros fl w verbose st Ht. split.
  - intros t0 Hz H1 H2.
    assert (H : wp (find_all_tessdata_paths w verbose)
                   (fun r st' => r = Ok [] /\ events st' = events st) st).
    { unfold find_all_tessdata_paths.
      apply wp_bind, wp_time_time. cbn [after].
      apply wp_bind, wp_modify. cbn [after].
      apply wp_bind, wp_get. cbn [after].
      apply wp_bind. cbn [firstn for_in].
      apply wp_bind, wp_bind.
      apply (wp_is_timeout_expired _ _ t0); [reflexivity | exact Hz | exact Ht | exact H1 |].
      cbn [after]. apply wp_ret. cbn [after]. apply wp_ret. cbn [after].
      apply wp_bind.
      apply (wp_is_timeout_expired _ _ t0); [reflexivity | exact Hz | exact Ht | exact H2 |].
      cbn [after negb andb]. apply wp_bind, wp_ret. cbn [after].
      apply wp_bind, wp_get. cbn [after]. apply wp_ret.
      cbn [self set_self set_ticks found_paths set_found_paths events].
      rewrite elements_empty. split; reflexivity. }
    unfold wp in H.
    destruct (find_all_tessdata_paths w verbose st) as [r st']. simpl in H.
    destruct H as [-> He]. eauto.
  - intros s Hs Hz Hlt.
    assert (H : wp (_search_filesystem_smart w verbose)
                   (fun r st' => r = Ok [] /\
                      events st' = events st ++ [EvProbe "_search_filesystem_smart"]) st).
    { unfold _search_filesystem_smart.
      apply wp_bind, wp_log. cbn [after].
      apply wp_bind.
      apply (wp_is_timeout_expired _ _ s); [exact Hs | exact Hz | exact Ht | exact Hlt |].
      cbn [after]. apply wp_ret. split; reflexivity. }
    unfold wp in H.
    destruct (_search_filesystem_smart w verbose st) as [r st']. simpl in H.
    destruct H as [-> He]. eauto.
Qed.

Lemma zero_timeout_expires_on_entry_witness :
  (0 == 0)%Q /\
  exists st',
    find_all_tessdata_paths (fl := posix) Scenarios.packaged false
      (enter Scenarios.packaged (TessdataFinder_init Scenarios.packaged 0 4))
    = (Ok [], st') /\
    events st' = [].
Proof.
  split; [reflexivity |].
  apply (proj1 (zero_timeout_expires_on_entry posix Scenarios.packaged false
                  (enter Scenarios.packaged (TessdataFinder_init Scenarios.packaged 0 4))
                  (Qeq_refl 0))).
  - intros H. vm_compute in H. discriminate H.
  - vm_compute. reflexivity.
  - vm_compute. reflexivity.
Defined.

(** C9 as stated fails when the clock is read faster than it advances:
    the readings taken by the budget checks equal the start instant, the
    elapsed time is [0], and [0 > 0] is false.  With [timeout = 0] on
    such a machine every probe is entered, the environment probe
    delivers its path, and the crawl lists [/opt] and records
    [/opt/tessdata]. *)
Lemma zero_timeout_coarse_clock_searches :
  timeout (TessdataFinder_init Scenarios.coarse_clock 0 4) = 0%Q /\
  fst (get_tessdata_paths (fl := posix) Scenarios.coarse_clock false 0)
  = Ok ["/data/ocr/tessdata"; "/opt/tessdata"] /\
  events (snd (get_tessdata_paths (fl := posix) Scenarios.coarse_clock false 0))
  = [EvProbe "_check_environment_vars";
     EvProbe "_check_tesseract_binary_info";
     EvProbe "_check_common_locations";
     EvProbe "_search_filesystem_smart";
     EvVisit (mkPath "/" ["usr"]);
     EvVisit (mkPath "/" ["usr"; "local"]);
     EvList (mkPath "/" ["usr"; "local"]);
     EvVisit (mkPath "/" ["opt"]);
     EvList (mkPath "/" ["opt"]);
     EvVisit (mkPath "/" ["opt"; "weird"]);
     EvVisit (mkPath "/" ["opt"; "tessdata"]);
     EvFound (mkPath "/" ["opt"; "tessdata"]) "/opt/tessdata"].
Proof. vm_compute. repeat split. Qed.

(** ** Where the pipeline departs from its contract *)

(** C1, at the failing input.  On a machine where the crawl is still
    running when the window of the outer [as_completed] closes, the
    iterator raises its timeout from the [for] statement, outside every
    [try] of [find_all_tessdata_paths], and both public operations raise
    it to the caller. *)
Theorem find_all_raises_when_crawl_outlives_window :
  fst (get_tessdata_paths (fl := posix) Scenarios.slow_crawl false 10)
  = Raise FuturesTimeoutError /\
  fst (get_primary_tessdata_path (fl := posix) Scenarios.slow_crawl false 10)
  = Raise FuturesTimeoutError.
Proof.
  split; vm_compute; reflexivity.
Qed.

(** C6, at the failing input.  The path [/data/ocr/tessdata] contains
    neither [tessdata_prefix] nor [tesseract]: its score is [0], with no
    1000-point component.  Alone on the machine it is the whole result;
    next to a packaged [/usr/share/tessdata] (score [-100]) it is ranked
    second. *)
Theorem env_prefix_path_gets_no_bonus :
  any_in ["tessdata_prefix"; "tesseract"] (PyStr.lower "/data/ocr/tessdata") = false /\
  priority "/data/ocr/tessdata" = 0%Z /\
  priority "/usr/share/tessdata" = (-100)%Z /\
  fst (get_tessdata_paths (fl := posix) Scenarios.scenario1 false 10)
  = Ok ["/data/ocr/tessdata"] /\
  fst (get_tessdata_paths (fl := posix) Scenarios.packaged false 10)
  = Ok ["/usr/share/tessdata"; "/data/ocr/tessdata"].
Proof. vm_compute. repeat split. Qed.

(** * Further properties of the code *)

(** ** Ranking *)

(** ** The order on keys *)

Lemma ascii_compare_lt_trans a b c :
  Ascii.compare a b = Lt -> Ascii.compare b c = Lt -> Ascii.compare a c = Lt.
Proof.
  unfold Ascii.compare. rewrite !N.compare_lt_iff. lia.
Qed.

Lemma string_compare_refl s : String.compare s s = Eq.
Proof.
  induction s as [| a s IH]; simpl; [reflexivity |].
  unfold Ascii.compare. now rewrite N.compare_refl.
Qed.

Lemma string_compare_lt_trans s1 :
  forall s2 s3,
    String.compare s1 s2 = Lt -> String.compare s2 s3 = Lt -> String.compare s1 s3 = Lt.
Proof.
  induction s1 as [| a s1 IH]; intros [| b s2] [| c s3]; simpl; try congruence.
  destruct (Ascii.compare a b) eqn:Hab; try discriminate;
    destruct (Ascii.compare b c) eqn:Hbc; try discriminate; intros H1 H2.
  - apply Ascii.compare_eq_iff in Hab, Hbc. subst.
    unfold Ascii.compare. rewrite N.compare_refl. eauto.
  - apply Ascii.compare_eq_iff in Hab. subst. now rewrite Hbc.
  - apply Ascii.compare_eq_iff in Hbc. subst. now rewrite Hab.
  - now rewrite (ascii_compare_lt_trans _ _ _ Hab Hbc).
Qed.

Lemma string_leb_spec s1 s2 :
  String.leb s1 s2 = true <-> String.compare s1 s2 <> Gt.
Proof.
  unfold String.leb. destruct (String.compare s1 s2); split; congruence.
Qed.

Lemma string_leb_refl s : String.leb s s = true.
Proof. unfold String.leb. now rewrite string_compare_refl. Qed.

Lemma string_leb_trans s1 s2 s3 :
  String.leb s1 s2 = true -> String.leb s2 s3 = true -> String.leb s1 s3 = true.
Proof.
  unfold String.leb.
  destruct (String.compare s1 s2) eqn:H12; try discriminate;
    destruct (String.compare s2 s3) eqn:H23; try discriminate; intros _ _.
  - apply String.compare_eq_iff in H12, H23. subst. now rewrite string_compare_refl.
  - apply String.compare_eq_iff in H12. subst. now rewrite H23.
  - apply String.compare_eq_iff in H23. subst. now rewrite H12.
  - now rewrite (string_compare_lt_trans _ _ _ H12 H23).
Qed.

Lemma key_le_refl a : key_le a a = true.
Proof. unfold key_le. rewrite string_leb_refl, Z.eqb_refl. apply orb_true_r. Qed.

Lemma key_le_trans a b c : key_le a b = true -> key_le b c = true -> key_le a c = true.
Proof.
  unfold key_le. intros H1 H2.
  apply orb_true_iff in H1 as [H1 | H1]; apply orb_true_iff in H2 as [H2 | H2];
    try apply andb_true_iff in H1 as [H1 H1'];
    try apply andb_true_iff in H2 as [H2 H2'];
    apply orb_true_iff.
  - left. lia.
  - left. lia.
  - left. lia.
  - right. apply andb_true_iff. split; [lia |]. eapply string_leb_trans; eassumption.
Qed.

Lemma key_le_total a b : key_le a b = false -> key_le b a = true.
Proof.
  unfold key_le. intros H.
  apply orb_false_iff in H as [H1 H2].
  destruct (fst a =? fst b)%Z eqn:He; simpl in H2.
  - destruct (String.leb_total (snd a) (snd b)) as [H | H]; [congruence |].
    rewrite H. apply Z.eqb_eq in He. rewrite He, Z.eqb_refl. apply orb_true_r.
  - apply orb_true_iff. left. lia.
Qed.

Lemma key_le_antisym a b : key_le a b = true -> key_le b a = true -> a = b.
Proof.
  unfold key_le. intros H1 H2.
  apply orb_true_iff in H1 as [H1 | H1]; apply orb_true_iff in H2 as [H2 | H2];
    try apply andb_true_iff in H1 as [H1 H1'];
    try apply andb_true_iff in H2 as [H2 H2']; try lia.
  destruct a, b; simpl in *. f_equal; [lia |]. now apply String.leb_antisym.
Qed.

(** ** Sorting by the whole key *)

Lemma insert_by_key_sorted {A} (key : A -> Z * string) x l :
  StronglySorted (key_ord key) l -> StronglySorted (key_ord key) (insert_by key x l).
Proof.
  induction 1 as [| y l Hl IH Hy]; simpl.
  - constructor; constructor.
  - destruct (key_le (key x) (key y)) eqn:Hle.
    + constructor; [constructor; assumption |].
      constructor; [exact Hle |].
      eapply List.Forall_impl; [| exact Hy]. unfold key_ord. intros z Hz.
      eapply key_le_trans; eassumption.
    + apply key_le_total in Hle. constructor; [exact IH |].
      apply (Permutation.Permutation_Forall
               (Permutation_sym (insert_by_perm key x l))).
      constructor; [exact Hle | exact Hy].
Qed.

Lemma sorted_by_key {A} (key : A -> Z * string) l :
  StronglySorted (key_ord key) (sorted l key).
Proof.
  induction l as [| x l IH]; [constructor |]. now apply insert_by_key_sorted.
Qed.

(** Sorting a list that is in order leaves it as it is. *)
Lemma sorted_fixed {A} (key : A -> Z * string) l :
  StronglySorted (key_ord key) l -> sorted l key = l.
Proof.
  induction 1 as [| x l Hl IH Hx]; [reflexivity |].
  unfold sorted in *. simpl. rewrite IH.
  destruct Hx as [| y l Hy _]; simpl; [reflexivity |].
  unfold key_ord in Hy. now rewrite Hy.
Qed.

(** Two lists in order with the same elements, the key telling the
    elements apart, are the same list. *)
Lemma sorted_unique {A} (key : A -> Z * string) (l1 : list A) :
  forall l2,
    (forall x y, In x l1 -> In y l1 -> key x = key y -> x = y) ->
    StronglySorted (key_ord key) l1 -> StronglySorted (key_ord key) l2 ->
    Permutation l1 l2 -> l1 = l2.
Proof.
  induction l1 as [| x l1 IH]; intros l2 Hinj H1 H2 Hp.
  - apply Permutation_nil in Hp. now subst.
  - destruct l2 as [| y l2].
    { apply Permutation_sym, Permutation_nil in Hp. discriminate. }
    apply StronglySorted_inv in H1 as [H1 Hx].
    apply StronglySorted_inv in H2 as [H2 Hy].
    assert (x = y) as <-.
    { assert (Hyin : In y (x :: l1))
        by (eapply Permutation_in; [symmetry; exact Hp | now left]).
      assert (Hxin : In x (y :: l2))
        by (eapply Permutation_in; [exact Hp | now left]).
      destruct Hyin as [-> | Hyin]; [reflexivity |].
      destruct Hxin as [-> | Hxin]; [reflexivity |].
      rewrite List.Forall_forall in Hx, Hy.
      apply Hinj; [now left | now right |].
      apply key_le_antisym; [apply Hx, Hyin | apply Hy, Hxin]. }
    f_equal. apply IH; auto.
    + intros a b Ha Hb. apply Hinj; now right.
    + eapply Permutation_cons_inv, Hp.
Qed.

(** The loop of [_prioritize_paths] on a list of distinct normal forms
    copies it. *)
Lemma dedup_fixed {fl : PathFlavour} paths :
  forall (seen : gset string) (unique : list string),
    (forall x, x ∈ seen <-> In x unique) ->
    List.NoDup (unique ++ paths) ->
    Forall (fun p => os_path_normpath p = p) paths ->
    snd (fold_left dedup_step paths (seen, unique)) = unique ++ paths.
Proof.
  induction paths as [| p paths IH]; intros seen unique Hseen Hnd Hn; simpl.
  - now rewrite app_nil_r.
  - apply Forall_cons in Hn as [Hp Hn]. rewrite Hp.
    destruct (bool_decide (p ∈ seen)) eqn:Hin.
    + apply bool_decide_eq_true in Hin. apply Hseen in Hin.
      apply List.NoDup_remove_2 in Hnd. exfalso. apply Hnd.
      apply in_or_app. now left.
    + rewrite IH; [now rewrite <- app_assoc | | | exact Hn].
      * intros x. rewrite elem_of_union, elem_of_singleton, in_app_iff, Hseen.
        simpl. intuition.
      * now rewrite <- app_assoc.
Qed.

Lemma prioritize_paths_key_sorted (fl : PathFlavour) (paths : list string) :
  StronglySorted (key_ord priority_key) (_prioritize_paths paths).
Proof.
  rewrite prioritize_paths_unfold. apply sorted_by_key.
Qed.

(** X1. The output of [_prioritize_paths] is in ascending order of the
    whole key [(score, lowercased path)]: each element's key is at most
    the key of every later element. *)
Theorem prioritize_paths_sorted_by_key :
  forall (fl : PathFlavour) (paths : list string),
    StronglySorted (key_ord priority_key) (_prioritize_paths paths).
Proof.
  intros fl paths. rewrite prioritize_paths_unfold. apply sorted_by_key.
Qed.

(** X2. With the POSIX [normpath], ranking a ranked list changes
    nothing. *)
Theorem prioritize_paths_idempotent :
  forall paths : list string,
    _prioritize_paths (fl := posix) (_prioritize_paths (fl := posix) paths)
    = _prioritize_paths (fl := posix) paths.
Proof.
  intros paths.
  rewrite (prioritize_paths_unfold (_prioritize_paths paths)).
  assert (Hfix : unique_paths_of (fl := posix) (_prioritize_paths (fl := posix) paths)
                 = _prioritize_paths (fl := posix) paths).
  { unfold unique_paths_of.
    apply (dedup_fixed (fl := posix) (_prioritize_paths (fl := posix) paths) ∅ []).
    - intros x. split; [intros H; now apply not_elem_of_empty in H | intros []].
    - apply (prioritize_paths_NoDup (fl := posix)).
    - apply List.Forall_forall. intros q Hq.
      apply (prioritize_paths_In (fl := posix)) in Hq as (p & _ & ->).
      apply posixpath_facts.normpath_idempotent. }
  rewrite Hfix. apply sorted_fixed, prioritize_paths_key_sorted.
Qed.

(** X3. The result of [_prioritize_paths] depends on the set of
    candidates only, not on their order or multiplicity, as long as no
    two candidates have normal forms that differ by letter case alone. *)
Theorem prioritize_paths_order_independent :
  forall (fl : PathFlavour) (paths paths' : list string),
    (forall x, In x paths <-> In x paths') ->
    (forall x y, In x paths -> In y paths ->
       PyStr.lower (os_path_normpath x) = PyStr.lower (os_path_normpath y) ->
       os_path_normpath x = os_path_normpath y) ->
    _prioritize_paths paths = _prioritize_paths paths'.
Proof.
  intros fl paths paths' Hsame Hinj.
  apply (sorted_unique priority_key).
  - intros a b Ha Hb Hk.
    apply prioritize_paths_In in Ha as (x & Hx & ->).
    apply prioritize_paths_In in Hb as (y & Hy & ->).
    apply Hinj; auto. unfold priority_key in Hk. congruence.
  - apply prioritize_paths_key_sorted.
  - apply prioritize_paths_key_sorted.
  - apply Permutation.NoDup_Permutation; try apply prioritize_paths_NoDup.
    intros q. rewrite !prioritize_paths_In.
    split; intros (p & Hp & ->); exists p; (split; [apply Hsame, Hp | reflexivity]).
Qed.

Lemma prioritize_paths_order_independent_witness :
  _prioritize_paths (fl := posix) ["/opt/b/tessdata"; "/usr/share/tessdata"]
  = _prioritize_paths (fl := posix)
      ["/usr/share/tessdata"; "/opt/b/tessdata"; "/usr/share/tessdata"].
Proof.
  apply (prioritize_paths_order_independent posix).
  - intros x. simpl. tauto.
  - intros x y Hx Hy. simpl in Hx, Hy.
    destruct Hx as [<- | [<- | []]], Hy as [<- | [<- | []]];
      vm_compute; congruence.
Defined.


(** ** The budget over time *)

(** X4. A budget check that comes later does not take back an expiry: if
    [_is_timeout] reports expiry at one clock reading, it reports expiry
    at every reading of the same thread that is not earlier. *)
Theorem is_timeout_stays_expired :
  forall (st st' : state),
    self st' = self st -> clock st' = clock st ->
    (clock st (ticks st) <= clock st (ticks st'))%Q ->
    fst (_is_timeout st) = Ok true -> fst (_is_timeout st') = Ok true.
Proof.
  intros st st' Hs Hc Hle.
  destruct (start_time (self st)) as [s |] eqn:Hstart.
  - destruct (Qeq_bool s 0) eqn:Hz.
    + rewrite (is_timeout_unstarted st), (is_timeout_unstarted st');
        rewrite ?Hs, ?Hstart; auto.
    + rewrite (is_timeout_started st s Hstart Hz).
      rewrite (is_timeout_started st' s); [| now rewrite Hs | exact Hz].
      rewrite Hs, Hc. cbn [fst]. intros H. f_equal.
      injection H as H. apply negb_true_iff in H. apply negb_true_iff.
      destruct (Qle_bool (clock st (ticks st') - s) (timeout (self st))) eqn:E;
        [| reflexivity].
      apply Qle_bool_iff in E.
      assert (Hle' : (clock st (ticks st) - s <= timeout (self st))%Q) by lra.
      apply Qle_bool_iff in Hle'. congruence.
  - rewrite (is_timeout_unstarted st), (is_timeout_unstarted st');
      rewrite ?Hs, ?Hstart; auto.
Qed.

Lemma is_timeout_stays_expired_witness :
  fst (_is_timeout
         (mkState (mkFinder 1 4 (Some (Scenarios.ticking 0)) ∅ "linux")
                  Scenarios.ticking 5000 [] []))
  = Ok true.
Proof.
  apply (is_timeout_stays_expired
           (mkState (mkFinder 1 4 (Some (Scenarios.ticking 0)) ∅ "linux")
                    Scenarios.ticking 2000 [] [])).
  - reflexivity.
  - reflexivity.
  - vm_compute. discriminate.
  - vm_compute. reflexivity.
Defined.

(** X5. Before a search has started, and also when the start instant read
    [0.0] (which Python takes for false), the elapsed time is [0] and no
    clock reading is taken: [_is_timeout] then answers by the sign of the
    timeout alone, and never reports expiry for a timeout that is not
    negative, however late it is called. *)
Theorem is_timeout_before_start :
  forall (st : state),
    match start_time (self st) with Some s => (s == 0)%Q | None => True end ->
    _elapsed st = (Ok 0%Q, st) /\
    _is_timeout st = (Ok (negb (Qle_bool 0 (timeout (self st)))), st) /\
    ((0 <= timeout (self st))%Q -> _is_timeout st = (Ok false, st)).
Proof.
  intros st H.
  assert (H' : match start_time (self st) with
               | Some s => Qeq_bool s 0 = true
               | None => True
               end).
  { destruct (start_time (self st)); [apply Qeq_bool_iff, H | exact I]. }
  split; [| split].
  - unfold _elapsed, bind, get, ret. simpl.
    destruct (start_time (self st)); [rewrite H' |]; reflexivity.
  - apply is_timeout_unstarted, H'.
  - intros Ht. rewrite (is_timeout_unstarted st H').
    apply Qle_bool_iff in Ht. now rewrite Ht.
Qed.

Lemma is_timeout_before_start_witness :
  _is_timeout (enter Scenarios.scenario1 (TessdataFinder_init Scenarios.scenario1 10 4))
  = (Ok false, enter Scenarios.scenario1 (TessdataFinder_init Scenarios.scenario1 10 4)).
Proof.
  apply (is_timeout_before_start
           (enter Scenarios.scenario1 (TessdataFinder_init Scenarios.scenario1 10 4))).
  - exact I.
  - vm_compute. discriminate.
Defined.

(** A budget check under a negative timeout reports expiry, given a
    clock that has not gone back behind the start instant. *)
Lemma wp_is_timeout_negative (Post : result bool -> state -> Prop) st s :
  start_time (self st) = Some s ->
  (timeout (self st) < 0)%Q ->
  (s <= clock st (ticks st))%Q ->
  (forall st', same_but_ticks st st' -> (ticks st' <= S (ticks st))%nat ->
               Post (Ok true) st') ->
  wp _is_timeout Post st.
Proof.
  intros Hs Ht Hle HQ. unfold wp.
  destruct (Qeq_bool s 0) eqn:Hz.
  - rewrite (is_timeout_unstarted st); [| now rewrite Hs].
    cbn [fst snd].
    destruct (Qle_bool 0 (timeout (self st))) eqn:E.
    + apply Qle_bool_iff in E. lra.
    + apply HQ; [| lia]. repeat split; auto.
  - rewrite (is_timeout_started st s Hs Hz). cbn [fst snd].
    destruct (Qle_bool _ _) eqn:E.
    + apply Qle_bool_iff in E. lra.
    + apply HQ; [| simpl; lia]. repeat split; simpl; auto.
Qed.

(** X6. A finder built with a negative timeout finds nothing: on a clock
    that does not run backwards, [find_all_tessdata_paths] enters no
    probe, visits no directory and returns the empty list. *)
Theorem negative_timeout_finds_nothing :
  forall (fl : PathFlavour) (w : World) (verbose : bool) (st : state),
    (timeout (self st) < 0)%Q ->
    (forall n, clock st (ticks st) <= clock st (ticks st + n))%Q ->
    exists st',
      find_all_tessdata_paths w verbose st = (Ok [], st') /\
      events st' = events st.
Proof.
  intros fl w verbose st Ht Hmono.
  assert (H : wp (find_all_tessdata_paths w verbose)
                 (fun r st' => r = Ok [] /\ events st' = events st) st).
  { unfold find_all_tessdata_paths.
    apply wp_bind, wp_time_time. cbn [after].
    apply wp_bind, wp_modify. cbn [after].
    apply wp_bind, wp_get. cbn [after].
    apply wp_bind. cbn [firstn for_in].
    apply wp_bind, wp_bind.
    apply (wp_is_timeout_negative _ _ (clock st (ticks st))); [reflexivity | exact Ht | |].
    { cbn [clock ticks set_self set_ticks].
      replace (S (ticks st)) with (ticks st + 1)%nat by lia. apply Hmono. }
    intros st1 (Hs1 & Hc1 & _ & He1 & Hk1) Hk1'.
    cbn [after]. apply wp_ret. cbn [after]. apply wp_ret. cbn [after].
    apply wp_bind.
    apply (wp_is_timeout_negative _ _ (clock st (ticks st))).
    { rewrite Hs1. reflexivity. }
    { rewrite Hs1. exact Ht. }
    { rewrite Hc1. cbn [clock ticks set_self set_ticks] in *.
      replace (ticks st1) with (ticks st + (ticks st1 - ticks st))%nat by lia.
      apply Hmono. }
    intros st2 (Hs2 & Hc2 & _ & He2 & _) _.
    cbn [after negb andb]. apply wp_bind, wp_ret. cbn [after].
    apply wp_bind, wp_get. cbn [after]. apply wp_ret.
    rewrite Hs2, Hs1, He2, He1.
    cbn [self set_self set_ticks found_paths set_found_paths events].
    rewrite elements_empty. split; reflexivity. }
  unfold wp in H.
  destruct (find_all_tessdata_paths w verbose st) as [r st']. simpl in H.
  destruct H as [-> He]. eauto.
Qed.

Lemma ticking_monotone m n : (Scenarios.ticking m <= Scenarios.ticking (m + n))%Q.
Proof.
  unfold Scenarios.ticking. apply Qplus_le_r.
  unfold Qdiv. apply Qmult_le_compat_r; [| discriminate].
  rewrite <- Zle_Qle. lia.
Qed.

Lemma negative_timeout_finds_nothing_witness :
  exists st',
    find_all_tessdata_paths (fl := posix) Scenarios.packaged false
      (enter Scenarios.packaged (TessdataFinder_init Scenarios.packaged (-1) 4))
    = (Ok [], st') /\
    events st' = [].
Proof.
  apply (negative_timeout_finds_nothing posix Scenarios.packaged false
           (enter Scenarios.packaged (TessdataFinder_init Scenarios.packaged (-1) 4))).
  - reflexivity.
  - intros n. apply ticking_monotone.
Defined.

(** ** Search roots *)

Lemma In_firstn {A} (n : nat) (l : list A) x : In x (firstn n l) -> In x l.
Proof.
  intros H. rewrite <- (firstn_skipn n l). apply in_or_app. now left.
Qed.

(** X7. On Windows the crawl has at most four search roots: the two
    [Program Files] directories of at most two drives, each drive one of
    [C:] to [Z:] that exists, and each root a path that exists.  Off
    Windows the three roots are fixed and the filesystem is not asked. *)
Theorem get_search_roots_spec :
  forall (fl : PathFlavour) (w : World) (f : TessdataFinder),
    let roots := _get_search_roots w f in
    if (os_type f =? "windows")%string then
      (length roots <= 4)%nat /\
      Forall (fun root =>
                fs_exists w root = true /\
                exists letter,
                  In letter drive_letters /\
                  fs_exists w (String letter ":\") = true /\
                  (root = os_path_join (String letter ":\") "Program Files" \/
                   root = os_path_join (String letter ":\") "Program Files (x86)"))
             roots
    else roots = ["/usr"; "/usr/local"; "/opt"].
Proof.
  intros fl w f roots. unfold roots, _get_search_roots.
  destruct (os_type f =? "windows")%string; [| reflexivity].
  cbv zeta.
  set (drives := filter (fun drive : string => Is_true (fs_exists w drive))
                        (map (fun letter => String letter ":\") drive_letters)).
  assert (Hdrives : Forall (fun drive =>
                              exists letter, In letter drive_letters /\
                                drive = String letter ":\" /\ fs_exists w drive = true)
                           (firstn 2 drives)).
  { apply List.Forall_forall. intros drive Hin.
    apply In_firstn, list_elem_of_In, list_elem_of_filter in Hin as [Hex Hin].
    apply list_elem_of_In, in_map_iff in Hin as (letter & <- & Hl).
    apply Is_true_true in Hex. eauto. }
  split.
  - etransitivity; [apply length_filter |].
    assert (Hlen : (length (firstn 2 drives) <= 2)%nat) by apply firstn_le_length.
    clear Hdrives. revert Hlen.
    generalize (firstn 2 drives). intros l Hl.
    destruct l as [| a [| b [| c l]]]; simpl in *; lia.
  - apply List.Forall_forall. intros root Hin.
    apply list_elem_of_In, list_elem_of_filter in Hin as [Hex Hin].
    apply Is_true_true in Hex. split; [exact Hex |].
    apply list_elem_of_In, in_flat_map in Hin as (drive & Hd & Hroot).
    rewrite List.Forall_forall in Hdrives.
    destruct (Hdrives drive Hd) as (letter & Hl & -> & Hdx).
    exists letter. split; [exact Hl |]. split; [exact Hdx |].
    simpl in Hroot. destruct Hroot as [<- | [<- | []]]; auto.
Qed.

(** ** Short names *)

Lemma lower_length s : String.length (PyStr.lower s) = String.length s.
Proof. induction s as [| c s IH]; simpl; congruence. Qed.

(** X8. A directory whose name is ASCII and has fewer than three
    characters is always searched, whatever the name: no entry of the
    deny-list is that short.  This covers a path with no name at all,
    such as the filesystem root.  (The condition on the characters keeps
    the statement to the names whose length in the model is their
    [len].) *)
Theorem short_names_are_searched :
  forall (p : PurePath),
    isascii (path_name p) = true ->
    (String.length (path_name p) < 3)%nat -> _should_search_directory p = true.
Proof.
  intros p _ Hlen. apply should_search_directory_iff. cbv zeta.
  rewrite lower_length. split; [| right; exact Hlen].
  intros Hin. unfold skip_dirs in Hin. rewrite elem_of_list_to_set in Hin.
  rewrite <- (lower_length (path_name p)) in Hlen.
  repeat (apply elem_of_cons in Hin as [Heq | Hin];
          [rewrite Heq in Hlen; simpl in Hlen; lia |]).
  apply elem_of_nil in Hin. contradiction.
Qed.

Lemma short_names_are_searched_witness :
  _should_search_directory (Path (PathFlavour := posix) "/") = true /\
  _should_search_directory (Path (PathFlavour := posix) "/mnt/d") = true.
Proof.
  split.
  - apply (short_names_are_searched (Path (PathFlavour := posix) "/")).
    + vm_compute. reflexivity.
    + vm_compute. lia.
  - apply (short_names_are_searched (Path (PathFlavour := posix) "/mnt/d")).
    + vm_compute. reflexivity.
    + vm_compute. lia.
Defined.


Section ProbeFacts.

Context {fl : PathFlavour} (w : World) (verbose : bool).

Lemma wp_abspath path (Post : result string -> state -> Prop) st :
  (forall a, abspath_of w path a -> Post (Ok a) st) ->
  (forall e, os_path_isabs path = false -> getcwd w = IoErr e ->
             Post (Raise (OSError e)) st) ->
  wp (abspath w path) Post st.
Proof.
  intros Hok Herr. unfold abspath.
  destruct (os_path_isabs path) eqn:Habs.
  - apply wp_ret, Hok. unfold abspath_of. now rewrite Habs.
  - apply wp_bind, wp_lift. destruct (getcwd w) as [cwd | e] eqn:Hcwd; cbn [of_io after].
    + apply wp_ret, Hok. unfold abspath_of. rewrite Habs. eauto.
    + apply Herr; reflexivity.
Qed.

Lemma env_inv_miss done paths var :
  env_inv w done paths -> (forall c, ~ env_candidate w var c) ->
  env_inv w (done ++ [var]) paths.
Proof.
  intros (Hlen & Hsound & Hcompl) Hnone. split; [| split].
  - rewrite length_app. simpl. lia.
  - eapply List.Forall_impl; [| exact Hsound].
    intros a (var' & c & Hin & Hc & Ha). exists var', c.
    split; [apply in_or_app; now left | auto].
  - intros var' c Hin Hc. apply in_app_or in Hin as [Hin | [<- | []]].
    + eauto.
    + exfalso. eapply Hnone, Hc.
Qed.

Lemma env_inv_hit done paths var c a :
  env_inv w done paths -> env_candidate w var c ->
  (forall c', env_candidate w var c' -> c' = c) -> abspath_of w c a ->
  env_inv w (done ++ [var]) (paths ++ [a]).
Proof.
  intros (Hlen & Hsound & Hcompl) Hc Huniq Ha. split; [| split].
  - rewrite !length_app. simpl. lia.
  - apply Forall_app. split.
    + eapply List.Forall_impl; [| exact Hsound].
      intros a' (var' & c' & Hin & Hc' & Ha'). exists var', c'.
      split; [apply in_or_app; now left | auto].
    + repeat constructor. exists var, c.
      split; [apply in_or_app; right; now left | auto].
  - intros var' c' Hin Hc'. apply in_app_or in Hin as [Hin | [<- | []]].
    + destruct (Hcompl var' c' Hin Hc') as (a' & Ha' & Hin').
      exists a'. split; [exact Ha' | apply in_or_app; now left].
    + apply Huniq in Hc'. subst c'. exists a.
      split; [exact Ha | apply in_or_app; right; now left].
Qed.

Lemma check_environment_vars_spec st :
  wp (_check_environment_vars w verbose) (env_post w st) st.
Proof.
  unfold _check_environment_vars. apply wp_bind, wp_log. cbn [after].
  set (st0 := add_events [EvProbe "_check_environment_vars"] st).
  apply wp_for_in with
    (I := fun rest paths st' =>
            st' = st0 /\ exists done, env_vars = done ++ rest /\ env_inv w done paths).
  - intros var rest paths st1 (-> & done & Hsplit & Hinv).
    assert (Hnext : forall paths', env_inv w (done ++ [var]) paths' ->
              st0 = st0 /\ exists done', env_vars = done' ++ rest /\ env_inv w done' paths').
    { intros paths' H. split; [reflexivity |]. exists (done ++ [var]).
      split; [now rewrite <- app_assoc | exact H]. }
    destruct (environ w var) as [value |] eqn:Henv.
    + destruct (value =? "")%string eqn:Hempty.
      * apply wp_ret, Hnext, env_inv_miss; [exact Hinv |].
        intros c (value' & Hv & Hne & _). apply String.eqb_eq in Hempty. congruence.
      * apply String.eqb_neq in Hempty.
        apply wp_bind. cbn [for_in].
        apply wp_bind, wp_bind, wp_is_valid. intros valid Hvalid. cbn [after].
        destruct valid.
        -- assert (Hc : env_candidate w var value).
           { exists value. split; [exact Henv |]. split; [exact Hempty |].
             left. split; [reflexivity | now apply Hvalid]. }
           assert (Huniq : forall c', env_candidate w var c' -> c' = value).
           { intros c' (value' & Hv & _ & [[-> _] | (_ & Hno & _)]); [congruence |].
             exfalso. apply Hno. replace value' with value by congruence.
             now apply Hvalid. }
           apply wp_bind, wp_abspath.
           ++ intros a Ha. cbn [after]. apply wp_ret. cbn [after]. apply wp_ret.
              cbn [after]. apply wp_ret. eapply Hnext, env_inv_hit; eauto.
           ++ intros e _ He. cbn [after]. split; [reflexivity | eauto].
        -- assert (Hno : ~ holds_traineddata w value).
           { intros H. apply Hvalid in H. discriminate. }
           apply wp_ret. cbn [after].
           apply wp_bind, wp_bind, wp_is_valid. intros valid' Hvalid'. cbn [after].
           destruct valid'.
           ++ assert (Hc : env_candidate w var (os_path_join value "tessdata")).
              { exists value. split; [exact Henv |]. split; [exact Hempty |].
                right. split; [reflexivity |]. split; [exact Hno | now apply Hvalid']. }
              assert (Huniq : forall c', env_candidate w var c' ->
                                         c' = os_path_join value "tessdata").
              { intros c' (value' & Hv & _ & [[-> Hyes] | (-> & _)]).
                - exfalso. apply Hno. now replace value with value' by congruence.
                - congruence. }
              apply wp_bind, wp_abspath.
              ** intros a Ha. cbn [after]. apply wp_ret. cbn [after]. apply wp_ret.
                 cbn [after]. apply wp_ret. eapply Hnext, env_inv_hit; eauto.
              ** intros e _ He. cbn [after]. split; [reflexivity | eauto].
           ++ apply wp_ret. cbn [after]. apply wp_bind, wp_ret. cbn [after].
              apply wp_ret. cbn [after]. apply wp_ret.
              apply Hnext, env_inv_miss; [exact Hinv |].
              intros c (value' & Hv & _ & [[-> Hyes] | (-> & _ & Hyes)]).
              ** apply Hno. now replace value with value' by congruence.
              ** assert (H : holds_traineddata w (os_path_join value "tessdata"))
                   by now replace value with value' by congruence.
                 apply Hvalid' in H. discriminate.
    + apply wp_ret, Hnext, env_inv_miss; [exact Hinv |].
      intros c (value' & Hv & _). congruence.
  - intros paths st1 (-> & done & Hsplit & Hinv).
    apply wp_bind, wp_ret. cbn [after]. apply wp_ret.
    split; [reflexivity |]. rewrite app_nil_r in Hsplit. now subst done.
  - split; [reflexivity |]. exists []. split; [reflexivity |].
    split; [simpl; lia |]. split; [constructor |]. intros var c [].
Qed.

Lemma check_common_locations_spec st :
  wp (_check_common_locations w verbose) (common_post w st) st.
Proof.
  unfold _check_common_locations. apply wp_bind, wp_log. cbn [after].
  apply wp_bind, wp_get. cbn [after].
  set (st0 := add_events [EvProbe "_check_common_locations"] st).
  change (self st0) with (self st).
  set (templates := _get_common_tessdata_paths (self st)).
  set (frame := fun st' : state =>
                  self st' = self st /\ clock st' = clock st /\ found st' = found st /\
                  events st' = events st ++ [EvProbe "_check_common_locations"]).
  assert (Hframe : forall st1 st2, frame st1 -> same_but_ticks st1 st2 -> frame st2).
  { intros st1 st2 (H1 & H2 & H3 & H4) (H1' & H2' & H3' & H4' & _).
    unfold frame. repeat split; congruence. }
  apply wp_for_in with
    (I := fun rest paths st' =>
            frame st' /\
            exists done, templates = done ++ rest /\
              (length paths <= length done)%nat /\
              Forall (common_hit w (self st)) paths).
  - intros template rest paths st1 (Hf & done & Hsplit & Hlen & Hsound).
    apply wp_bind, wp_is_timeout. intros expired st2 Hticks. cbn [after].
    assert (Hf2 := Hframe _ _ Hf Hticks).
    assert (Hdone : forall paths', (length paths' <= length done)%nat ->
              Forall (common_hit w (self st)) paths' -> common_post w st (Ok paths') st2).
    { intros paths' Hlen' Hsound'. destruct Hf2 as (H1 & H2 & H3 & H4).
      repeat split; auto. exists paths'. split; [reflexivity |]. split; [| exact Hsound'].
      fold templates. rewrite Hsplit, length_app. lia. }
    assert (Hnext : forall paths', (length paths' <= S (length done))%nat ->
              Forall (common_hit w (self st)) paths' ->
              frame st2 /\
              exists done', templates = done' ++ rest /\
                (length paths' <= length done')%nat /\
                Forall (common_hit w (self st)) paths').
    { intros paths' Hlen' Hsound'. split; [exact Hf2 |]. exists (done ++ [template]).
      rewrite <- app_assoc. split; [exact Hsplit |].
      rewrite length_app. simpl. split; [lia | exact Hsound']. }
    destruct expired; [apply wp_ret, Hdone; auto |].
    apply wp_try_except.
    destruct (os_path_isdir w _) eqn:Hdir; [| apply wp_ret, Hnext; auto].
    apply wp_bind, wp_is_valid. intros valid Hvalid. cbn [after].
    destruct valid; [| apply wp_ret, Hnext; auto].
    apply wp_bind, wp_abspath.
    + intros a Ha. cbn [after]. apply wp_ret. apply Hnext.
      * rewrite length_app. simpl. lia.
      * apply Forall_app. split; [exact Hsound |]. repeat constructor.
        exists template. split.
        -- fold templates. rewrite Hsplit. apply in_or_app. right. now left.
        -- cbv zeta. split; [exact Hdir |]. split; [now apply Hvalid | exact Ha].
    + intros e _ _. cbn [after is_Exception]. apply wp_ret, Hnext; auto.
  - intros paths st1 (Hf & done & Hsplit & Hlen & Hsound).
    apply wp_bind, wp_ret. cbn [after]. apply wp_ret.
    destruct Hf as (H1 & H2 & H3 & H4). repeat split; auto.
    exists paths. split; [reflexivity |]. split; [| exact Hsound].
    fold templates. rewrite Hsplit, app_nil_r. exact Hlen.
  - split; [repeat split |]. exists []. split; [reflexivity |].
    split; [simpl; lia | constructor].
Qed.

End ProbeFacts.

(** X9. Called with [verbose=False], the environment probe returns at
    most one path per variable, in the order of the variables.  Every
    path it returns is the absolute form of the candidate of one of the
    three variables: the value of the variable if that is a tessdata
    directory, else its [tessdata] child if that is one.  Every variable
    that has such a candidate contributes it: an unset or empty
    variable, and one neither of whose candidates is a tessdata
    directory, contributes nothing.  The probe changes nothing in the
    state of the finder; it raises only when [os.getcwd] does. *)
Theorem check_environment_vars_finds_candidates :
  forall (fl : PathFlavour) (w : World) (st : state),
    snd (_check_environment_vars w false st)
    = add_events [EvProbe "_check_environment_vars"] st /\
    match fst (_check_environment_vars w false st) with
    | Ok paths =>
        (length paths <= 3)%nat /\
        Forall (fun a => exists var c,
                    In var env_vars /\ env_candidate w var c /\ abspath_of w c a) paths /\
        (forall var c, In var env_vars -> env_candidate w var c ->
                       exists a, abspath_of w c a /\ In a paths)
    | Raise e => exists os, e = OSError os /\ getcwd w = IoErr os
    | OutOfFuel => False
    end.
Proof.
  intros fl w st.
  pose proof (check_environment_vars_spec w false st) as H. unfold wp in H.
  destruct H as [Hst Hr]. split; [exact Hst |].
  destruct (fst (_check_environment_vars w false st)); exact Hr.
Qed.

(** X10. The common-location probe never raises, whatever the filesystem
    and [os.getcwd] do.  It returns at most one path per template of the
    platform's list; each is the absolute form of an expanded template
    that is a directory holding trained data.  It leaves the finder
    object as it was. *)
Theorem check_common_locations_never_raises :
  forall (fl : PathFlavour) (w : World) (verbose : bool) (st : state),
    exists paths st',
      _check_common_locations w verbose st = (Ok paths, st') /\
      self st' = self st /\
      events st' = events st ++ [EvProbe "_check_common_locations"] /\
      (length paths <= length (_get_common_tessdata_paths (self st)))%nat /\
      Forall (fun a =>
                exists template,
                  In template (_get_common_tessdata_paths (self st)) /\
                  let expanded := expandvars w (expanduser w template) in
                  os_path_isdir w expanded = true /\
                  holds_traineddata w expanded /\
                  abspath_of w expanded a) paths.
Proof.
  intros fl w verbose st.
  pose proof (check_common_locations_spec w verbose st) as H. unfold wp in H.
  destruct (_check_common_locations w verbose st) as [r st'].
  destruct H as (Hs & _ & _ & He & paths & Hr & Hlen & Hsound).
  simpl in Hr. subst r. exists paths, st'. auto.
Qed.


(** ** What the crawl records *)

Lemma crawl_event_hit {fl : PathFlavour} w f root q a :
  crawl_event w (max_depth_of f) (Path root) 0 (EvFound q a) ->
  crawl_hit_below w f root a.
Proof.
  intros (names & q' & Hr & Hd & -> & Hname & Hvalid & Hres).
  exists names, q'. split; [exact Hr |]. split; [lia | auto].
Qed.

(** X11. The crawl of one root never raises.  Every path it returns is the
    resolved path of a directory named exactly [tessdata] that holds a
    [.traineddata] entry and lies at most [max_depth] levels below the
    root, below directories that the pruning rule accepts. *)
Theorem search_directory_tree_sound :
  forall (fl : PathFlavour) (w : World) (root : string) (verbose : bool) (st : state),
    exists paths st',
      _search_directory_tree w root verbose st = (Ok paths, st') /\
      self st' = self st /\
      Forall (fun a =>
                exists names q,
                  reaches (Path root) names q /\
                  (length names <= max_depth_of (self st))%nat /\
                  path_name q = "tessdata" /\
                  holds_traineddata w (str q) /\
                  fs_resolve w (str q) = Returns a) paths.
Proof.
  intros fl w root verbose st.
  destruct (search_directory_tree_spec w verbose root st)
    as (st' & Hrun & Hs & _ & l & _ & Hf & Hp).
  exists (found st'), st'. split; [exact Hrun |]. split; [exact Hs |].
  rewrite Hf. apply List.Forall_forall. intros a Ha.
  destruct (found_of_In _ _ Ha) as [q Hq].
  rewrite List.Forall_forall in Hp.
  apply (crawl_event_hit w (self st) root q a), Hp, Hq.
Qed.

(** ** Where the crawl walks *)

Section WalkFacts.

Context {fl : PathFlavour} (w : World) (verbose : bool) (max_depth : nat).

Lemma walk_event_child p name e :
  (exists entries, fs_iterdir w (str p) = IoOk entries /\ In name entries) ->
  fs_is_dir w (str (path_child p name)) = IoOk true ->
  fs_is_symlink w (str (path_child p name)) = IoOk false ->
  ~ (path_name p = "tessdata" /\ holds_traineddata w (str p)) ->
  walk_event w (path_child p name) e -> walk_event w p e.
Proof.
  intros Hlist Hdir Hlink Hhit (names & q & He & Hw).
  exists (name :: names), q. split; [exact He |]. simpl. auto.
Qed.

Lemma walk_event_here p e : event_path e = Some p -> walk_event w p e.
Proof. intros H. exists [], p. split; [exact H | reflexivity]. Qed.

Lemma recursive_search_walks fuel :
  forall p depth st,
    wp (_recursive_search w fuel verbose max_depth p depth)
       (fun _ st' => extends (walk_event w p) st st') st.
Proof.
  induction fuel as [| fuel IH]; intros p depth st.
  - apply extends_refl.
  - cbn [_recursive_search]. apply wp_bind.
    destruct (max_depth <? depth)%nat.
    { apply wp_ret. cbn [after]. apply wp_ret, extends_refl. }
    apply wp_is_timeout. intros expired st1 H1. cbn [after].
    destruct expired; [apply wp_ret, extends_ticks, H1 |].
    apply wp_bind, wp_log. cbn [after].
    assert (Hvisit : extends (walk_event w p) st (add_events [EvVisit p] st1)).
    { eapply extends_trans; [apply extends_ticks, H1 |].
      apply extends_log; [| exact I]. now apply walk_event_here. }
    clear H1. revert Hvisit. generalize (add_events [EvVisit p] st1).
    clear st1. intros st1 H1.
    apply wp_try_except.
    set (Q := fun (r : result unit) (st' : state) =>
                match r with
                | Raise e => if is_OSError e
                             then wp (ret tt) (fun _ st'' => extends (walk_event w p) st st'') st'
                             else extends (walk_event w p) st st'
                | _ => extends (walk_event w p) st st'
                end).
    assert (HQ : forall r st', extends (walk_event w p) st st' -> Q r st').
    { intros [[] | e |] st' He; unfold Q; auto. destruct (is_OSError e); auto. }
    assert (Hlist : forall st2,
              ~ (path_name p = "tessdata" /\ holds_traineddata w (str p)) ->
              extends (walk_event w p) st st2 ->
              wp (if _should_search_directory p
                  then
                    log (EvList p) ;;;
                    names <- io_call (fs_iterdir w (str p)) ;;
                    for_in names (ret tt) tt (fun _ name =>
                      let child := path_child p name in
                      is_dir <- io_call (fs_is_dir w (str child)) ;;
                      is_link <- (if is_dir
                                  then io_call (fs_is_symlink w (str child))
                                  else ret false) ;;
                      if is_dir && negb is_link then
                        _recursive_search w fuel verbose max_depth child (S depth) ;;;
                        ret (Continue tt)
                      else ret (Continue tt))
                  else ret tt) Q st2).
    { intros st2 Hnohit H2. destruct (_should_search_directory p);
        [| apply wp_ret, HQ; auto].
      apply wp_bind, wp_log. cbn [after].
      assert (H3 : extends (walk_event w p) st (add_events [EvList p] st2)).
      { eapply extends_trans; [exact H2 |]. apply extends_log; [| exact I].
        now apply walk_event_here. }
      revert H3. generalize (add_events [EvList p] st2). clear st2 H2.
      intros st2 H2.
      apply wp_bind, wp_lift.
      destruct (fs_iterdir w (str p)) as [names | e] eqn:Hnames; cbn [of_io after];
        [| apply (HQ (Raise (OSError e))); auto].
      apply wp_for_in with
        (I := fun rest _ st' =>
                (forall name, In name rest -> In name names) /\
                extends (walk_event w p) st st'); [| | auto].
      - intros name rest [] st3 [Hsub H3].
        assert (Hin : In name names) by (apply Hsub; now left).
        assert (Hsub' : forall name', In name' rest -> In name' names)
          by (intros name' H; apply Hsub; now right).
        apply wp_bind, wp_lift.
        destruct (fs_is_dir w (str (path_child p name))) as [is_dir | e] eqn:Hdir;
          cbn [of_io after]; [| apply (HQ (Raise (OSError e))); auto].
        apply wp_bind.
        destruct is_dir; cbn [andb].
        + apply wp_lift.
          destruct (fs_is_symlink w (str (path_child p name))) as [is_link | e] eqn:Hlink;
            cbn [of_io after]; [| apply (HQ (Raise (OSError e))); auto].
          destruct is_link; cbn [negb]; [apply wp_ret; auto |].
          apply wp_bind. eapply wp_mono; [| apply IH].
          intros r st4 H4.
          assert (H4' : extends (walk_event w p) st st4).
          { eapply extends_trans; [exact H3 |].
            eapply extends_weaken; [| exact H4].
            intros e. apply walk_event_child; eauto. }
          destruct r as [[] | e |]; cbn [after].
          * apply wp_ret. auto.
          * apply HQ, H4'.
          * apply HQ, H4'.
        + apply wp_ret. cbn [after]. apply wp_ret. auto.
      - intros [] st3 [_ H3]. apply wp_bind, wp_ret. cbn [after]. apply wp_ret.
        apply (HQ (Ok tt)), H3. }
    apply wp_bind.
    destruct (path_name p =? "tessdata")%string eqn:Hname.
    + apply wp_is_valid. intros hit Hhit. cbn [after].
      destruct hit.
      * apply wp_bind, wp_lift.
        destruct (fs_resolve w (str p)) as [abs_path | e]; cbn [of_outcome after];
          [| apply (HQ (Raise e)); auto].
        apply wp_bind, wp_modify. cbn [after]. apply wp_log.
        apply (HQ (Ok tt)).
        eapply extends_trans; [exact H1 |]. apply extends_record.
        now apply walk_event_here.
      * apply Hlist; [| exact H1]. intros [_ H]. apply Hhit in H. discriminate.
    + apply wp_ret. cbn [after]. apply Hlist; [| exact H1].
      apply String.eqb_neq in Hname. intros [H _]. contradiction.
Qed.

End WalkFacts.

Lemma walks_end {fl : PathFlavour} w p names q :
  walks w p names q -> names <> [] ->
  fs_is_dir w (str q) = IoOk true /\ fs_is_symlink w (str q) = IoOk false.
Proof.
  revert p. induction names as [| name rest IH]; intros p Hw Hne; [contradiction |].
  simpl in Hw. destruct Hw as (_ & Hdir & Hlink & _ & Hw).
  destruct rest as [| name' rest'].
  - simpl in Hw. subst q. auto.
  - eapply IH; [exact Hw | discriminate].
Qed.

(** X12. The crawl follows no symbolic link and looks at nothing it was
    not shown: every directory it visits, lists or records is the root
    or an entry that the listing of its parent reported, that is a
    directory and is not a symbolic link, all the way down from the
    root; and it never goes below a directory it records. *)
Theorem crawl_follows_no_symlink :
  forall (fl : PathFlavour) (w : World) (root : string) (verbose : bool) (st : state),
    exists r st' l,
      _search_directory_tree w root verbose st = (r, st') /\
      events st' = events st ++ l /\
      forall e q, In e l -> event_path e = Some q ->
        exists names,
          walks w (Path root) names q /\
          (q = Path root \/
           (fs_is_dir w (str q) = IoOk true /\ fs_is_symlink w (str q) = IoOk false)).
Proof.
  intros fl w root verbose st.
  assert (H : wp (_search_directory_tree w root verbose)
                 (fun _ st' => exists l, events st' = events st ++ l /\
                                 Forall (walk_event w (Path root)) l) st).
  { unfold _search_directory_tree, _search_directory_tree_fuel.
    apply wp_bind, wp_get. cbn [after].
    apply wp_bind, wp_modify. cbn [after].
    apply wp_bind, wp_get. cbn [after].
    apply wp_bind, wp_try_except.
    eapply wp_mono; [| apply recursive_search_walks].
    intros r st' (_ & _ & l & He & Hp & _).
    assert (Hdone : wp (st'' <- get ;; ret (found st''))
                       (fun _ st'' => exists l, events st'' = events st ++ l /\
                                        Forall (walk_event w (Path root)) l) st').
    { apply wp_bind, wp_get. cbn [after]. apply wp_ret. eauto. }
    destruct r as [[] | e |]; cbn [is_Exception after]; eauto. }
  unfold wp in H.
  destruct (_search_directory_tree w root verbose st) as [r st'].
  destruct H as (l & He & Hp). cbn [fst snd] in *.
  exists r, st', l. split; [reflexivity |]. split; [exact He |].
  intros e q Hin Hq. rewrite List.Forall_forall in Hp.
  destruct (Hp e Hin) as (names & q' & Hq' & Hw).
  assert (q' = q) as -> by congruence.
  exists names. split; [exact Hw |].
  destruct names as [| name rest]; [left; exact Hw | right].
  eapply walks_end; [exact Hw | discriminate].
Qed.

(** ** What the crawl probe raises *)

Lemma is_timeout_add_events l st :
  _is_timeout (add_events l st)
  = (fst (_is_timeout st), add_events l (snd (_is_timeout st))).
Proof.
  unfold _is_timeout, _elapsed, bind, get, time_time, ret. simpl.
  destruct (start_time (self st)) as [s |]; [| reflexivity].
  destruct (Qeq_bool s 0); reflexivity.
Qed.

Section SmartOutcomes.

Context {fl : PathFlavour} (w : World) (verbose : bool).

Lemma total_search_directory_tree root : total (_search_directory_tree w root verbose).
Proof.
  intros st. destruct (search_directory_tree_spec w verbose root st) as (st' & -> & _).
  discriminate.
Qed.

Lemma crawl_tasks_total f roots k :
  Forall (fun tc : M (list string) * (nat -> Q) =>
            let out := fst tc (mkState f (snd tc) 0 [] []) in
            Forall (fun _ : event => True) (events (snd out)) /\ fst out <> OutOfFuel)
         (map (fun '(i, root) => (_search_directory_tree w root verbose, time_crawl w i))
              (combine (seq k (length roots)) roots)).
Proof.
  revert k. induction roots as [| root rest IH]; intros k; simpl; constructor.
  - split; [apply Forall_all; auto | apply total_search_directory_tree].
  - apply IH.
Qed.

Lemma search_filesystem_smart_outcomes st :
  let n := Z.min (Z.of_nat (length (_get_search_roots w (self st))))
                 (max_workers (self st)) in
  match fst (_is_timeout st) with
  | Ok true => fst (_search_filesystem_smart w verbose st) = Ok []
  | Ok false =>
      if (n <=? 0)%Z
      then fst (_search_filesystem_smart w verbose st) = Raise ValueError
      else match fst (_search_filesystem_smart w verbose st) with
           | Ok _ => True
           | Raise e => e = FuturesTimeoutError
           | OutOfFuel => False
           end
  | _ => False
  end.
Proof.
  intros n.
  destruct (returns_is_timeout st) as [expired He].
  pose proof (wp_is_timeout (fun _ st' => self st' = self st) st
                (fun b st' H => proj1 H)) as Hself.
  unfold wp in Hself.
  change (wp (_search_filesystem_smart w verbose)
             (fun r _ =>
                match fst (_is_timeout st) with
                | Ok true => r = Ok []
                | Ok false =>
                    if (n <=? 0)%Z then r = Raise ValueError
                    else match r with
                         | Ok _ => True
                         | Raise e => e = FuturesTimeoutError
                         | OutOfFuel => False
                         end
                | _ => False
                end) st).
  unfold _search_filesystem_smart.
  apply wp_bind, wp_log. cbn [after].
  apply wp_bind. unfold wp at 1. rewrite is_timeout_add_events.
  destruct (_is_timeout st) as [r st1]. simpl in He. subst r. cbn [fst snd] in *.
  cbn [after].
  destruct expired; [apply wp_ret; reflexivity |].
  apply wp_bind, wp_get. cbn [after self add_events]. rewrite Hself. fold n.
  apply wp_bind. unfold ThreadPoolExecutor.
  destruct (n <=? 0)%Z; [apply wp_raise; reflexivity |].
  apply wp_ret. cbn [after].
  set (st2 := add_events [EvProbe "_search_filesystem_smart"] st1).
  apply wp_bind.
  destruct (submit_each_spec (fun _ => True)
              (fun (r : result (list string)) _ => r <> OutOfFuel)
              (map (fun '(i, root) =>
                      (_search_directory_tree w root verbose, time_crawl w i))
                   (enumerate (_get_search_roots w (self st))))
              (fun r l l1 l2 H => H) st2) as (futs & l & Hsub & _ & Hfuts).
  { apply crawl_tasks_total. }
  unfold wp at 1. rewrite Hsub. cbn [fst snd after].
  apply wp_bind, wp_elapsed. intros e st3 _. cbn [after].
  match goal with
  | |- context [as_completed futs ?order] =>
      destruct (as_completed futs order) as [completed pending] eqn:Hac
  end.
  assert (Hcompleted : Forall (fun fut => fut <> OutOfFuel) completed).
  { apply List.Forall_forall. intros fut Hin.
    rewrite List.Forall_forall in Hfuts. apply Hfuts.
    eapply as_completed_In. rewrite Hac. exact Hin. }
  apply wp_for_in with
    (I := fun rest (_ : list string) (_ : state) =>
            Forall (fun fut => fut <> OutOfFuel) rest);
    [| | exact Hcompleted].
  - intros fut rest paths st4 Hrest. apply Forall_cons in Hrest as [Hfut Hrest].
    apply wp_bind, wp_is_timeout. intros expired st5 _. cbn [after].
    destruct expired; [apply wp_ret; exact I |].
    apply wp_try_except, wp_bind, wp_lift.
    destruct fut as [found_paths | e' |]; cbn [after is_Exception]; [| | contradiction].
    + apply wp_ret. exact Hrest.
    + apply wp_ret. exact Hrest.
  - intros paths st4 _. apply wp_bind. unfold as_completed_end.
    destruct pending.
    + apply wp_raise. reflexivity.
    + apply wp_ret. cbn [after]. apply wp_ret. exact I.
Qed.

End SmartOutcomes.

(** X13. When the crawl probe raises [ValueError].  If the budget check
    on entry reports expiry the probe returns the empty list.
    Otherwise it raises [ValueError], from the construction of the pool,
    exactly when [min(len(search_roots), max_workers)] is not positive,
    as it is on a Windows machine without a [Program Files] directory
    or for a finder built with [max_workers <= 0]. *)
Theorem search_filesystem_smart_raises :
  forall (fl : PathFlavour) (w : World) (verbose : bool) (st : state),
    let n := Z.min (Z.of_nat (length (_get_search_roots w (self st))))
                   (max_workers (self st)) in
    match fst (_is_timeout st) with
    | Ok true => fst (_search_filesystem_smart w verbose st) = Ok []
    | Ok false =>
        if (n <=? 0)%Z
        then fst (_search_filesystem_smart w verbose st) = Raise ValueError
        else fst (_search_filesystem_smart w verbose st) <> Raise ValueError
    | _ => False
    end.
Proof.
  intros fl w verbose st n.
  pose proof (search_filesystem_smart_outcomes w verbose st) as H.
  cbv zeta in H. fold n in H.
  destruct (fst (_is_timeout st)) as [[|] | |]; try exact H.
  destruct (n <=? 0)%Z; [exact H |].
  destruct (fst (_search_filesystem_smart w verbose st)) as [paths | e |];
    [discriminate | | discriminate].
  subst e. discriminate.
Qed.

Lemma smart_event_hit {fl : PathFlavour} w f q a :
  smart_event w f (EvFound q a) -> crawl_hit w f a.
Proof.
  intros [H | (root & Hroot & Hev)]; [discriminate |].
  exists root. split; [exact Hroot |]. eapply crawl_event_hit, Hev.
Qed.

(** X14. Every path the crawl probe returns was recorded by the crawl of
    one of the search roots: it is the resolved path of a directory
    named [tessdata] that holds trained data, at most [max_depth] levels
    below that root.  The probe leaves the finder object as it was. *)
Theorem search_filesystem_smart_sound :
  forall (fl : PathFlavour) (w : World) (verbose : bool) (st : state),
    self (snd (_search_filesystem_smart w verbose st)) = self st /\
    match fst (_search_filesystem_smart w verbose st) with
    | Ok paths =>
        Forall (fun a =>
                  exists root names q,
                    In root (_get_search_roots w (self st)) /\
                    reaches (Path root) names q /\
                    (length names <= max_depth_of (self st))%nat /\
                    path_name q = "tessdata" /\
                    holds_traineddata w (str q) /\
                    fs_resolve w (str q) = Returns a) paths
    | _ => True
    end.
Proof.
  intros fl w verbose st.
  pose proof (search_filesystem_smart_spec w verbose st) as H. unfold wp in H.
  destruct (_search_filesystem_smart w verbose st) as [r st'].
  destruct H as (Hs & _ & l & _ & Hp & Hr). cbn [fst snd] in *.
  split; [exact Hs |]. destruct r as [paths | e |]; auto.
  apply List.Forall_forall. intros a Ha. destruct (Hr a Ha) as [q Hq].
  rewrite List.Forall_forall in Hp.
  destruct (smart_event_hit w (self st) q a (Hp _ Hq))
    as (root & Hroot & names & q' & H).
  exists root, names, q'. auto.
Qed.


Section PipelineSpec.

Context {fl : PathFlavour} (w : World) (verbose : bool).

Lemma origin_config f f' p : os_type f' = os_type f -> origin w f' p -> origin w f p.
Proof.
  intros Hos [H | [H | [H | H]]].
  - now left.
  - right. left. destruct H as (root & Hroot & names & q & Hr & Hd & H).
    exists root. split.
    + unfold _get_search_roots in *. now rewrite <- Hos.
    + exists names, q. split; [exact Hr |]. split; [| exact H].
      unfold max_depth_of in *. now rewrite <- Hos.
  - right. right. now left.
  - right. right. right. now rewrite <- Hos.
Qed.

Lemma good_check_environment_vars : good_probe w verbose (_check_environment_vars w).
Proof.
  intros st. eapply wp_mono; [| apply check_environment_vars_spec].
  intros r st' [-> Hr]. split; [reflexivity |]. split; [reflexivity |].
  destruct r as [paths | e |]; [| exact I | exact Hr].
  destruct Hr as (_ & Hsound & _).
  eapply List.Forall_impl; [| exact Hsound].
  intros a (var & c & _ & (value & _ & _ & Hcases) & Ha). left. exists c.
  split; [| exact Ha]. destruct Hcases as [[-> Hc] | (_ & _ & Hc)]; exact Hc.
Qed.

Lemma good_check_tesseract_binary_info :
  good_probe w verbose (_check_tesseract_binary_info w).
Proof.
  intros st. unfold _check_tesseract_binary_info.
  apply wp_bind, wp_log. cbn [after]. apply wp_lift.
  split; [reflexivity |]. split; [reflexivity |].
  destruct (binary_info w) as [l | e] eqn:Hb; cbn [of_outcome]; [| exact I].
  apply List.Forall_forall. intros p Hp. right. right. left. eauto.
Qed.

Lemma good_check_common_locations : good_probe w verbose (_check_common_locations w).
Proof.
  intros st. eapply wp_mono; [| apply check_common_locations_spec].
  intros r st' (Hs & Hc & _ & _ & paths & -> & _ & Hsound).
  split; [exact Hs |]. split; [exact Hc |].
  eapply List.Forall_impl; [| exact Hsound].
  intros a (template & _ & _ & Hv & Ha). left. eauto.
Qed.

Lemma good_check_registry_windows : good_probe w verbose (_check_registry_windows w).
Proof.
  intros st. unfold _check_registry_windows.
  apply wp_bind, wp_log. cbn [after]. apply wp_bind, wp_get. cbn [after].
  cbn [self add_events].
  destruct (winreg w) eqn:Hreg; cbn [negb orb].
  - destruct (os_type (self st) =? "windows")%string eqn:Hos; cbn [negb].
    + apply wp_lift. split; [reflexivity |]. split; [reflexivity |].
      destruct (registry_info w) as [l | e] eqn:Hl; cbn [of_outcome]; [| exact I].
      apply List.Forall_forall. intros p Hp. right. right. right.
      apply String.eqb_eq in Hos. eauto.
    + apply wp_ret. repeat split. constructor.
  - apply wp_ret. repeat split. constructor.
Qed.

Lemma good_dummy_method : good_probe w verbose _dummy_method.
Proof. intros st. apply wp_ret. repeat split. constructor. Qed.

Lemma good_search_filesystem_smart : good_probe w verbose (_search_filesystem_smart w).
Proof.
  intros st. eapply wp_mono; [| apply search_filesystem_smart_spec].
  intros r st' (Hs & Hc & l & _ & Hp & Hr).
  split; [exact Hs |]. split; [exact Hc |].
  destruct r as [paths | e |]; [| exact I | exact Hr].
  apply List.Forall_forall. intros a Ha. destruct (Hr a Ha) as [q Hq].
  rewrite List.Forall_forall in Hp. right. left.
  eapply smart_event_hit, Hp, Hq.
Qed.

(** A budget check on a thread whose budget holds reports no expiry. *)
Lemma wp_is_timeout_alive (Post : result bool -> state -> Prop) st :
  (forall b st', same_but_ticks st st' ->
     ((0 <= timeout (self st))%Q ->
      (forall s, start_time (self st) = Some s ->
                 (clock st (ticks st) - s <= timeout (self st))%Q) ->
      b = false) ->
     Post (Ok b) st') ->
  wp _is_timeout Post st.
Proof.
  intros HPost. unfold wp.
  destruct (start_time (self st)) as [s |] eqn:Hs.
  - destruct (Qeq_bool s 0) eqn:Hz.
    + rewrite (is_timeout_unstarted st); [| now rewrite Hs]. cbn [fst snd].
      apply HPost; [repeat split; auto |].
      intros Ht _. apply Qle_bool_iff in Ht. now rewrite Ht.
    + rewrite (is_timeout_started st s Hs Hz). cbn [fst snd].
      apply HPost; [repeat split; simpl; auto |].
      intros _ Hle. specialize (Hle s eq_refl). apply Qle_bool_iff in Hle.
      now rewrite Hle.
  - rewrite (is_timeout_unstarted st); [| now rewrite Hs]. cbn [fst snd].
    apply HPost; [repeat split; auto |].
    intros Ht _. apply Qle_bool_iff in Ht. now rewrite Ht.
Qed.

Lemma find_all_spec st :
  wp (find_all_tessdata_paths w verbose) (find_all_post w st) st.
Proof.
  unfold find_all_tessdata_paths.
  apply wp_bind, wp_time_time. cbn [after].
  apply wp_bind, wp_modify. cbn [after].
  apply wp_bind, wp_get. cbn [after self set_ticks set_self].
  set (t0 := clock st (ticks st)).
  set (f0 := set_found_paths ∅ (set_start_time (Some t0) (self st))).
  set (tier2 := if (os_type f0 =? "windows")%string
                then _check_registry_windows w else _dummy_method).
  assert (Htier2 : good_probe w verbose tier2).
  { unfold tier2. destruct (_ =? _)%string;
      [apply good_check_registry_windows | apply good_dummy_method]. }
  clearbody tier2.
  set (inv := fun st' : state =>
                clock st' = clock st /\
                exists S : gset string,
                  self st' = set_found_paths S f0 /\
                  forall p, p ∈ S -> origin w (self st) p).
  (* the states of the caller's thread *)
  assert (Hticks : forall st1 st2, inv st1 -> same_but_ticks st1 st2 -> inv st2).
  { intros st1 st2 (Hc & S & Hs & HS) (Hs' & Hc' & _). split; [congruence |].
    exists S. split; [congruence | exact HS]. }
  assert (Hadd : forall st1 paths,
            inv st1 -> Forall (origin w (self st)) paths ->
            inv (set_self (set_found_paths (found_paths (self st1) ∪ list_to_set paths)
                                           (self st1)) st1)).
  { intros st1 paths (Hc & S & Hs & HS) Hp. split; [exact Hc |].
    exists (S ∪ list_to_set paths). cbn [self set_self]. rewrite Hs. split; [reflexivity |].
    intros p Hin. cbn [found_paths set_found_paths] in Hin.
    apply elem_of_union in Hin as [Hin | Hin]; [auto |].
    apply elem_of_list_to_set, list_elem_of_In in Hin.
    rewrite List.Forall_forall in Hp. auto. }
  assert (Halive : forall st1 b,
            inv st1 ->
            ((0 <= timeout (self st1))%Q ->
             (forall s, start_time (self st1) = Some s ->
                        (clock st1 (ticks st1) - s <= timeout (self st1))%Q) ->
             b = false) ->
            budget_holds st -> b = false).
  { intros st1 b (Hc & S & Hs & _) Hb [Ht Hle]. apply Hb.
    - rewrite Hs. exact Ht.
    - intros s. rewrite Hs, Hc. cbn [start_time set_found_paths f0 set_start_time].
      intros [= <-]. apply Hle. }
  (* reaching the end *)
  assert (Hfinish : forall st1,
            inv st1 -> (budget_holds st -> (max_workers (self st) <= 0)%Z -> False) ->
            wp (st'' <- get ;;
                ret (_prioritize_paths (elements (found_paths (self st'')))))
               (find_all_post w st) st1).
  { intros st1 (Hc & S & Hs & HS) Hno. apply wp_bind, wp_get. cbn [after]. apply wp_ret.
    split; [exact Hc |]. split; [rewrite Hs; reflexivity |].
    split; [rewrite Hs; exact HS |]. split; [reflexivity |].
    intros Hb Hw. destruct (Hno Hb Hw). }
  assert (Hraise : forall st1 e,
            inv st1 -> (budget_holds st -> (max_workers (self st) <= 0)%Z ->
                        e = ValueError) ->
            find_all_post w st (Raise e) st1).
  { intros st1 e (Hc & S & Hs & HS) He.
    split; [exact Hc |]. split; [rewrite Hs; reflexivity |].
    split; [rewrite Hs; exact HS |]. split; [exact I |].
    intros Hb Hw. f_equal. auto. }
  assert (Hinv0 : inv (set_self f0 (set_ticks (S (ticks st)) st))).
  { split; [reflexivity |]. exists ∅. split; [reflexivity |].
    intros p Hp. now apply not_elem_of_empty in Hp. }
  revert Hinv0. generalize (set_self f0 (set_ticks (S (ticks st)) st)). intros st0 Hinv0.
  apply wp_bind.
  (* tier 2 and the end, from any state of the caller's thread *)
  match goal with
  | |- wp (for_in _ _ _ _) (after ?k ?P) _ =>
      assert (Hrest : forall st1, inv st1 -> wp (k tt) P st1)
  end.
  { intros st1 Hinv1. cbv beta.
    apply wp_bind, wp_is_timeout_alive. intros expired st2 Hst2 Hexp. cbn [after].
    assert (Hinv2 := Hticks _ _ Hinv1 Hst2).
    assert (Hexp' := Halive st1 expired Hinv1 Hexp).
    apply wp_bind.
    destruct expired; cbn [negb andb].
    { apply wp_ret. cbn [after]. apply Hfinish; [exact Hinv2 |].
      intros Hb _. specialize (Hexp' Hb). discriminate. }
    cbn [length Nat.ltb Nat.leb].
    apply wp_bind. unfold ThreadPoolExecutor.
    destruct (max_workers f0 <=? 0)%Z eqn:Hw.
    { apply wp_raise. cbn [after]. apply Hraise; auto. }
    apply Z.leb_gt in Hw.
    assert (Hno : budget_holds st -> (max_workers (self st) <= 0)%Z -> False).
    { intros _ Hle. cbn [f0 max_workers set_found_paths set_start_time] in Hw. lia. }
    apply wp_ret. cbn [after]. apply wp_bind.
    cbn [skipn enumerate length seq combine map].
    set (G := fun (r : result (list string)) (_ : list event) =>
                match r with
                | Ok paths => Forall (origin w (self st)) paths
                | Raise _ => True
                | OutOfFuel => False
                end).
    destruct (submit_each_spec (fun _ => True) G
                [(tier2 verbose, time_worker w 0);
                 (_search_filesystem_smart w verbose, time_worker w 1)]
                (fun r l l1 l2 H => H) st2) as (futs & l & Hsub & _ & Hfuts).
    { destruct Hinv2 as (_ & S & Hs2 & _).
      assert (Htask : forall (m : bool -> M (list string)) clk,
                good_probe w verbose m ->
                let out := m verbose (mkState (self st2) clk 0 [] []) in
                Forall (fun _ : event => True) (events (snd out)) /\
                G (fst out) (events (snd out))).
      { intros m clk Hm. cbv zeta. split; [apply Forall_all; auto |].
        specialize (Hm (mkState (self st2) clk 0 [] [])). unfold wp in Hm.
        destruct Hm as (_ & _ & Hr). cbn [self] in Hr. unfold G.
        destruct (fst (m verbose _)) as [paths | e |]; auto.
        eapply List.Forall_impl; [| exact Hr]. intros p. apply origin_config.
        rewrite Hs2. reflexivity. }
      constructor; [apply Htask, Htier2 |].
      constructor; [apply Htask, good_search_filesystem_smart | constructor]. }
    unfold wp at 1. rewrite Hsub. cbn [fst snd after].
    assert (Hinv3 : inv (add_events l st2)).
    { destruct Hinv2 as (Hc2 & S & Hs2 & HS). split; [exact Hc2 |]. exists S. auto. }
    revert Hinv3. generalize (add_events l st2). intros st3 Hinv3.
    apply wp_bind, wp_elapsed. intros e st4 Hst4. cbn [after].
    assert (Hinv4 := Hticks _ _ Hinv3 Hst4).
    match goal with
    | |- context [as_completed futs ?order] =>
        destruct (as_completed futs order) as [completed pending] eqn:Hac
    end.
    assert (Hcompleted : Forall (fun fut => G fut l) completed).
    { apply List.Forall_forall. intros fut Hin.
      rewrite List.Forall_forall in Hfuts. apply Hfuts.
      eapply as_completed_In. rewrite Hac. exact Hin. }
    apply wp_for_in with
      (I := fun rest (_ : unit) st' => Forall (fun fut => G fut l) rest /\ inv st').
    - intros fut rest [] st5 [Hrest5 Hinv5].
      apply Forall_cons in Hrest5 as [Hfut Hrest5].
      apply wp_bind, wp_is_timeout. intros expired' st6 Hst6. cbn [after].
      assert (Hinv6 := Hticks _ _ Hinv5 Hst6).
      destruct expired'; [apply wp_ret; cbn [after]; apply Hfinish; auto |].
      apply wp_try_except, wp_bind, wp_lift.
      destruct fut as [paths | e' |]; cbn [after is_Exception]; [| | destruct Hfut].
      + apply wp_bind, wp_modify. cbn [after]. apply wp_ret.
        split; [exact Hrest5 |]. apply Hadd; auto.
      + apply wp_ret. auto.
    - intros [] st5 [_ Hinv5]. apply wp_bind. unfold as_completed_end.
      destruct pending.
      + apply wp_raise. cbn [after]. apply Hraise; [exact Hinv5 |].
        intros Hb Hle. destruct (Hno Hb Hle).
      + apply wp_ret. cbn [after]. apply wp_ret. cbn [after]. apply Hfinish; auto.
    - auto. }
  (* tier 1 *)
  apply wp_for_in with
    (I := fun rest (_ : unit) st' => Forall (good_probe w verbose) rest /\ inv st').
  - intros method rest [] st1 [Hgood Hinv1].
    apply Forall_cons in Hgood as [Hm Hgood].
    apply wp_bind, wp_is_timeout_alive. intros expired st2 Hst2 Hexp. cbn [after].
    assert (Hinv2 := Hticks _ _ Hinv1 Hst2).
    assert (Hexp' := Halive st1 expired Hinv1 Hexp).
    destruct expired.
    { apply wp_ret. cbn [after].
      (* the rest runs with an expired budget *)
      apply Hrest, Hinv2. }
    apply wp_try_except, wp_bind.
    eapply wp_mono; [| apply Hm].
    intros r st3 (Hs3 & Hc3 & Hr).
    assert (Hinv3 : inv st3).
    { destruct Hinv2 as (Hc2 & S & Hs2 & HS). split; [congruence |].
      exists S. split; [congruence | exact HS]. }
    destruct r as [paths | e |]; cbn [after is_Exception]; [| | destruct Hr].
    + apply wp_bind, wp_modify. cbn [after]. apply wp_ret.
      split; [exact Hgood |]. apply Hadd; [exact Hinv3 |].
      eapply List.Forall_impl; [| exact Hr]. intros p. apply origin_config.
      destruct Hinv2 as (_ & S & Hs2 & _). rewrite Hs2. reflexivity.
    + apply wp_ret. auto.
  - intros [] st1 [_ Hinv1]. apply wp_bind, wp_ret. cbn [after]. apply wp_ret.
    cbn [after]. apply Hrest, Hinv1.
  - split; [| exact Hinv0]. cbn [firstn].
    constructor; [apply good_check_environment_vars |].
    constructor; [apply good_check_tesseract_binary_info |].
    constructor; [apply good_check_common_locations | constructor].
Qed.

End PipelineSpec.

(** X15. Nothing is made up.  Every path [find_all_tessdata_paths] returns
    is the normal form of a raw path that one of the probes of this very
    search delivered: the absolute form of a candidate that was checked
    to hold trained data, the resolved path of a [tessdata] directory
    the crawl recorded below a search root, or an entry of what the
    binary probe or (on Windows) the registry lookups returned.  What
    [found_paths] held from an earlier search plays no part. *)
Theorem find_all_results_have_an_origin :
  forall (fl : PathFlavour) (w : World) (verbose : bool) (st : state),
    match fst (find_all_tessdata_paths w verbose st) with
    | Ok paths =>
        Forall (fun q => exists p, origin w (self st) p /\ q = os_path_normpath p) paths
    | _ => True
    end.
Proof.
  intros fl w verbose st.
  pose proof (find_all_spec w verbose st) as H. unfold wp in H.
  destruct (find_all_tessdata_paths w verbose st) as [r st'].
  destruct H as (_ & _ & Horigin & Hr & _). cbn [fst snd] in *.
  destruct r as [paths | e |]; auto. subst paths.
  apply List.Forall_forall. intros q Hq.
  apply prioritize_paths_In in Hq as (p & Hp & ->).
  exists p. split; [| reflexivity].
  apply Horigin, elem_of_elements, list_elem_of_In, Hp.
Qed.

(** X16. The list [find_all_tessdata_paths] returns has no repetition and
    is in ascending order of the key [(score, lowercased path)].  On
    return the finder object holds the start instant of the search in
    [start_time] and the raw paths in [found_paths], of which the list
    returned is the ranking; the timeout, the worker count and the
    platform name are as before. *)
Theorem find_all_returns_a_ranking :
  forall (fl : PathFlavour) (w : World) (verbose : bool) (st : state),
    match find_all_tessdata_paths w verbose st with
    | (Ok paths, st') =>
        List.NoDup paths /\
        StronglySorted (key_ord priority_key) paths /\
        paths = _prioritize_paths (elements (found_paths (self st'))) /\
        start_time (self st') = Some (clock st (ticks st)) /\
        timeout (self st') = timeout (self st) /\
        max_workers (self st') = max_workers (self st) /\
        os_type (self st') = os_type (self st)
    | _ => True
    end.
Proof.
  intros fl w verbose st.
  pose proof (find_all_spec w verbose st) as H. unfold wp in H.
  destruct (find_all_tessdata_paths w verbose st) as [r st'].
  destruct H as (_ & Hs & _ & Hr & _). cbn [fst snd] in *.
  destruct r as [paths | e |]; auto. subst paths.
  split; [apply prioritize_paths_NoDup |].
  split; [apply prioritize_paths_key_sorted |].
  split; [reflexivity |]. rewrite Hs. repeat split.
Qed.

(** X17. The primary path is a best one: when
    [find_primary_tessdata_path] returns a path, that path is in the
    list [find_all_tessdata_paths] returns from the same state, and its
    key [(score, lowercased path)] is at most the key of every path of
    that list. *)
Theorem find_primary_is_a_minimum :
  forall (fl : PathFlavour) (w : World) (verbose : bool) (st : state),
    match fst (find_primary_tessdata_path w verbose st) with
    | Ok (Some best) =>
        exists paths,
          fst (find_all_tessdata_paths w verbose st) = Ok paths /\
          In best paths /\
          Forall (fun q => key_le (priority_key best) (priority_key q) = true) paths
    | Ok None => fst (find_all_tessdata_paths w verbose st) = Ok []
    | Raise e => fst (find_all_tessdata_paths w verbose st) = Raise e
    | OutOfFuel => False
    end.
Proof.
  intros fl w verbose st. unfold find_primary_tessdata_path, bind.
  pose proof (find_all_spec w verbose st) as H. unfold wp in H.
  pose proof (find_all_outcomes w verbose st) as Hout.
  destruct (find_all_tessdata_paths w verbose st) as [r st'].
  destruct H as (_ & _ & _ & Hr & _). cbn [fst snd] in *.
  destruct r as [paths | e |]; cbn [fst ret]; [| reflexivity | exact Hout].
  destruct paths as [| best rest]; [reflexivity |].
  exists (best :: rest). split; [reflexivity |]. split; [now left |].
  assert (Hsorted : StronglySorted (key_ord priority_key) (best :: rest)).
  { rewrite Hr. apply prioritize_paths_key_sorted. }
  apply StronglySorted_inv in Hsorted as [_ Hall].
  constructor; [apply key_le_refl | exact Hall].
Qed.

(** X18. A finder built with [max_workers <= 0] cannot finish a search
    whose budget lasts: when no budget check of the caller's thread
    reports expiry, [find_all_tessdata_paths] runs the three cheap
    probes and then raises [ValueError] from the pool it builds, instead
    of returning what they found. *)
Theorem nonpositive_max_workers_raises :
  forall (fl : PathFlavour) (w : World) (verbose : bool) (st : state),
    (max_workers (self st) <= 0)%Z ->
    (0 <= timeout (self st))%Q ->
    (forall n, clock st n - clock st (ticks st) <= timeout (self st))%Q ->
    fst (find_all_tessdata_paths w verbose st) = Raise ValueError.
Proof.
  intros fl w verbose st Hw Ht Hle.
  pose proof (find_all_spec w verbose st) as H. unfold wp in H.
  destruct H as (_ & _ & _ & _ & H). apply H; [split |]; assumption.
Qed.

Lemma slowing_bounded n :
  (MoreScenarios.slowing n - MoreScenarios.slowing 0 <= 10)%Q.
Proof.
  unfold MoreScenarios.slowing.
  assert (H : (0 <= 1 / inject_Z (Z.of_nat (S n)))%Q).
  { unfold Qdiv. rewrite Qmult_1_l. apply Qinv_le_0_compat.
    change 0%Q with (inject_Z 0). rewrite <- Zle_Qle. lia. }
  change (inject_Z (Z.of_nat 1)) with 1%Q.
  revert H. generalize (1 / inject_Z (Z.of_nat (S n)))%Q. intros x Hx.
  assert (H1 : (1 / 1 == 1)%Q) by reflexivity.
  lra.
Qed.

Lemma nonpositive_max_workers_raises_witness :
  fst (find_all_tessdata_paths (fl := posix) MoreScenarios.steady false
         (enter MoreScenarios.steady (TessdataFinder_init MoreScenarios.steady 10 0)))
  = Raise ValueError.
Proof.
  apply (nonpositive_max_workers_raises posix MoreScenarios.steady false
           (enter MoreScenarios.steady (TessdataFinder_init MoreScenarios.steady 10 0))).
  - simpl. lia.
  - vm_compute. discriminate.
  - intros n. apply slowing_bounded.
Defined.

(** ** The words of a line *)

Example split_whitespace_example :
  PyText.split_whitespace "  tessdata-dir   /usr/share/tessdata " =
  ["tessdata-dir"; "/usr/share/tessdata"].
Proof. reflexivity. Qed.

Example find_tesseract_binaries_installed :
  Binary._find_tesseract_binaries (fl := posix) ShellScenarios.installed
    ShellScenarios.shell (TessdataFinder_init ShellScenarios.installed 10 4)
  = ["/usr/bin/tesseract"].
Proof. vm_compute. reflexivity. Qed.

(** Both methods of the binary probe find the directory; the second does
    not add it again. *)
Example check_tesseract_binary_info_installed :
  fst (Binary._check_tesseract_binary_info (fl := posix) ShellScenarios.installed
         ShellScenarios.shell false
         (enter ShellScenarios.installed
            (TessdataFinder_init ShellScenarios.installed 10 4)))
  = Ok ["/usr/share/tesseract-ocr/tessdata"].
Proof. vm_compute. reflexivity. Qed.

Example path_join_relative :
  str (PathFlavour := posix)
      (path_join (fl := posix) (Path (PathFlavour := posix) "/usr/bin")
                 "../share/tessdata")
  = "/usr/bin/../share/tessdata".
Proof. reflexivity. Qed.

(** ** The binaries the probe runs *)

Section BinaryFacts.

Context {fl : PathFlavour} (w : World) (sh : Shell).

Lemma mem_In x l : Binary.mem x l = true <-> In x l.
Proof.
  unfold Binary.mem. rewrite existsb_exists. split.
  - intros (y & Hy & Heq). apply String.eqb_eq in Heq. now subst.
  - intros H. exists x. split; [exact H | apply String.eqb_refl].
Qed.

(** Appending what is not there keeps a list free of repetition. *)
Lemma append_new_ok (P : string -> Prop) (c : bool) x l :
  (List.NoDup l /\ Forall P l) -> (c = true -> P x) ->
  let l' := if c && negb (Binary.mem x l) then l ++ [x] else l in
  List.NoDup l' /\ Forall P l'.
Proof.
  intros [Hnd Hp] Hx. cbv zeta.
  destruct c; cbn [andb]; [| auto].
  destruct (Binary.mem x l) eqn:Hmem; cbn [negb]; [auto |].
  split.
  - apply NoDup_ListNoDup, NoDup_app. split; [apply NoDup_ListNoDup, Hnd |].
    split; [| apply NoDup_singleton].
    intros y Hy Hy'. apply list_elem_of_singleton in Hy'. subst y.
    apply list_elem_of_In, mem_In in Hy. congruence.
  - apply Forall_app. split; [exact Hp |]. repeat constructor. auto.
Qed.

Lemma fold_left_inv {A B} (I : A -> Prop) (f : A -> B -> A) l :
  forall acc, I acc -> (forall acc x, I acc -> In x l -> I (f acc x)) ->
              I (fold_left f l acc).
Proof.
  induction l as [| x l IH]; intros acc Hacc Hstep; simpl; [exact Hacc |].
  apply IH.
  - apply Hstep; [exact Hacc | now left].
  - intros acc' y Hacc' Hy. apply Hstep; [exact Hacc' | now right].
Qed.

Lemma find_tesseract_binaries_spec f :
  List.NoDup (Binary._find_tesseract_binaries w sh f) /\
  Forall (Binary.binary_found w sh f) (Binary._find_tesseract_binaries w sh f).
Proof.
  unfold Binary._find_tesseract_binaries. cbv zeta.
  apply (fold_left_inv
           (fun l => List.NoDup l /\ Forall (Binary.binary_found w sh f) l)).
  - apply (fold_left_inv
             (fun l => List.NoDup l /\ Forall (Binary.binary_found w sh f) l)).
    + apply (fold_left_inv
               (fun l => List.NoDup l /\ Forall (Binary.binary_found w sh f) l)).
      * split; constructor.
      * intros acc name Hacc Hname.
        destruct (which sh name) as [binary |] eqn:Hwhich; [| exact Hacc].
        apply (append_new_ok _ (negb (binary =? "")%string)); [exact Hacc |].
        intros _. left. eauto.
    + intros acc path_dir Hacc Hdir.
      destruct (path_dir =? "")%string eqn:Hempty; [exact Hacc |].
      apply String.eqb_neq in Hempty.
      apply (fold_left_inv
               (fun l => List.NoDup l /\ Forall (Binary.binary_found w sh f) l));
        [exact Hacc |].
      intros acc' name Hacc' Hname.
      apply (append_new_ok _ (fs_isfile sh _ && access_x sh _)); [exact Hacc' |].
      intros Hc. apply andb_true_iff in Hc as [Hfile Hx].
      right. split; [exact Hfile |]. split; [exact Hx |].
      left. exists path_dir, name. auto.
  - intros acc path Hacc Hpath.
    apply (append_new_ok _ (fs_isfile sh _ && access_x sh _)); [exact Hacc |].
    intros Hc. apply andb_true_iff in Hc as [Hfile Hx].
    right. split; [exact Hfile |]. split; [exact Hx |].
    right. exists path. auto.
Qed.

End BinaryFacts.

(** X20. [_find_tesseract_binaries] lists no binary twice; and every
    binary it lists is what [shutil.which] found for [tesseract] or
    [tesseract.exe], or is an executable file: one of those two names in
    a directory of [PATH] that is not the empty string, or one of the
    common binary paths of the platform, expanded. *)
Theorem find_tesseract_binaries_distinct :
  forall (fl : PathFlavour) (w : World) (sh : Shell) (f : TessdataFinder),
    List.NoDup (Binary._find_tesseract_binaries w sh f) /\
    Forall (Binary.binary_found w sh f) (Binary._find_tesseract_binaries w sh f).
Proof. intros fl w sh f. apply find_tesseract_binaries_spec. Qed.


(** ** Rules for postconditions of the usual shape *)

Lemma wp_ret_post {A} (a : A) I E st : I st -> wp (ret a) (outcome_post I E) st.
Proof. exact (fun H => H). Qed.

Lemma wp_bind_post {A B} (c : M A) (k : A -> M B) I E st :
  wp c (outcome_post I E) st ->
  (forall a st', I st' -> wp (k a) (outcome_post I E) st') ->
  wp (bind c k) (outcome_post I E) st.
Proof.
  intros Hc Hk. apply wp_bind. eapply wp_mono; [| exact Hc].
  intros [a | e |] st' H; cbn [after outcome_post] in *; auto.
Qed.

Lemma wp_try_post {A} (c h : M A) (catches : exn -> bool) I E E' st :
  wp c (outcome_post I E') st ->
  (forall e st', E' e st' ->
     if catches e then wp h (outcome_post I E) st' else E e st') ->
  wp (try_except c catches h) (outcome_post I E) st.
Proof.
  intros Hc Hh. apply wp_try_except. eapply wp_mono; [| exact Hc].
  intros [a | e |] st' H; cbn [outcome_post] in *; auto.
  specialize (Hh e st' H). destruct (catches e); exact Hh.
Qed.

(** A loop over a list whose turns all keep [I]: so does the loop,
    whether it runs to the end or stops at a [break]. *)
Lemma wp_for_in_post {A} (items : list A) (body : unit -> A -> M (ctl unit)) I E st :
  (forall x st', In x items -> I st' -> wp (body tt x) (outcome_post I E) st') ->
  I st ->
  wp (for_in items (ret tt) tt body) (outcome_post I E) st.
Proof.
  intros Hbody HI.
  apply wp_for_in with
    (I := fun rest (_ : unit) st' => (forall x, In x rest -> In x items) /\ I st').
  - intros x rest [] st' [Hsub HI'].
    eapply wp_mono; [| apply Hbody; [apply Hsub; now left | exact HI']].
    intros [[[] | []] | e |] st'' H; cbn [outcome_post] in *; auto.
    split; [| exact H]. intros y Hy. apply Hsub. now right.
  - intros [] st' [_ HI']. apply wp_bind, wp_ret. cbn [after]. apply wp_ret. exact HI'.
  - auto.
Qed.

Lemma wp_is_timeout_post (I : state -> Prop) E st (k : bool -> M (ctl unit)) :
  (forall b st', same_but_ticks st st' -> wp (k b) (outcome_post I E) st') ->
  wp (bind _is_timeout k) (outcome_post I E) st.
Proof.
  intros H. apply wp_bind, wp_is_timeout. intros b st' Hs. cbn [after]. auto.
Qed.

(** ** The binary probe *)

Section BinaryProbeFacts.

Context {fl : PathFlavour} (w : World) (sh : Shell) (verbose : bool).

Lemma check_tesseract_binary_info_spec st :
  wp (Binary._check_tesseract_binary_info w sh verbose) (Binary.binary_post w sh st) st.
Proof.
  unfold Binary._check_tesseract_binary_info.
  apply wp_bind, wp_modify. cbn [after].
  apply wp_bind, wp_get. cbn [after self set_found].
  set (f := self st).
  set (binaries := Binary._find_tesseract_binaries w sh f).
  set (hit := fun a => exists binary, In binary binaries /\ Binary.binary_hit w sh f binary a).
  set (frame := fun st' : state =>
                  self st' = f /\ clock st' = clock st /\ events st' = events st /\
                  Forall hit (found st')).
  set (escapes := fun (e : exn) (st' : state) =>
                    frame st' /\
                    exists binary, In binary binaries /\
                      run_print_parameters sh binary = Raises e /\
                      is_run_failure e = false).
  assert (Hticks : forall st1 st2, frame st1 -> same_but_ticks st1 st2 -> frame st2).
  { intros st1 st2 (H1 & H2 & H3 & H4) (H1' & H2' & H3' & H4' & _).
    unfold frame. rewrite H1', H2', H3', H4'. auto. }
  assert (Happend : forall (E : exn -> state -> Prop) st1 a, frame st1 -> hit a ->
            wp (Binary.paths_append a ;;; ret (Continue tt))
               (outcome_post frame E) st1).
  { intros E st1 a (H1 & H2 & H3 & H4) Ha. unfold Binary.paths_append.
    apply wp_bind, wp_modify. cbn [after]. apply wp_ret.
    unfold frame. cbn [self clock events found set_found].
    repeat split; auto. apply Forall_app. split; [exact H4 |]. repeat constructor.
    exact Ha. }
  apply wp_bind.
  apply wp_mono with (Q := outcome_post (A := unit) frame escapes).
  { intros [[] | e |] st' H; cbn [outcome_post after] in *.
    - apply wp_bind, wp_get. cbn [after]. apply wp_ret.
      destruct H as (H1 & H2 & H3 & H4). repeat split; auto.
    - destruct H as [(H1 & H2 & H3 & _) H]. repeat split; auto.
    - destruct H. }
  apply wp_for_in_post; [| repeat split; constructor].
  intros binary st1 Hbinary Hframe1.
  apply wp_is_timeout_post. intros expired st2 Hst2.
  assert (Hframe2 := Hticks _ _ Hframe1 Hst2). clear st1 Hframe1 Hst2.
  destruct expired; [apply wp_ret_post, Hframe2 |].
  apply wp_bind_post.
  { (* Method 1 *)
    apply wp_try_post with
      (E' := fun e st' => frame st' /\
                          (is_run_failure e = true \/
                           run_print_parameters sh binary = Raises e)).
    - apply wp_bind, wp_lift.
      destruct (run_print_parameters sh binary) as [stdout | e] eqn:Hrun;
        cbn [of_outcome after]; [| split; auto].
      apply wp_for_in_post; [| exact Hframe2].
      intros line st3 Hline Hframe3.
      destruct (PyStr.contains "tessdata" (PyStr.lower line));
        [| apply wp_ret_post, Hframe3].
      apply wp_bind_post; [| intros _ st4 H4; apply wp_ret_post, H4].
      apply wp_for_in_post; [| exact Hframe3].
      intros word st4 Hword Hframe4.
      destruct (PyStr.contains "tessdata" word) eqn:Hcontains; cbn [andb];
        [| apply wp_ret_post, Hframe4].
      destruct (os_path_isdir w word); [| apply wp_ret_post, Hframe4].
      apply wp_bind, wp_is_valid. intros valid Hvalid. cbn [after].
      destruct valid; [| apply wp_ret_post, Hframe4].
      apply wp_bind, wp_abspath.
      + intros a Ha. cbn [after]. apply Happend; [exact Hframe4 |].
        exists binary. split; [exact Hbinary |]. left.
        exists stdout, line, word. repeat split; auto; now apply Hvalid.
      + intros e _ He. cbn [after outcome_post]. split; [exact Hframe4 | now left].
    - intros e st3 [Hframe3 He].
      destruct (is_run_failure e) eqn:Hcatch; [apply wp_ret_post, Hframe3 |].
      split; [exact Hframe3 |]. exists binary. split; [exact Hbinary |].
      destruct He as [He | He]; [discriminate | auto]. }
  intros _ st3 Hframe3.
  apply wp_bind_post; [| intros _ st4 H4; apply wp_ret_post, H4].
  (* Method 2 *)
  apply wp_try_post with (E' := fun _ st' => frame st').
  - apply wp_bind, wp_lift.
    destruct (fs_resolve w (str (path_parent (Path binary)))) as [resolved | e]
      eqn:Hresolved; cbn [of_outcome after]; [| exact Hframe3].
    apply wp_bind, wp_get. cbn [after].
    replace (self st3) with f by (symmetry; apply Hframe3).
    apply wp_for_in_post; [| exact Hframe3].
    intros rel_path st4 Hrel Hframe4.
    apply wp_bind, wp_lift.
    destruct (fs_is_dir w (str (path_join (Path resolved) rel_path))) as [is_dir | e];
      cbn [of_io after]; [| exact Hframe4].
    apply wp_bind.
    destruct is_dir; cbn [andb]; [| apply wp_ret; cbn [after]; apply wp_ret_post, Hframe4].
    apply wp_is_valid. intros valid Hvalid. cbn [after].
    destruct valid; [| apply wp_ret_post, Hframe4].
    apply wp_bind, wp_lift.
    destruct (fs_resolve w (str (path_join (Path resolved) rel_path))) as [abs_path | e]
      eqn:Habs; cbn [of_outcome after]; [| exact Hframe4].
    apply wp_bind, wp_get. cbn [after].
    destruct (Binary.mem abs_path (found st4)); cbn [negb];
      [apply wp_ret_post, Hframe4 |].
    apply Happend; [exact Hframe4 |].
    exists binary. split; [exact Hbinary |]. right.
    exists resolved, rel_path. repeat split; auto; now apply Hvalid.
  - intros e st4 Hframe4. cbn [is_Exception]. apply wp_ret_post, Hframe4.
Qed.

End BinaryProbeFacts.

(** X21. Called with [verbose=False], the binary probe delivers only
    directories it has checked: every path it returns is, for one of
    the binaries found, the absolute form of a word of the output of
    [tesseract --print-parameters] that contains [tessdata] and names a
    directory holding trained data, or the resolved path of such a
    directory at one of the places relative to the directory of the
    binary.  The only exceptions it lets through are those
    [subprocess.run] raises that are neither [subprocess.TimeoutExpired]
    nor an [OSError]; what the filesystem, [os.getcwd] or [resolve]
    raise is caught.  The probe leaves the finder object and the log as
    they were.  (The output of the binaries is taken to be ASCII, where
    the words of the model are the words of [str.split].) *)
Theorem check_tesseract_binary_info_sound :
  forall (fl : PathFlavour) (w : World) (sh : Shell) (st : state),
    (forall binary stdout,
       run_print_parameters sh binary = Returns stdout -> isascii stdout = true) ->
    let run := Binary._check_tesseract_binary_info w sh false st in
    self (snd run) = self st /\ events (snd run) = events st /\
    match fst run with
    | Ok paths =>
        Forall (fun a => exists binary,
                    In binary (Binary._find_tesseract_binaries w sh (self st)) /\
                    Binary.binary_hit w sh (self st) binary a) paths
    | Raise e =>
        exists binary,
          In binary (Binary._find_tesseract_binaries w sh (self st)) /\
          run_print_parameters sh binary = Raises e /\ is_run_failure e = false
    | OutOfFuel => False
    end.
Proof.
  intros fl w sh st _ run.
  pose proof (check_tesseract_binary_info_spec w sh false st) as H.
  unfold wp, Binary.binary_post in H. fold run in H.
  destruct H as (Hs & _ & He & Hr). auto.
Qed.

Lemma check_tesseract_binary_info_sound_witness :
  let st := enter ShellScenarios.installed
              (TessdataFinder_init ShellScenarios.installed 10 4) in
  let run := Binary._check_tesseract_binary_info (fl := posix) ShellScenarios.installed
               ShellScenarios.shell false st in
  self (snd run) = self st /\ events (snd run) = events st /\
  match fst run with
  | Ok paths =>
      Forall (fun a => exists binary,
                  In binary (Binary._find_tesseract_binaries (fl := posix)
                               ShellScenarios.installed ShellScenarios.shell (self st)) /\
                  Binary.binary_hit (fl := posix) ShellScenarios.installed
                    ShellScenarios.shell (self st) binary a) paths
  | Raise e =>
      exists binary,
        In binary (Binary._find_tesseract_binaries (fl := posix)
                     ShellScenarios.installed ShellScenarios.shell (self st)) /\
        run_print_parameters ShellScenarios.shell binary = Raises e /\
        is_run_failure e = false
  | OutOfFuel => False
  end.
Proof.
  cbv zeta.
  apply (check_tesseract_binary_info_sound posix ShellScenarios.installed
           ShellScenarios.shell
           (enter ShellScenarios.installed
              (TessdataFinder_init ShellScenarios.installed 10 4))).
  intros binary stdout H. injection H as <-. vm_compute. reflexivity.
Defined.

(** ** The registry probe *)

Lemma abspath_of_fun {fl : PathFlavour} w path a a' :
  abspath_of w path a -> abspath_of w path a' -> a = a'.
Proof.
  unfold abspath_of. destruct (os_path_isabs path).
  - congruence.
  - intros (cwd & Hcwd & ->) (cwd' & Hcwd' & ->). congruence.
Qed.

Section RegistryProbeFacts.

Context {fl : PathFlavour} (w : World) (reg : Registry).

Lemma check_registry_windows_spec st :
  wp (Winreg._check_registry_windows w reg false) (Winreg.registry_post w reg st) st.
Proof.
  unfold Winreg._check_registry_windows, Winreg.registry_post.
  apply wp_bind, wp_get. cbn [after].
  destruct (winreg w) eqn:Hreg; cbn [negb orb andb];
    [| apply wp_ret; split; reflexivity].
  destruct (os_type (self st) =? "windows")%string eqn:Hos; cbn [negb];
    [| apply wp_ret; split; reflexivity].
  apply String.eqb_eq in Hos.
  apply wp_for_in with
    (I := fun rest paths st' =>
            st' = st /\
            exists done, Winreg.registry_locations = done ++ rest /\
              (length paths <= length done)%nat /\
              (forall a, In a paths <->
                 exists location, In location done /\ Winreg.location_hit w reg location a) /\
              (forall location e, In location done -> ~ Winreg.escapes reg location e)).
  - intros [hkey subkey] rest paths st1 (-> & done & Hsplit & Hlen & Hhits & Hquiet).
    (* the state of the loop after a turn that settles the location *)
    assert (Hnext : forall paths',
              (length paths' <= S (length done))%nat ->
              (forall a, In a paths' <->
                 In a paths \/ Winreg.location_hit w reg (hkey, subkey) a) ->
              (forall e, ~ Winreg.escapes reg (hkey, subkey) e) ->
              st = st /\
              exists done', Winreg.registry_locations = done' ++ rest /\
                (length paths' <= length done')%nat /\
                (forall a, In a paths' <->
                   exists location, In location done' /\
                                    Winreg.location_hit w reg location a) /\
                (forall location e, In location done' -> ~ Winreg.escapes reg location e)).
    { intros paths' Hlen' Hhits' Hquiet'. split; [reflexivity |].
      exists (done ++ [(hkey, subkey)]).
      rewrite <- app_assoc. split; [exact Hsplit |].
      rewrite length_app. simpl. split; [lia |]. split.
      - intros a. rewrite Hhits', Hhits. split.
        + intros [(location & Hin & Hhit) | Hhit].
          * exists location. split; [apply in_or_app; now left | exact Hhit].
          * exists (hkey, subkey). split; [apply in_or_app; right; now left | exact Hhit].
        + intros (location & Hin & Hhit).
          apply in_app_or in Hin as [Hin | [<- | []]]; [left; eauto | now right].
      - intros location e Hin.
        apply in_app_or in Hin as [Hin | [<- | []]]; [now apply Hquiet | apply Hquiet']. }
    assert (Hraise : forall e, Winreg.escapes reg (hkey, subkey) e ->
              st = st /\ true = true /\ os_type (self st) = "windows" /\
              exists done' location rest',
                Winreg.registry_locations = done' ++ location :: rest' /\
                Winreg.escapes reg location e /\
                (forall location' e', In location' done' ->
                                      ~ Winreg.escapes reg location' e')).
    { intros e He. repeat split; auto. exists done, (hkey, subkey), rest. auto. }
    apply wp_try_except, wp_bind, wp_lift.
    destruct (query_install_path reg hkey subkey) as [[install_path |] | e] eqn:Hquery;
      cbn [of_outcome after].
    + (* the value is a string *)
      assert (Hno : forall e, ~ Winreg.escapes reg (hkey, subkey) e).
      { intros e [[He _] | [He _]]; cbn [fst snd] in He; congruence. }
      assert (Hhit : forall a,
                Winreg.location_hit w reg (hkey, subkey) a <->
                holds_traineddata w (os_path_join install_path "tessdata") /\
                abspath_of w (os_path_join install_path "tessdata") a).
      { intros a. split.
        - intros (ip & Hq & Hv & Ha). cbn [fst snd] in Hq.
          rewrite Hquery in Hq. injection Hq as <-. auto.
        - intros [Hv Ha]. exists install_path. auto. }
      apply wp_bind, wp_ret. cbn [after].
      apply wp_bind, wp_is_valid. intros valid Hvalid. cbn [after].
      destruct valid.
      * apply wp_bind, wp_abspath.
        -- intros a Ha. cbn [after]. apply wp_ret, Hnext; [| | exact Hno].
           ++ rewrite length_app. simpl. lia.
           ++ intros x. rewrite in_app_iff, Hhit. simpl. split.
              ** intros [Hx | [<- | []]]; [now left | right].
                 split; [now apply Hvalid | exact Ha].
              ** intros [Hx | [_ Hx]]; [now left | right; left].
                 exact (abspath_of_fun w _ _ _ Ha Hx).
        -- intros e Habs He. cbn [after is_OSError]. apply wp_ret, Hnext; [lia | | exact Hno].
           intros x. rewrite Hhit. split; [now left |].
           intros [Hx | [_ Hx]]; [exact Hx |].
           unfold abspath_of in Hx. rewrite Habs in Hx.
           destruct Hx as (cwd & Hcwd & _). congruence.
      * apply wp_ret, Hnext; [lia | | exact Hno].
        intros x. rewrite Hhit. split; [now left |].
        intros [Hx | [Hv _]]; [exact Hx |].
        apply Hvalid in Hv. discriminate Hv.
    + (* the value is no string *)
      apply wp_bind, wp_raise. cbn [after TypeError is_OSError].
      apply (Hraise TypeError). right. auto.
    + (* the lookup raises *)
      destruct (is_OSError e) eqn:Hcatch.
      * apply wp_ret, Hnext; [lia | |].
        -- intros x. split; [now left |].
           intros [Hx | (ip & Hq & _)]; [exact Hx |].
           cbn [fst snd] in Hq. congruence.
        -- intros e' [[He' Hos'] | [He' _]]; cbn [fst snd] in He'; [| congruence].
           rewrite Hquery in He'. injection He' as <-. congruence.
      * apply (Hraise e). left. auto.
  - intros paths st1 (-> & done & Hsplit & Hlen & Hhits & Hquiet).
    apply wp_bind, wp_ret. cbn [after]. apply wp_ret.
    split; [reflexivity |]. rewrite app_nil_r in Hsplit. subst done.
    split; [exact Hlen |]. split; [exact Hhits | exact Hquiet].
  - split; [reflexivity |]. exists []. split; [reflexivity |].
    split; [simpl; lia |]. split.
    + intros a. split; [intros [] | intros (location & [] & _)].
    + intros location e [].
Qed.

End RegistryProbeFacts.

(** X22. Called with [verbose=False], the registry probe asks the
    registry only on Windows with [winreg] imported, and returns the
    empty list otherwise.  There it goes through its three locations in
    order.  A location whose key or value is missing or unreadable (an
    [OSError]) is passed over.  The first location whose lookup raises
    another exception, or whose [InstallPath] is no string, so that
    [os.path.join] raises [TypeError], ends the probe with that
    exception.  If there is none, the probe returns at most three
    paths: exactly the absolute forms of the [tessdata] children of the
    [InstallPath] strings that hold trained data.  The probe changes
    nothing in the state. *)
Theorem check_registry_windows_sound :
  forall (fl : PathFlavour) (w : World) (reg : Registry) (st : state),
    snd (Winreg._check_registry_windows w reg false st) = st /\
    match fst (Winreg._check_registry_windows w reg false st) with
    | Ok paths =>
        if winreg w && (os_type (self st) =? "windows")%string then
          (length paths <= 3)%nat /\
          (forall a, In a paths <-> Winreg.registry_hit w reg a) /\
          (forall location e, In location Winreg.registry_locations ->
                              ~ Winreg.escapes reg location e)
        else paths = []
    | Raise e =>
        winreg w = true /\ os_type (self st) = "windows" /\
        exists done location rest,
          Winreg.registry_locations = done ++ location :: rest /\
          Winreg.escapes reg location e /\
          (forall location' e', In location' done -> ~ Winreg.escapes reg location' e')
    | OutOfFuel => False
    end.
Proof.
  intros fl w reg st.
  pose proof (check_registry_windows_spec w reg st) as H.
  unfold wp, Winreg.registry_post in H.
  destruct H as [Hst Hr]. split; [exact Hst |].
  destruct (fst (Winreg._check_registry_windows w reg false st)); exact Hr.
Qed.


(** ** What the crawl is sure to find *)

Section CrawlComplete.

Context {fl : PathFlavour} (w : World) (verbose : bool) (max_depth : nat).

(** When [resolve] raises nothing, a call of [_recursive_search] raises
    nothing: what the filesystem calls raise is an [OSError] and is
    caught. *)
Lemma recursive_search_no_raise fuel :
  (forall p e, fs_resolve w p <> Raises e) ->
  forall p depth st,
    wp (_recursive_search w fuel verbose max_depth p depth)
       (fun r _ => forall e, r <> Raise e) st.
Proof.
  intros Hquiet. induction fuel as [| fuel IH]; intros p depth st.
  - intros e. discriminate.
  - cbn [_recursive_search]. apply wp_bind.
    assert (Hok : forall e, Ok tt <> @Raise unit e) by (intros; discriminate).
    destruct (max_depth <? depth)%nat.
    { apply wp_ret. cbn [after]. apply wp_ret, Hok. }
    apply wp_is_timeout. intros expired st1 _. cbn [after].
    destruct expired; [apply wp_ret, Hok |].
    apply wp_bind, wp_log. cbn [after].
    generalize (add_events [EvVisit p] st1). clear st1. intros st1.
    apply wp_try_except.
    set (Q := fun (r : result unit) (st' : state) =>
                match r with
                | Raise e => if is_OSError e
                             then wp (ret tt) (fun r _ => forall e, r <> Raise e) st'
                             else forall e0, @Raise unit e <> Raise e0
                | _ => forall e, r <> Raise e
                end).
    assert (HQok : forall st', Q (Ok tt) st') by (intros st' e; discriminate).
    assert (HQos : forall e st', Q (Raise (OSError e)) st') by (intros e st' e'; discriminate).
    assert (Hlist : forall st2,
              wp (if _should_search_directory p
                  then
                    log (EvList p) ;;;
                    names <- io_call (fs_iterdir w (str p)) ;;
                    for_in names (ret tt) tt (fun _ name =>
                      let child := path_child p name in
                      is_dir <- io_call (fs_is_dir w (str child)) ;;
                      is_link <- (if is_dir
                                  then io_call (fs_is_symlink w (str child))
                                  else ret false) ;;
                      if is_dir && negb is_link then
                        _recursive_search w fuel verbose max_depth child (S depth) ;;;
                        ret (Continue tt)
                      else ret (Continue tt))
                  else ret tt) Q st2).
    { intros st2. destruct (_should_search_directory p); [| apply wp_ret, HQok].
      apply wp_bind, wp_log. cbn [after].
      generalize (add_events [EvList p] st2). clear st2. intros st2.
      apply wp_bind, wp_lift.
      destruct (fs_iterdir w (str p)) as [names | e]; cbn [of_io after]; [| apply HQos].
      apply wp_for_in with (I := fun _ _ _ => True); [| | exact I].
      - intros name rest [] st3 _.
        apply wp_bind, wp_lift.
        destruct (fs_is_dir w (str (path_child p name))) as [is_dir | e];
          cbn [of_io after]; [| apply HQos].
        apply wp_bind.
        destruct is_dir; cbn [andb].
        + apply wp_lift.
          destruct (fs_is_symlink w (str (path_child p name))) as [is_link | e];
            cbn [of_io after]; [| apply HQos].
          destruct is_link; cbn [negb]; [apply wp_ret; exact I |].
          apply wp_bind. eapply wp_mono; [| apply IH].
          intros r st4 Hr.
          destruct r as [[] | e |]; cbn [after].
          * apply wp_ret. exact I.
          * destruct (Hr e eq_refl).
          * intros e. discriminate.
        + apply wp_ret. cbn [after]. apply wp_ret. exact I.
      - intros [] st3 _. apply wp_bind, wp_ret. cbn [after]. apply wp_ret, HQok. }
    apply wp_bind.
    destruct (path_name p =? "tessdata")%string.
    + apply wp_is_valid. intros hit _. cbn [after].
      destruct hit; [| apply Hlist].
      apply wp_bind, wp_lift.
      destruct (fs_resolve w (str p)) as [abs_path | e] eqn:Hres; cbn [of_outcome after];
        [| destruct (Hquiet _ _ Hres)].
      apply wp_bind, wp_modify. cbn [after]. apply wp_log, HQok.
    + apply wp_ret. cbn [after]. apply Hlist.
Qed.

(** A call below the depth bound, with allowance enough, on a filesystem
    whose [resolve] raises nothing: it returns, and [found] has only
    grown. *)
Lemma recursive_search_returns fuel p depth st :
  (forall p e, fs_resolve w p <> Raises e) ->
  (max_depth + 2 <= fuel + depth)%nat -> (depth <= max_depth + 1)%nat ->
  wp (_recursive_search w fuel verbose max_depth p depth)
     (fun r st' => r = Ok tt /\ self st' = self st /\ clock st' = clock st /\
                   exists more, found st' = found st ++ more) st.
Proof.
  intros Hquiet Hfuel Hdepth.
  pose proof (recursive_search_no_raise fuel Hquiet p depth st) as Hno.
  pose proof (recursive_search_spec w verbose max_depth fuel p depth st) as Hspec.
  unfold wp in *.
  destruct (_recursive_search w fuel verbose max_depth p depth st) as [r st'].
  cbn [fst snd] in *.
  destruct Hspec as [(Hs & Hc & l & _ & _ & Hf) Hr].
  split; [| split; [exact Hs | split; [exact Hc | eauto]]].
  destruct r as [[] | e |]; [reflexivity | destruct (Hno e eq_refl) | lia].
Qed.

Lemma never_expires_frame st st' :
  self st' = self st -> clock st' = clock st -> never_expires st -> never_expires st'.
Proof. intros Hs Hc [Ht Hle]. unfold never_expires. rewrite Hs, Hc. auto. Qed.

Lemma wp_is_timeout_never (Post : result bool -> state -> Prop) st :
  never_expires st ->
  (forall st', same_but_ticks st st' -> Post (Ok false) st') ->
  wp _is_timeout Post st.
Proof.
  intros [Ht Hle] HPost. apply wp_is_timeout_alive. intros b st' Hst' Hb.
  rewrite (Hb Ht); [apply HPost, Hst' |]. intros s Hs. apply Hle, Hs.
Qed.

Lemma recursive_search_finds q a names :
  quiet w ->
  path_name q = "tessdata" -> holds_traineddata w (str q) ->
  fs_resolve w (str q) = Returns a ->
  forall fuel p depth st,
    never_expires st ->
    (max_depth + 2 <= fuel + depth)%nat ->
    (depth + length names <= max_depth)%nat ->
    reaches p names q -> walks w p names q ->
    wp (_recursive_search w fuel verbose max_depth p depth)
       (fun r st' => r = Ok tt /\ In a (found st') /\
                     self st' = self st /\ clock st' = clock st) st.
Proof.
  intros (Hdirs & Hlinks & Hresolve) Hname Hvalid Hres.
  induction names as [| name rest IH]; intros fuel p depth st Halive Hfuel Hdepth Hr Hw.
  - (* the directory itself *)
    simpl in Hr. subst q. simpl in Hdepth.
    destruct fuel as [| fuel]; [lia |].
    cbn [_recursive_search]. apply wp_bind.
    replace (max_depth <? depth)%nat with false by (symmetry; apply Nat.ltb_ge; lia).
    apply wp_is_timeout_never; [exact Halive |].
    intros st1 (Hs1 & Hc1 & _). cbn [after].
    apply wp_bind, wp_log. cbn [after].
    apply wp_try_except, wp_bind.
    rewrite Hname, String.eqb_refl.
    apply wp_is_valid. intros hit Hhit. cbn [after].
    replace hit with true by (symmetry; now apply Hhit).
    apply wp_bind, wp_lift. rewrite Hres. cbn [of_outcome after].
    apply wp_bind, wp_modify. cbn [after]. apply wp_log.
    cbn [found self clock add_events set_found].
    split; [reflexivity |]. split; [apply in_or_app; right; now left | auto].
  - (* a directory above it *)
    simpl in Hr, Hw, Hdepth.
    destruct Hr as [Hsearch Hr].
    destruct Hw as ((entries & Hentries & Hin) & Hdir & Hlink & Hnohit & Hw).
    destruct fuel as [| fuel]; [lia |].
    cbn [_recursive_search]. apply wp_bind.
    replace (max_depth <? depth)%nat with false by (symmetry; apply Nat.ltb_ge; lia).
    apply wp_is_timeout_never; [exact Halive |].
    intros st1 (Hs1 & Hc1 & _). cbn [after].
    apply wp_bind, wp_log. cbn [after].
    assert (Hframe1 : self (add_events [EvVisit p] st1) = self st /\
                      clock (add_events [EvVisit p] st1) = clock st) by auto.
    revert Hframe1. generalize (add_events [EvVisit p] st1). clear st1 Hs1 Hc1.
    intros st1 [Hs1 Hc1].
    apply wp_try_except, wp_bind.
    assert (Hhit : wp (if (path_name p =? "tessdata")%string
                       then _is_valid_tessdata_dir w (str p) else ret false)
                      (fun r st' => r = Ok false /\ st' = st1) st1).
    { destruct (path_name p =? "tessdata")%string eqn:Hp; [| apply wp_ret; auto].
      apply String.eqb_eq in Hp.
      apply wp_is_valid. intros hit Hhit. destruct hit; [| auto].
      exfalso. apply Hnohit. split; [exact Hp | now apply Hhit]. }
    eapply wp_mono; [| exact Hhit]. intros r st2 [-> ->]. cbn [after].
    rewrite Hsearch.
    apply wp_bind, wp_log. cbn [after].
    assert (Hframe2 : self (add_events [EvList p] st1) = self st /\
                      clock (add_events [EvList p] st1) = clock st) by auto.
    revert Hframe2. generalize (add_events [EvList p] st1). clear st1 Hs1 Hc1 Hhit.
    intros st1 [Hs1 Hc1].
    apply wp_bind, wp_lift. rewrite Hentries. cbn [of_io after].
    apply wp_for_in with
      (I := fun todo (_ : unit) st' =>
              self st' = self st /\ clock st' = clock st /\
              (In name todo \/ In a (found st'))); [| | auto].
    + intros entry todo [] st2 (Hs2 & Hc2 & Hgoal).
      apply wp_bind, wp_lift.
      destruct (fs_is_dir w (str (path_child p entry))) as [is_dir | e] eqn:Hd;
        cbn [of_io after]; [| destruct (Hdirs _ _ Hd)].
      apply wp_bind.
      assert (Hskip : entry <> name ->
                self st2 = self st /\ clock st2 = clock st /\
                (In name todo \/ In a (found st2))).
      { intros Hne. split; [exact Hs2 |]. split; [exact Hc2 |].
        destruct Hgoal as [[Heq | Hgoal] | Hgoal]; auto. contradiction. }
      destruct is_dir; cbn [andb].
      * apply wp_lift.
        destruct (fs_is_symlink w (str (path_child p entry))) as [is_link | e] eqn:Hl;
          cbn [of_io after]; [| destruct (Hlinks _ _ Hl)].
        destruct is_link; cbn [negb].
        -- apply wp_ret, Hskip. intros ->. congruence.
        -- apply wp_bind.
           destruct (string_dec entry name) as [-> | Hne].
           ++ eapply wp_mono; [| apply (IH fuel (path_child p name) (S depth) st2)];
                try assumption; try lia.
              ** intros r st3 (-> & Ha & Hs3 & Hc3). cbn [after]. apply wp_ret.
                 split; [congruence |]. split; [congruence | now right].
              ** eapply never_expires_frame; [exact Hs2 | exact Hc2 | exact Halive].
           ++ eapply wp_mono;
                [| apply (recursive_search_returns fuel (path_child p entry) (S depth) st2
                            Hresolve); lia].
              intros r st3 (-> & Hs3 & Hc3 & more & Hmore). cbn [after]. apply wp_ret.
              split; [congruence |]. split; [congruence |].
              destruct (Hskip Hne) as (_ & _ & [H | H]); [now left | right].
              rewrite Hmore. apply in_or_app. now left.
      * apply wp_ret. cbn [after]. apply wp_ret, Hskip. intros ->. congruence.
    + intros [] st2 (Hs2 & Hc2 & [[] | Ha]).
      apply wp_bind, wp_ret. cbn [after]. apply wp_ret. auto.
Qed.

End CrawlComplete.

(** X23. The crawl misses nothing it can reach.  Called with
    [verbose=False] on a filesystem whose [is_dir], [is_symlink] and
    [resolve] calls raise nothing, and with a budget that is never used
    up on the thread of the crawl: every
    directory named [tessdata] that holds trained data and lies at most
    [max_depth] levels below the root, below directories that the
    pruning rule accepts, each a real directory entry that is no
    symbolic link and not itself a tessdata directory, has its resolved
    path in the list [_search_directory_tree] returns. *)
Theorem crawl_finds_what_it_can_reach :
  forall (fl : PathFlavour) (w : World) (root : string) (st : state)
         (names : list string) (q : PurePath),
    quiet w -> never_expires st ->
    reaches (Path root) names q -> walks w (Path root) names q ->
    (length names <= max_depth_of (self st))%nat ->
    path_name q = "tessdata" -> holds_traineddata w (str q) ->
    exists a paths,
      fs_resolve w (str q) = Returns a /\
      fst (_search_directory_tree w root false st) = Ok paths /\
      In a paths.
Proof.
  intros fl w root st names q Hquiet Halive Hr Hw Hlen Hname Hvalid.
  destruct (fs_resolve w (str q)) as [a | e] eqn:Hres;
    [| destruct Hquiet as (_ & _ & H); destruct (H _ _ Hres)].
  exists a.
  assert (H : wp (_search_directory_tree w root false)
                 (fun r st' => exists paths, r = Ok paths /\ In a paths) st).
  { unfold _search_directory_tree, _search_directory_tree_fuel.
    apply wp_bind, wp_get. cbn [after].
    apply wp_bind, wp_modify. cbn [after].
    apply wp_bind, wp_get. cbn [after self set_found].
    apply wp_bind, wp_try_except.
    eapply wp_mono;
      [| apply (recursive_search_finds w false (max_depth_of (self st)) q a names
                  Hquiet Hname Hvalid Hres); try assumption; simpl; try lia].
    intros r st' (-> & Ha & _). cbn [after].
    apply wp_bind, wp_get. cbn [after]. apply wp_ret. eauto. }
  unfold wp in H. destruct H as (paths & Hrun & Hin). eauto.
Qed.

Lemma steady_quiet : quiet MoreScenarios.steady.
Proof. repeat split; intros p e H; discriminate H. Qed.

Lemma steady_never_expires :
  never_expires (mkState (mkFinder 10 4 (Some (MoreScenarios.slowing 0)) ∅ "linux")
                         MoreScenarios.slowing 0 [] []).
Proof.
  split; [vm_compute; discriminate |].
  intros s n [= <-]. apply slowing_bounded.
Qed.

Lemma crawl_finds_what_it_can_reach_witness :
  exists a paths,
    fs_resolve MoreScenarios.steady "/usr/share/tessdata" = Returns a /\
    fst (_search_directory_tree (fl := posix) MoreScenarios.steady "/usr/share" false
           (mkState (mkFinder 10 4 (Some (MoreScenarios.slowing 0)) ∅ "linux")
                    MoreScenarios.slowing 0 [] []))
    = Ok paths /\
    In a paths.
Proof.
  apply (crawl_finds_what_it_can_reach posix MoreScenarios.steady "/usr/share"
           (mkState (mkFinder 10 4 (Some (MoreScenarios.slowing 0)) ∅ "linux")
                    MoreScenarios.slowing 0 [] [])
           ["tessdata"] (mkPath "/" ["usr"; "share"; "tessdata"])).
  - apply steady_quiet.
  - apply steady_never_expires.
  - split; [vm_compute; reflexivity | reflexivity].
  - split; [exists ["tessdata"]; split; [vm_compute; reflexivity | now left] |].
    split; [vm_compute; reflexivity |]. split; [vm_compute; reflexivity |].
    split; [| reflexivity]. intros [H _]. vm_compute in H. discriminate H.
  - vm_compute. lia.
  - reflexivity.
  - split; [vm_compute; reflexivity |].
    exists ["eng.traineddata"; "osd.traineddata"].
    split; [vm_compute; reflexivity |].
    exists "eng.traineddata". split; [now left | vm_compute; reflexivity].
Defined.


(** ** What a search is sure to report *)

Section PipelineComplete.

Context {fl : PathFlavour} (w : World) (verbose : bool).

Lemma check_environment_vars_delivers f a cwd :
  getcwd w = IoOk cwd -> env_target w a ->
  delivers verbose f a (_check_environment_vars w).
Proof.
  intros Hcwd (var & c & Hvar & Hc & Ha) st _ _.
  pose proof (check_environment_vars_spec w verbose st) as H. unfold wp in H.
  destruct H as [_ Hr].
  destruct (fst (_check_environment_vars w verbose st)) as [paths | e |].
  - destruct Hr as (_ & _ & Hcomplete).
    destruct (Hcomplete var c Hvar Hc) as (a' & Ha' & Hin).
    assert (a' = a) as ->.
    { unfold abspath_of in *. destruct (os_path_isabs c); [congruence |].
      destruct Ha as (cwd1 & H1 & ->), Ha' as (cwd2 & H2 & ->). congruence. }
    eauto.
  - destruct Hr as (os & _ & Hos). congruence.
  - destruct Hr.
Qed.

Lemma check_common_locations_delivers f a :
  common_target w f a -> delivers verbose f a (_check_common_locations w).
Proof.
  intros (template & Htemplate & Hdir & Hvalid & Ha) st Halive Hos.
  assert (Htemplates : _get_common_tessdata_paths (self st) = _get_common_tessdata_paths f).
  { unfold _get_common_tessdata_paths. now rewrite Hos. }
  assert (H : wp (_check_common_locations w verbose)
                 (fun r _ => exists paths, r = Ok paths /\ In a paths) st).
  { unfold _check_common_locations. apply wp_bind, wp_log. cbn [after].
    apply wp_bind, wp_get. cbn [after self add_events]. rewrite Htemplates.
    assert (Halive0 : never_expires (add_events [EvProbe "_check_common_locations"] st))
      by (apply (never_expires_frame st); auto).
    revert Halive0. generalize (add_events [EvProbe "_check_common_locations"] st).
    intros st0 Halive0.
    apply wp_for_in with
      (I := fun rest paths st' =>
              never_expires st' /\ (In template rest \/ In a paths)); [| | auto].
    - intros x rest paths st1 [Halive1 Hgoal].
      apply wp_bind, wp_is_timeout_never; [exact Halive1 |].
      intros st2 (Hs2 & Hc2 & _). cbn [after].
      assert (Halive2 : never_expires st2) by (apply (never_expires_frame st1); auto).
      assert (Hskip : x <> template -> forall paths',
                (In a paths -> In a paths') ->
                never_expires st2 /\ (In template rest \/ In a paths')).
      { intros Hne paths' Hsub. split; [exact Halive2 |].
        destruct Hgoal as [[Heq | H] | H]; auto. contradiction. }
      apply wp_try_except. cbv zeta.
      destruct (string_dec x template) as [-> | Hne].
      + rewrite Hdir. apply wp_bind, wp_is_valid. intros valid Hv. cbn [after].
        replace valid with true by (symmetry; now apply Hv).
        apply wp_bind, wp_abspath.
        * intros a' Ha'. cbn [after]. apply wp_ret.
          split; [exact Halive2 |]. right. apply in_or_app. right. left.
          unfold abspath_of in *. destruct (os_path_isabs _); [congruence |].
          destruct Ha as (cwd1 & H1 & ->), Ha' as (cwd2 & H2 & ->). congruence.
        * intros e Habs He. exfalso. unfold abspath_of in Ha. rewrite Habs in Ha.
          destruct Ha as (cwd & Hcwd & _). congruence.
      + destruct (os_path_isdir w (expandvars w (expanduser w x)));
          [| apply wp_ret, Hskip; auto].
        apply wp_bind, wp_is_valid. intros valid _. cbn [after].
        destruct valid; [| apply wp_ret, Hskip; auto].
        apply wp_bind, wp_abspath.
        * intros a' _. cbn [after]. apply wp_ret, Hskip; [exact Hne |].
          intros H. apply in_or_app. now left.
        * intros e _ _. cbn [after is_Exception]. apply wp_ret, Hskip; auto.
    - intros paths st1 [_ [[] | Hin]]. apply wp_bind, wp_ret. cbn [after]. apply wp_ret.
      eauto. }
  exact H.
Qed.

Lemma find_all_keeps st a (e1 e3 : bool) :
  budget_holds st ->
  (e1 = true -> delivers verbose (self st) a (_check_environment_vars w)) ->
  (e3 = true -> delivers verbose (self st) a (_check_common_locations w)) ->
  e1 || e3 = true ->
  wp (find_all_tessdata_paths w verbose)
     (fun r _ => match r with
                 | Ok paths => In (os_path_normpath a) paths
                 | _ => True
                 end) st.
Proof.
  intros [Ht Hle] He1 He3 Hsome.
  unfold find_all_tessdata_paths.
  apply wp_bind, wp_time_time. cbn [after].
  apply wp_bind, wp_modify. cbn [after].
  apply wp_bind, wp_get. cbn [after self set_ticks set_self].
  set (t0 := clock st (ticks st)).
  set (f0 := set_found_paths ∅ (set_start_time (Some t0) (self st))).
  set (tier2 := if (os_type f0 =? "windows")%string
                then _check_registry_windows w else _dummy_method).
  clearbody tier2.
  set (inv := fun (b : bool) (st' : state) =>
                clock st' = clock st /\
                exists S : gset string,
                  self st' = set_found_paths S f0 /\ (b = true -> a ∈ S)).
  set (Post := fun (r : result (list string)) (_ : state) =>
                 match r with
                 | Ok paths => In (os_path_normpath a) paths
                 | _ => True
                 end).
  assert (Hticks : forall b st1 st2, inv b st1 -> same_but_ticks st1 st2 -> inv b st2).
  { intros b st1 st2 (Hc & S & Hs & HS) (Hs' & Hc' & _). split; [congruence |].
    exists S. split; [congruence | exact HS]. }
  assert (Halive : forall b st1, inv b st1 -> never_expires st1).
  { intros b st1 (Hc & S & Hs & _). split; rewrite Hs; [exact Ht |].
    intros s n [= <-]. rewrite Hc. apply Hle. }
  assert (Hos : forall b st1, inv b st1 -> os_type (self st1) = os_type (self st)).
  { intros b st1 (_ & S & Hs & _). rewrite Hs. reflexivity. }
  assert (Hadd : forall b st1 paths,
            inv b st1 ->
            inv b (set_self (set_found_paths (found_paths (self st1) ∪ list_to_set paths)
                                             (self st1)) st1)).
  { intros b st1 paths (Hc & S & Hs & HS). split; [exact Hc |].
    exists (S ∪ list_to_set paths). cbn [self set_self]. rewrite Hs. split; [reflexivity |].
    intros Hb. apply elem_of_union. left. auto. }
  assert (Hturn : forall (m : bool -> M (list string)) (est b : bool) st1,
            good_probe w verbose m ->
            (est = true -> delivers verbose (self st) a m) ->
            inv b st1 ->
            wp (expired <- _is_timeout ;;
                if expired then ret (Break tt)
                else try_except
                       (paths <- m verbose ;;
                        update_found_paths paths ;;;
                        ret (Continue tt))
                       is_Exception (ret (Continue tt)))
               (fun r st' => r = Ok (Continue tt) /\ inv (b || est) st') st1).
  { intros m est b st1 Hm Hest Hinv1.
    apply wp_bind, wp_is_timeout_never; [apply (Halive b), Hinv1 |].
    intros st2 Hst2. cbn [after].
    assert (Hinv2 := Hticks _ _ _ Hinv1 Hst2).
    apply wp_try_except, wp_bind.
    assert (Hrun : wp (m verbose)
                      (fun r st3 => probe_post w st2 r st3 /\
                                    (est = true -> exists paths, r = Ok paths /\ In a paths))
                      st2).
    { split; [apply Hm |]. intros H.
      apply (Hest H); [apply (Halive b), Hinv2 | apply (Hos b), Hinv2]. }
    eapply wp_mono; [| exact Hrun].
    intros r st3 [(Hs3 & Hc3 & Hr) Hdel].
    assert (Hinv3 : inv b st3).
    { destruct Hinv2 as (Hc2 & S & Hs2 & HS). split; [congruence |].
      exists S. split; [congruence | exact HS]. }
    destruct r as [paths | e |]; cbn [after is_Exception]; [| | destruct Hr].
    - apply wp_bind, wp_modify. cbn [after]. apply wp_ret.
      split; [reflexivity |].
      destruct Hinv3 as (Hc & S & Hs & HS). split; [exact Hc |].
      exists (S ∪ list_to_set paths). cbn [self set_self]. rewrite Hs.
      split; [reflexivity |]. intros Hb. apply elem_of_union.
      apply orb_true_iff in Hb as [Hb | Hb]; [left; auto | right].
      destruct (Hdel Hb) as (paths' & [= <-] & Hin).
      apply elem_of_list_to_set, list_elem_of_In, Hin.
    - apply wp_ret. split; [reflexivity |].
      destruct est; [destruct (Hdel eq_refl) as (? & H & _); discriminate H |].
      rewrite orb_false_r. exact Hinv3. }
  assert (Hfinish : forall st1,
            inv true st1 ->
            wp (st'' <- get ;;
                ret (_prioritize_paths (elements (found_paths (self st'')))))
               Post st1).
  { intros st1 (_ & S & Hs & HS). apply wp_bind, wp_get. cbn [after]. apply wp_ret.
    unfold Post. apply prioritize_paths_In. exists a. split; [| reflexivity].
    apply list_elem_of_In, elem_of_elements. rewrite Hs. apply HS. reflexivity. }
  assert (Hinv0 : inv false (set_self f0 (set_ticks (S (ticks st)) st))).
  { split; [reflexivity |]. exists ∅. split; [reflexivity | discriminate]. }
  revert Hinv0. generalize (set_self f0 (set_ticks (S (ticks st)) st)). intros st0 Hinv0.
  apply wp_bind.
  match goal with
  | |- wp (for_in _ _ _ _) (after ?k ?P) _ =>
      assert (Hrest : forall st1, inv true st1 -> wp (k tt) P st1)
  end.
  { intros st1 Hinv1. cbv beta.
    apply wp_bind, wp_is_timeout. intros expired st2 Hst2. cbn [after].
    assert (Hinv2 := Hticks _ _ _ Hinv1 Hst2).
    apply wp_bind.
    destruct (negb expired && _); [| apply wp_ret; cbn [after]; apply Hfinish, Hinv2].
    apply wp_bind. unfold ThreadPoolExecutor.
    destruct (max_workers f0 <=? 0)%Z; [apply wp_raise; exact I |].
    apply wp_ret. cbn [after]. apply wp_bind.
    match goal with
    | |- wp (submit_each ?tasks) _ _ =>
        destruct (submit_each_spec (fun _ => True)
                    (fun (_ : result (list string)) (_ : list event) => True)
                    tasks (fun r l l1 l2 H => H) st2) as (futs & l & Hsub & _ & _)
    end.
    { apply Forall_all. intros tc. split; [apply Forall_all; auto | exact I]. }
    unfold wp at 1. rewrite Hsub. cbn [fst snd after].
    assert (Hinv3 : inv true (add_events l st2)).
    { destruct Hinv2 as (Hc2 & S & Hs2 & HS). split; [exact Hc2 |]. exists S. auto. }
    revert Hinv3. generalize (add_events l st2). intros st3 Hinv3.
    apply wp_bind, wp_elapsed. intros e st4 Hst4. cbn [after].
    assert (Hinv4 := Hticks _ _ _ Hinv3 Hst4).
    match goal with
    | |- context [as_completed futs ?order] =>
        destruct (as_completed futs order) as [completed pending]
    end.
    apply wp_for_in with (I := fun _ (_ : unit) st' => inv true st'); [| | exact Hinv4].
    - intros fut rest [] st5 Hinv5.
      apply wp_bind, wp_is_timeout. intros expired' st6 Hst6. cbn [after].
      assert (Hinv6 := Hticks _ _ _ Hinv5 Hst6).
      destruct expired'; [apply wp_ret; cbn [after]; apply Hfinish, Hinv6 |].
      apply wp_try_except, wp_bind, wp_lift.
      destruct fut as [paths | e' |]; cbn [after is_Exception].
      + apply wp_bind, wp_modify. cbn [after]. apply wp_ret. apply Hadd, Hinv6.
      + apply wp_ret. exact Hinv6.
      + exact I.
    - intros [] st5 Hinv5. apply wp_bind. unfold as_completed_end.
      destruct pending; [apply wp_raise; exact I |].
      apply wp_ret. cbn [after]. apply wp_ret. cbn [after]. apply Hfinish, Hinv5. }
  (* tier 1, turn by turn *)
  cbn [firstn for_in].
  apply wp_bind.
  eapply wp_mono;
    [| apply (Hturn (_check_environment_vars w) e1 false st0
                (good_check_environment_vars w verbose) He1 Hinv0)].
  intros r1 st1 [-> Hinv1]. cbn [after orb].
  apply wp_bind.
  eapply wp_mono;
    [| apply (Hturn (_check_tesseract_binary_info w) false e1 st1
                (good_check_tesseract_binary_info w verbose)
                ltac:(discriminate) Hinv1)].
  intros r2 st2 [-> Hinv2]. cbn [after]. rewrite orb_false_r in Hinv2.
  apply wp_bind.
  eapply wp_mono;
    [| apply (Hturn (_check_common_locations w) e3 e1 st2
                (good_check_common_locations w verbose) He3 Hinv2)].
  intros r3 st3 [-> Hinv3]. cbn [after]. rewrite Hsome in Hinv3.
  apply wp_bind, wp_ret. cbn [after]. apply wp_ret. cbn [after].
  apply Hrest, Hinv3.
Qed.

End PipelineComplete.

(** X24. The cheap probes lose nothing.  When the budget is never used up
    on the caller's thread and [find_all_tessdata_paths], called with
    [verbose=False], returns, its list contains the normal form of the absolute path of every
    candidate of the environment probe (the value of one of the three
    variables, or its [tessdata] child, holding trained data), provided
    [os.getcwd] works, and of every common location of the platform
    that is a directory holding trained data. *)
Theorem find_all_reports_cheap_candidates :
  forall (fl : PathFlavour) (w : World) (st : state),
    budget_holds st ->
    match fst (find_all_tessdata_paths w false st) with
    | Ok paths =>
        forall a,
          ((exists cwd, getcwd w = IoOk cwd) /\ env_target w a) \/
          common_target w (self st) a ->
          In (os_path_normpath a) paths
    | _ => True
    end.
Proof.
  intros fl w st Hbudget.
  destruct (fst (find_all_tessdata_paths w false st)) as [paths | e |] eqn:Hrun; auto.
  intros a [[[cwd Hcwd] Ha] | Ha].
  - pose proof (find_all_keeps w false st a true false Hbudget
                  (fun _ => check_environment_vars_delivers w false (self st) a cwd
                              Hcwd Ha)
                  ltac:(discriminate) eq_refl) as H.
    unfold wp in H. now rewrite Hrun in H.
  - pose proof (find_all_keeps w false st a false true Hbudget
                  ltac:(discriminate)
                  (fun _ => check_common_locations_delivers w false (self st) a Ha)
                  eq_refl) as H.
    unfold wp in H. now rewrite Hrun in H.
Qed.

Lemma steady_budget_holds :
  budget_holds (enter MoreScenarios.steady (TessdataFinder_init MoreScenarios.steady 10 4)).
Proof.
  split; [vm_compute; discriminate |]. intros n. apply slowing_bounded.
Qed.

Lemma find_all_reports_cheap_candidates_witness :
  match fst (find_all_tessdata_paths (fl := posix) MoreScenarios.steady false
               (enter MoreScenarios.steady
                  (TessdataFinder_init MoreScenarios.steady 10 4))) with
  | Ok paths =>
      forall a,
        ((exists cwd, getcwd MoreScenarios.steady = IoOk cwd) /\
         env_target (fl := posix) MoreScenarios.steady a) \/
        common_target (fl := posix) MoreScenarios.steady
          (self (enter MoreScenarios.steady
                   (TessdataFinder_init MoreScenarios.steady 10 4))) a ->
        In (posixpath.normpath a) paths
  | _ => True
  end.
Proof.
  apply (find_all_reports_cheap_candidates posix MoreScenarios.steady
           (enter MoreScenarios.steady (TessdataFinder_init MoreScenarios.steady 10 4))).
  apply steady_budget_holds.
Defined.

Example steady_found :
  fst (find_all_tessdata_paths (fl := posix) MoreScenarios.steady false
         (enter MoreScenarios.steady (TessdataFinder_init MoreScenarios.steady 10 4)))
  = Ok ["/usr/share/tessdata"; "/data/ocr/tessdata"].
Proof. vm_compute. reflexivity. Qed.
